(** * MohoMCP: the file-based RPC layer

    A shallow embedding of the RPC core of MohoMCP:
    - the Lua plugin side: [json.lua], [moho_mcp/protocol.lua],
      [moho_mcp/validator.lua], [moho_mcp/tools/batch.lua],
      [moho_mcp/server.lua] and the loading of the modules and the menu
      command of [MohoMCP_Server.lua];
    - the TypeScript bridge side: [bridge/src/protocol.ts] and
      [bridge/src/moho-client.ts].

    Lua values are an inductive type, the shared IPC directory is a finite
    map from file names to file contents (the bytes of the files), raised
    errors are an explicit result type, and the document that the domain
    handlers act on is an abstract world that is threaded through every
    call. *)

From Stdlib Require Import ZArith List Ascii String Lia Bool Sorted.
From stdpp Require Import base tactics option list strings pretty gmap.

Set Warnings "-register-all".
Local Open Scope string_scope.
Local Open Scope list_scope.

(** ** Errors raised by Lua's [error] and caught by [pcall] *)

Inductive res (A : Type) : Type :=
| Ok (a : A)
| Raise (msg : string).
Arguments Ok {A} a.
Arguments Raise {A} msg.

#[global] Instance res_bind : MBind res := fun A B k r =>
  match r with
  | Ok a => k a
  | Raise m => Raise m
  end.

(** ** Lua values *)

Module Lua.

(** Numbers.  [NInt z] is the integer [z], an integer of 64 bits in Lua.
    A finite float is named by the text that [string.format("%.17g", _)]
    prints for it, which identifies the float.  NaN and the two infinities
    are the numbers the JSON encoder refuses. *)
Inductive number :=
| NInt (z : Z)
| NFloat (g17 : string)
| NInf (negative : bool)
| NNaN.

(** A table has a sequence part (keys 1..n, the part [#t] and [ipairs] see)
    and a part with string keys, which is every table that [json.decode]
    builds and every table literal of the modelled modules.  Tables with
    keys of another kind (booleans, tables, floats, integers that leave a
    hole) are not represented, nor are tables marked by [json.object]
    (which none of the modelled modules calls), userdata and threads: what
    the encoder does with them ([cannot encode table key of type ...],
    [{}] for a marked empty table) is outside this development.  A table of
    Lua holds no nil and holds each key once; the values of this type that
    are values of Lua are the [proper] ones.  [VNull] is the sentinel table
    [json.null]; [VFunction] is a function. *)
Inductive value :=
| VNil
| VBool (b : bool)
| VNum (n : number)
| VStr (s : string)
| VTable (arr : list value) (fields : list (string * value))
| VNull
| VFunction.

Definition VInt (z : Z) : value := VNum (NInt z).

(** [type(v)] *)
Definition type (v : value) : string :=
  match v with
  | VNil => "nil"
  | VBool _ => "boolean"
  | VNum _ => "number"
  | VStr _ => "string"
  | VTable _ _ => "table"
  | VNull => "table"
  | VFunction => "function"
  end.

(** A value in a condition: only [nil] and [false] are false. *)
Definition truthy (v : value) : bool :=
  match v with
  | VNil => false
  | VBool false => false
  | _ => true
  end.

Definition is_nil (v : value) : bool :=
  match v with VNil => true | _ => false end.

(** [v == s] for a string literal [s]. *)
Definition is_string (v : value) (s : string) : bool :=
  match v with VStr s' => String.eqb s' s | _ => false end.

(** [a or b] *)
Definition lua_or (a b : value) : value := if truthy a then a else b.

Fixpoint assoc (k : string) (fs : list (string * value)) : value :=
  match fs with
  | [] => VNil
  | (k', v) :: rest => if String.eqb k k' then v else assoc k rest
  end.

Fixpoint remove_key (k : string) (fs : list (string * value))
  : list (string * value) :=
  match fs with
  | [] => []
  | (k', v) :: rest =>
      if String.eqb k k' then remove_key k rest else (k', v) :: remove_key k rest
  end.

(** [t[k] = v] on the string-keyed part: assigning [nil] removes the key. *)
Fixpoint set_key (k : string) (v : value) (fs : list (string * value))
  : list (string * value) :=
  match fs with
  | [] => if is_nil v then [] else [(k, v)]
  | (k', v') :: rest =>
      if String.eqb k k'
      then (if is_nil v then remove_key k rest else (k, v) :: remove_key k rest)
      else (k', v') :: set_key k v rest
  end.

(** A table constructor [{ k1 = v1, ..., kn = vn }]. *)
Definition record (fs : list (string * value)) : value :=
  VTable [] (fold_left (fun acc kv => set_key (fst kv) (snd kv) acc) fs []).

(** [t.k] for a table [t].  Indexing [json.null] finds nothing: the sentinel
    is an empty table whose metatable has no [__index]. *)
Definition field (t : value) (k : string) : value :=
  match t with
  | VTable _ fs => assoc k fs
  | _ => VNil
  end.

(** [v.k] for any value: indexing a string goes to the [string] library,
    which has none of the keys the modelled code asks for; indexing nil, a
    boolean, a number or a function raises. *)
Definition index (v : value) (k : string) : res value :=
  match v with
  | VTable _ _ | VNull | VStr _ => Ok (field v k)
  | _ => Raise ("attempt to index a " +:+ type v +:+ " value")
  end.

(** [tostring(v)].  The text for a table or a function holds an address and
    the text for a double depends on the C library; neither is reached by a
    value the modelled code converts. *)
Definition tostring (v : value) : string :=
  match v with
  | VNil => "nil"
  | VBool b => if b then "true" else "false"
  | VNum (NInt z) => pretty z
  | VNum (NFloat g17) => g17
  | VNum (NInf negative) => if negative then "-inf" else "inf"
  | VNum NNaN => "nan"
  | VStr s => s
  | VTable _ _ | VNull => "table"
  | VFunction => "function"
  end.

(** [#t] for a table: the length of the sequence part, which holds no nil
    in a table of Lua. *)
Definition len (t : value) : nat :=
  match t with
  | VTable arr _ => length arr
  | _ => 0
  end.

(** The elements [ipairs(t)] visits, in order. *)
Definition elements (t : value) : list value :=
  match t with
  | VTable arr _ => arr
  | _ => []
  end.

End Lua.
Export Lua.

(** ** validator.lua *)

Module validator.

Record field_schema := { name : string; ftype : string }.

(** Allow-list of tool method names *)
Definition allowedMethods : list string :=
  [ "document.getInfo"; "document.getLayers"; "layer.getProperties";
    "layer.getChildren"; "layer.getBones"; "bone.getProperties";
    "animation.getKeyframes"; "animation.getFrameState"; "mesh.getPoints";
    "mesh.getShapes";
    "bone.setTransform"; "bone.selectBone"; "layer.setTransform";
    "layer.setVisibility"; "layer.setOpacity"; "layer.setName";
    "layer.selectLayer"; "animation.setKeyframe"; "animation.deleteKeyframe";
    "animation.setInterpolation"; "document.setFrame";
    "document.screenshot";
    "batch.execute" ].

Definition req (n t : string) : field_schema := {| name := n; ftype := t |}.

(** Parameter schemas for each method *)
Definition paramSchemas : list (string * list field_schema) :=
  [ ("document.getInfo", []);
    ("document.getLayers", []);
    ("layer.getProperties", [req "layerId" "number"]);
    ("layer.getChildren", [req "layerId" "number"]);
    ("layer.getBones", [req "layerId" "number"]);
    ("bone.getProperties", [req "layerId" "number"; req "boneId" "number"]);
    ("animation.getKeyframes", [req "layerId" "number"; req "channel" "string"]);
    ("animation.getFrameState", [req "layerId" "number"; req "frame" "number"]);
    ("mesh.getPoints", [req "layerId" "number"]);
    ("mesh.getShapes", [req "layerId" "number"]);
    ("bone.setTransform",
      [req "layerId" "number"; req "boneId" "number"; req "frame" "number"]);
    ("bone.selectBone", [req "layerId" "number"; req "boneId" "number"]);
    ("layer.setTransform", [req "layerId" "number"; req "frame" "number"]);
    ("layer.setVisibility", [req "layerId" "number"; req "visible" "boolean"]);
    ("layer.setOpacity",
      [req "layerId" "number"; req "frame" "number"; req "opacity" "number"]);
    ("layer.setName", [req "layerId" "number"; req "name" "string"]);
    ("layer.selectLayer", [req "layerId" "number"]);
    ("animation.setKeyframe",
      [req "layerId" "number"; req "channel" "string"; req "frame" "number"]);
    ("animation.deleteKeyframe",
      [req "layerId" "number"; req "channel" "string"; req "frame" "number"]);
    ("animation.setInterpolation",
      [req "layerId" "number"; req "channel" "string"; req "frame" "number";
       req "mode" "string"]);
    ("document.setFrame", [req "frame" "number"]);
    ("document.screenshot", []);
    ("batch.execute", [req "operations" "table"]) ].

Fixpoint schema_of (method : string) (tbl : list (string * list field_schema))
  : option (list field_schema) :=
  match tbl with
  | [] => None
  | (m, s) :: rest => if String.eqb method m then Some s else schema_of method rest
  end.

(** [validator.isAllowed(method)] *)
Definition isAllowed (method : string) : bool :=
  existsb (String.eqb method) allowedMethods.

Inductive verdict :=
| Valid
| Invalid (message : string).

(** The loop over the required fields of a schema. *)
Fixpoint check_fields (schema : list field_schema) (params : value) : verdict :=
  match schema with
  | [] => Valid
  | f :: rest =>
      let value := field params (name f) in
      if is_nil value then
        Invalid ("Missing required parameter: " +:+ name f)
      else if negb (String.eqb (type value) (ftype f)) then
        Invalid ("Invalid parameter type for '" +:+ name f
                 +:+ "': expected " +:+ ftype f +:+ ", got " +:+ type value)
      else check_fields rest params
  end.

(** The body of [validateParams] once the schema has been looked up. *)
Definition validate_against (schema : list field_schema) (params : value)
  : verdict :=
  match schema with
  | [] => Valid
  | _ :: _ =>
      if negb (String.eqb (type params) "table") then
        Invalid "Missing params: expected a table of parameters"
      else check_fields schema params
  end.

(** [validator.validateParams(method, params)] *)
Definition validateParams (method : string) (params : value) : verdict :=
  match schema_of method paramSchemas with
  | None => Invalid ("Unknown method: " +:+ method)
  | Some schema => validate_against schema params
  end.

End validator.

(** ** The runtime under the Lua code

    The two conversions between decimal text and doubles, and the position
    that [error] puts in front of a message, are not code of this
    repository; they are an interface of the development. *)

Class CRuntime := {
  (** [strtod]: the number that a well-formed decimal text denotes once it
      is rounded to a double (used for texts that are not integers of 64
      bits). *)
  strtod : string -> number;
  (** [string.format("%.17g", z)] for an integer [z]. *)
  format_g17 : Z -> string;
  (** [luaL_where]: what [error(message)] puts in front of a message that
      is raised at a line of [json.lua], [<chunk>:<line>: ] with the name
      under which the file was loaded, or nothing when the chunk carries no
      line information. *)
  where_json : nat -> string;
}.

(** ** json.lua *)

Module json.

Definition chr (n : nat) : ascii := ascii_of_nat n.
Definition code (c : ascii) : nat := nat_of_ascii c.
Definition str1 (c : ascii) : string := String c EmptyString.

Definition dquote : ascii := chr 34.
Definition backslash : ascii := chr 92.

Definition is_char (c : ascii) (n : nat) : bool := Nat.eqb (code c) n.

(** *** Encoder *)

Definition hex_digit (n : nat) : ascii :=
  if Nat.ltb n 10 then chr (48 + n) else chr (87 + n).

(** [escape_char]: the escape map, and [\u00XX] for the other control
    characters. *)
Definition escape_char (c : ascii) : string :=
  let n := code c in
  if Nat.eqb n 92 then String backslash (str1 backslash)
  else if Nat.eqb n 34 then String backslash (str1 dquote)
  else if Nat.eqb n 8 then String backslash "b"
  else if Nat.eqb n 12 then String backslash "f"
  else if Nat.eqb n 10 then String backslash "n"
  else if Nat.eqb n 13 then String backslash "r"
  else if Nat.eqb n 9 then String backslash "t"
  else String backslash
         ("u00" +:+ String (hex_digit (n / 16)) (str1 (hex_digit (n mod 16)))).

(** The characters [encode_string] escapes: the bytes 0 to 31, the
    backslash and the double quote. *)
Definition needs_escape (c : ascii) : bool :=
  let n := code c in
  Nat.leb n 31 || Nat.eqb n 92 || Nat.eqb n 34.

Fixpoint escape_all (s : string) : string :=
  match s with
  | EmptyString => EmptyString
  | String c rest =>
      (if needs_escape c then escape_char c else str1 c) +:+ escape_all rest
  end.

Definition encode_string (val : string) : string :=
  String dquote (escape_all val +:+ str1 dquote).

Definition two_53 : Z := 9007199254740992.

(** An integer of 64 bits, with its wrap-around. *)
Definition wrap64 (z : Z) : Z :=
  ((z + 9223372036854775808) mod 18446744073709551616
   - 9223372036854775808)%Z.

(** [math.abs] on an integer: [math.abs(math.mininteger)] wraps around to
    [math.mininteger]. *)
Definition math_abs (z : Z) : Z := wrap64 (Z.abs z).

(** [encode_number].  An integer passes the test [val == math.floor(val)];
    [%.0f] prints an integer below 2^53 in absolute value, and
    [math.mininteger], digit for digit.  A float with an integral value
    below 2^53 is printed by [%.0f] as [%.17g] prints it. *)
Definition encode_number `{CRuntime} (val : number) : res string :=
  match val with
  | NNaN => Raise (where_json 78 +:+ "cannot encode NaN as JSON")
  | NInf false => Raise (where_json 80 +:+ "cannot encode Infinity as JSON")
  | NInf true => Raise (where_json 82 +:+ "cannot encode -Infinity as JSON")
  | NInt z =>
      if (math_abs z <? two_53)%Z then Ok (pretty z) else Ok (format_g17 z)
  | NFloat g17 => Ok g17
  end.

(** [table.concat(parts, sep)] *)
Fixpoint concat_with (sep : string) (parts : list string) : string :=
  match parts with
  | [] => ""
  | [p] => p
  | p :: rest => p +:+ sep +:+ concat_with sep rest
  end.

(** [table.sort(keys)] on the keys of an object, carrying along what each
    key maps to. *)
Fixpoint insert_by_key {A} (kv : string * A) (sorted : list (string * A))
  : list (string * A) :=
  match sorted with
  | [] => [kv]
  | kv' :: rest =>
      if String.ltb (fst kv') (fst kv)
      then kv' :: insert_by_key kv rest
      else kv :: sorted
  end.

Definition sort_by_key {A} (l : list (string * A)) : list (string * A) :=
  fold_right insert_by_key [] l.

(** The parts of an array or object, in order, up to the first one whose
    encoding raises. *)
Fixpoint collect (parts : list (res string)) : res (list string) :=
  match parts with
  | [] => Ok []
  | Ok p :: rest =>
      match collect rest with
      | Ok ps => Ok (p :: ps)
      | Raise m => Raise m
      end
  | Raise m :: _ => Raise m
  end.

(** [encode_value(val, nil, 0)].  A table is an array ([is_array]) when it
    has no string key; the object encoder writes the string keys only. *)
Fixpoint encode_value `{CRuntime} (val : value) : res string :=
  match val with
  | VNull => Ok "null"
  | VStr s => Ok (encode_string s)
  | VNum n => encode_number n
  | VBool b => Ok (if b then "true" else "false")
  | VNil => Ok "null"
  | VTable arr [] =>
      match collect (map encode_value arr) with
      | Ok [] => Ok "[]"
      | Ok parts => Ok ("[" +:+ concat_with "," parts +:+ "]")
      | Raise m => Raise m
      end
  | VTable _ fields =>
      let encoded :=
        (fix each (fs : list (string * value)) : list (string * res string) :=
           match fs with
           | [] => []
           | (k, v) :: rest => (k, encode_value v) :: each rest
           end) fields in
      let part (kv : string * res string) : res string :=
        match snd kv with
        | Ok j => Ok (encode_string (fst kv) +:+ ":" +:+ j)
        | Raise m => Raise m
        end in
      match collect (map part (sort_by_key encoded)) with
      | Ok parts => Ok ("{" +:+ concat_with "," parts +:+ "}")
      | Raise m => Raise m
      end
  | VFunction =>
      Raise (where_json 222 +:+ "cannot encode value of type function as JSON")
  end.

(** [json.encode(val)].  [error(_, 2)] puts the position of the caller of
    [json.encode] in front of the message.  Every call of the modelled code
    that can raise is a tail call below the [pcall] of [server.poll]
    ([return json.encode(response)] in [createResponse] and [createError],
    themselves tail calls of [processRequest]): the caller is then the C
    function [pcall], which has no position. *)
Definition encode `{CRuntime} (val : value) : res string :=
  match encode_value val with
  | Ok s => Ok s
  | Raise m => Raise ("json.encode: " +:+ m)
  end.

(** *** Decoder

    The decoder works on the text that is left to read, where the source
    keeps a position into the whole text.  A decoding error is [None]: its
    message (which names a line and a column) is discarded by the only
    caller, [protocol.parseRequest]. *)

Definition is_ws (c : ascii) : bool :=
  is_char c 32 || is_char c 9 || is_char c 10 || is_char c 13.

Fixpoint skip_ws (s : string) : string :=
  match s with
  | String c rest => if is_ws c then skip_ws rest else s
  | EmptyString => s
  end.

Definition is_digit (c : ascii) : bool :=
  Nat.leb 48 (code c) && Nat.leb (code c) 57.

Definition hex_value (c : ascii) : option N :=
  let n := code c in
  if Nat.leb 48 n && Nat.leb n 57 then Some (N.of_nat (n - 48))
  else if Nat.leb 97 n && Nat.leb n 102 then Some (N.of_nat (n - 87))
  else if Nat.leb 65 n && Nat.leb n 70 then Some (N.of_nat (n - 55))
  else None.

Definition hex4 (s : string) : option (N * string) :=
  match s with
  | String a (String b (String c (String d rest))) =>
      va ← hex_value a; vb ← hex_value b; vc ← hex_value c; vd ← hex_value d;
      Some ((((va * 16 + vb) * 16 + vc) * 16 + vd)%N, rest)
  | _ => None
  end.

Definition byte (n : N) : ascii := ascii_of_N n.

(** The UTF-8 bytes of a code point. *)
Definition utf8 (codepoint : N) : option string :=
  (if codepoint <=? 127 then Some (str1 (byte codepoint))
   else if codepoint <=? 2047 then
     Some (String (byte (192 + codepoint / 64))
            (str1 (byte (128 + codepoint mod 64))))
   else if codepoint <=? 65535 then
     Some (String (byte (224 + codepoint / 4096))
            (String (byte (128 + (codepoint mod 4096) / 64))
              (str1 (byte (128 + codepoint mod 64)))))
   else if codepoint <=? 1114111 then
     Some (String (byte (240 + codepoint / 262144))
            (String (byte (128 + (codepoint mod 262144) / 4096))
              (String (byte (128 + (codepoint mod 4096) / 64))
                (str1 (byte (128 + codepoint mod 64))))))
   else None)%N.

(** [decode_unicode_escape], on the text after [\u]. *)
Definition decode_unicode_escape (s : string) : option (string * string) :=
  '(codepoint, rest) ← hex4 s;
  if ((55296 <=? codepoint) && (codepoint <=? 56319))%N then
    match rest with
    | String b (String u rest2) =>
        if is_char b 92 && is_char u 117 then
          '(low, rest3) ← hex4 rest2;
          if ((low <? 56320) || (57343 <? low))%N then None
          else
            bytes ← utf8 (65536 + (codepoint - 55296) * 1024 + (low - 56320))%N;
            Some (bytes, rest3)
        else None
    | _ => None
    end
  else if ((56320 <=? codepoint) && (codepoint <=? 57343))%N then None
  else bytes ← utf8 codepoint; Some (bytes, rest).

(** [escape_char_decode] *)
Definition escape_char_decode (esc : ascii) : option ascii :=
  let n := code esc in
  if Nat.eqb n 34 then Some dquote
  else if Nat.eqb n 92 then Some backslash
  else if Nat.eqb n 47 then Some (chr 47)
  else if Nat.eqb n 98 then Some (chr 8)
  else if Nat.eqb n 102 then Some (chr 12)
  else if Nat.eqb n 110 then Some (chr 10)
  else if Nat.eqb n 114 then Some (chr 13)
  else if Nat.eqb n 116 then Some (chr 9)
  else None.

(** The loop of [decode_string], after the opening quote. *)
Fixpoint string_body (fuel : nat) (s acc : string) : option (string * string) :=
  match fuel with
  | O => None
  | S fuel' =>
      match s with
      | EmptyString => None
      | String c rest =>
          if is_char c 34 then Some (acc, rest)
          else if is_char c 92 then
            match rest with
            | EmptyString => None
            | String esc rest' =>
                if is_char esc 117 then
                  '(decoded, new_rest) ← decode_unicode_escape rest';
                  string_body fuel' new_rest (acc +:+ decoded)
                else
                  match escape_char_decode esc with
                  | Some d => string_body fuel' rest' (acc +:+ str1 d)
                  | None => None
                  end
            end
          else if Nat.ltb (code c) 32 then None
          else string_body fuel' rest (acc +:+ str1 c)
      end
  end.

Definition decode_string (s : string) : option (string * string) :=
  match s with
  | String c rest =>
      if is_char c 34 then string_body (String.length s) rest "" else None
  | EmptyString => None
  end.

(** The longest prefix of characters in a class, and what follows it. *)
Fixpoint span (p : ascii -> bool) (s : string) : string * string :=
  match s with
  | String c rest =>
      if p c then let '(taken, after) := span p rest in (String c taken, after)
      else ("", s)
  | EmptyString => ("", s)
  end.

(** At most one character of a class. *)
Definition optional (p : ascii -> bool) (s : string) : string * string :=
  match s with
  | String c rest => if p c then (str1 c, rest) else ("", s)
  | EmptyString => ("", s)
  end.

Definition digits_value (ds : string) : Z :=
  fold_left (fun acc c => (acc * 10 + Z.of_nat (code c - 48))%Z)
            (list_ascii_of_string ds) 0%Z.

Definition is_empty (s : string) : bool :=
  match s with EmptyString => true | _ => false end.

(** [tonumber(num_str)] on a text that the number pattern matched: an
    integer of 64 bits when it is written as one, a double otherwise, and
    [nil] when an exponent mark or an exponent sign is not followed by
    digits. *)
Definition tonumber `{CRuntime}
    (sign int dot frac e esign exp : string) : option number :=
  let num_str := sign +:+ int +:+ dot +:+ frac +:+ e +:+ esign +:+ exp in
  if is_empty e then
    if negb (is_empty esign) then None
    else if is_empty dot then
      let z := if is_empty sign then digits_value int
               else (- digits_value int)%Z in
      if ((-9223372036854775808 <=? z) && (z <=? 9223372036854775807))%Z
      then Some (NInt z) else Some (strtod num_str)
    else Some (strtod num_str)
  else if is_empty exp then None
  else Some (strtod num_str).

(** [decode_number]: the text matched by the pattern
    [^-?%d+%.?%d*[eE]?[+-]?%d*], then the check on leading zeros. *)
Definition decode_number `{CRuntime} (s : string) : option (value * string) :=
  let '(sign, s1) := optional (fun c => is_char c 45) s in
  let '(int, s2) := span is_digit s1 in
  if is_empty int then None
  else
    let '(dot, s3) := optional (fun c => is_char c 46) s2 in
    let '(frac, s4) := span is_digit s3 in
    let '(e, s5) := optional (fun c => is_char c 101 || is_char c 69) s4 in
    let '(esign, s6) := optional (fun c => is_char c 43 || is_char c 45) s5 in
    let '(exp, s7) := span is_digit s6 in
    val ← tonumber sign int dot frac e esign exp;
    let check := int +:+ dot +:+ frac +:+ e +:+ esign +:+ exp in
    match check with
    | String c1 (String c2 _) =>
        if is_char c1 48 && negb (is_char c2 46)
           && negb (is_char c2 101 || is_char c2 69)
        then None
        else Some (VNum val, s7)
    | _ => Some (VNum val, s7)
    end.

(** [str:sub(pos, pos + #lit - 1) == lit]; the text after the literal. *)
Fixpoint literal (lit s : string) : option string :=
  match lit, s with
  | EmptyString, _ => Some s
  | String a lit', String b s' => if Ascii.eqb a b then literal lit' s' else None
  | String _ _, EmptyString => None
  end.

(** [decode_value], with the loops of [decode_array] and [decode_object].
    The fuel bounds the nesting of calls; every call is made after at least
    one more character has been read. *)
Fixpoint decode_value `{CRuntime} (fuel : nat) (s : string)
  : option (value * string) :=
  match fuel with
  | O => None
  | S fuel' =>
      match skip_ws s with
      | EmptyString => None
      | String c rest as here =>
          if is_char c 34 then
            '(str, rest') ← decode_string here; Some (VStr str, rest')
          else if is_char c 123 then
            match skip_ws rest with
            | String c' rest' as inner =>
                if is_char c' 125 then Some (VTable [] [], rest')
                else object_loop fuel' inner []
            | EmptyString => object_loop fuel' EmptyString []
            end
          else if is_char c 91 then
            match skip_ws rest with
            | String c' rest' as inner =>
                if is_char c' 93 then Some (VTable [] [], rest')
                else array_loop fuel' inner []
            | EmptyString => array_loop fuel' EmptyString []
            end
          else if is_char c 45 || is_digit c then decode_number here
          else if is_char c 116 then
            rest' ← literal "true" here; Some (VBool true, rest')
          else if is_char c 102 then
            rest' ← literal "false" here; Some (VBool false, rest')
          else if is_char c 110 then
            rest' ← literal "null" here; Some (VNull, rest')
          else None
      end
  end
with array_loop `{CRuntime} (fuel : nat) (s : string) (arr : list value)
  : option (value * string) :=
  match fuel with
  | O => None
  | S fuel' =>
      '(val, s1) ← decode_value fuel' s;
      let arr' := arr ++ [val] in
      match skip_ws s1 with
      | String c rest =>
          if is_char c 93 then Some (VTable arr' [], rest)
          else if is_char c 44 then
            match skip_ws rest with
            | String c' _ as next =>
                if is_char c' 93 then None else array_loop fuel' next arr'
            | EmptyString => array_loop fuel' EmptyString arr'
            end
          else None
      | EmptyString => None
      end
  end
with object_loop `{CRuntime} (fuel : nat) (s : string)
    (obj : list (string * value)) : option (value * string) :=
  match fuel with
  | O => None
  | S fuel' =>
      '(key, s1) ← decode_string (skip_ws s);
      match skip_ws s1 with
      | String colon s2 =>
          if is_char colon 58 then
            '(val, s3) ← decode_value fuel' (skip_ws s2);
            let obj' := set_key key val obj in
            match skip_ws s3 with
            | String c rest =>
                if is_char c 125 then Some (VTable [] obj', rest)
                else if is_char c 44 then
                  match skip_ws rest with
                  | String c' _ as next =>
                      if is_char c' 125 then None
                      else object_loop fuel' next obj'
                  | EmptyString => object_loop fuel' EmptyString obj'
                  end
                else None
            | EmptyString => None
            end
          else None
      | EmptyString => None
      end
  end.

(** [json.decode(str)] for a string argument. *)
Definition decode `{CRuntime} (str : string) : res value :=
  if is_empty str then Raise "json.decode: empty string"
  else
    match decode_value (2 * String.length str + 2) str with
    | Some (val, rest) =>
        if is_empty (skip_ws rest) then Ok val
        else Raise "json.decode: unexpected trailing content"
    | None => Raise "json.decode: malformed input"
    end.

End json.

(** ** protocol.lua *)

Module protocol.

Definition PARSE_ERROR : Z := -32700.
Definition INVALID_REQUEST : Z := -32600.
Definition METHOD_NOT_FOUND : Z := -32601.
Definition INVALID_PARAMS : Z := -32602.
Definition INTERNAL_ERROR : Z := -32603.

(** [protocol.parseRequest(jsonStr)] for a string argument: the decoded
    request table, or the error message that comes with [nil]. *)
Definition parseRequest `{CRuntime} (jsonStr : string) : value + string :=
  if json.is_empty jsonStr then
    inr "Invalid input: expected non-empty JSON string"
  else
    match json.decode jsonStr with
    | Raise _ => inr "Parse error: malformed JSON"
    | Ok decoded =>
        if negb (String.eqb (type decoded) "table") then
          inr "Parse error: malformed JSON"
        else
          if negb (is_string (field decoded "jsonrpc") "2.0") then
            inr ("Invalid request: missing or incorrect jsonrpc version "
                 +:+ "(must be " +:+ String json.dquote "2.0"
                 +:+ String json.dquote ")")
          else if is_nil (field decoded "id") then
            inr "Invalid request: missing id field"
          else
            match field decoded "method" with
            | VStr method =>
                if json.is_empty method then
                  inr "Invalid request: missing or invalid method field"
                else inl decoded
            | _ => inr "Invalid request: missing or invalid method field"
            end
    end.

(** The table that [createResponse] hands to the encoder. *)
Definition response_table (id result : value) : value :=
  record [("jsonrpc", VStr "2.0"); ("id", id); ("result", result)].

(** [protocol.createResponse(id, result)] *)
Definition createResponse `{CRuntime} (id result : value) : res string :=
  json.encode (response_table id result).

(** The table that [createError] hands to the encoder. *)
Definition error_table (id : value) (code : Z) (message data : value) : value :=
  let errorObj := record [("code", VInt code); ("message", message)] in
  let errorObj :=
    if negb (is_nil data)
    then match errorObj with
         | VTable arr fs => VTable arr (set_key "data" data fs)
         | other => other
         end
    else errorObj in
  record [("jsonrpc", VStr "2.0"); ("id", id); ("error", errorObj)].

(** [protocol.createError(id, code, message, data)] *)
Definition createError `{CRuntime} (id : value) (code : Z) (message data : value)
  : res string :=
  json.encode (error_table id code message data).

End protocol.

(** ** Handlers

    A domain handler is called as [pcall(handler, moho, params)]: it acts
    on the document behind [moho] and either raises or returns a result and
    an error value. *)

Inductive pcall_result :=
| Threw (err : string)
| Returned (result : value) (handlerErr : value).

Abbreviation handler World := (World -> value -> pcall_result * World).

(** ** tools/batch.lua *)

Module batch.
Section batch.
Context {World : Type}.

(** Maximum number of operations allowed in a single batch *)
Definition MAX_OPERATIONS : nat := 50.

(** Methods that are not allowed inside a batch *)
Definition disallowedInBatch (method : string) : bool :=
  String.eqb method "document.screenshot" || String.eqb method "batch.execute".

Record loop_state := {
  results : list value;
  succeeded : nat;
  failed : nat;
  executed : nat;
  stoppedEarly : bool;
  world : World;
}.

Definition initial (moho : World) : loop_state :=
  {| results := []; succeeded := 0; failed := 0; executed := 0;
     stoppedEarly := false; world := moho |}.

Definition error_entry (i : nat) (code : Z) (message : value) : value :=
  record [("success", VBool false);
          ("index", VInt (Z.of_nat i));
          ("error", record [("code", VInt code); ("message", message)])].

Definition success_entry (i : nat) (result : value) : value :=
  record [("success", VBool true);
          ("index", VInt (Z.of_nat i));
          ("result", result)].

Definition skipped_entry (i : nat) : value :=
  error_entry i (-32000) (VStr "Skipped (stopOnError)").

(** An operation that fails before its handler is called. *)
Definition reject (stopOnError : bool) (st : loop_state) (i : nat)
    (code : Z) (message : string) : loop_state :=
  {| results := results st ++ [error_entry i code (VStr message)];
     succeeded := succeeded st;
     failed := failed st + 1;
     executed := executed st + 1;
     stoppedEarly := if stopOnError then true else stoppedEarly st;
     world := world st |}.

(** What an operation is rejected with before any handler is looked at:
    bad structure, the denylist, the allow-list, the parameter schema. *)
Definition precheck (i : nat) (op : value) : (Z * string) + (string * value) :=
  match (if String.eqb (type op) "table" then field op "method" else VNil) with
  | VStr method =>
      let opParams := lua_or (field op "params") (VTable [] []) in
      if disallowedInBatch method then
        inl (-32601, "Method not allowed in batch: " +:+ method)%Z
      else if negb (validator.isAllowed method) then
        inl (-32601, "Method not found: " +:+ method)%Z
      else
        match validator.validateParams method opParams with
        | validator.Invalid validErr => inl (-32602, validErr)%Z
        | validator.Valid => inr (method, opParams)
        end
  | _ =>
      inl (-32600, "Invalid operation at index " +:+ pretty i
                   +:+ ": must have a string 'method'")%Z
  end.

(** One turn of the loop [for i, op in ipairs(operations)]. *)
Definition step (handlers : gmap string (handler World)) (stopOnError : bool)
    (st : loop_state) (i : nat) (op : value) : loop_state :=
  if stoppedEarly st then
    {| results := results st ++ [skipped_entry i];
       succeeded := succeeded st; failed := failed st;
       executed := executed st; stoppedEarly := stoppedEarly st;
       world := world st |}
  else
    match precheck i op with
    | inl (code, message) => reject stopOnError st i code message
    | inr (method, opParams) =>
        match handlers !! method with
        | None =>
            reject stopOnError st i (-32601)
                   ("No handler registered for: " +:+ method)
        | Some handler =>
            let '(outcome, moho') := handler (world st) opParams in
            let failure (message : value) :=
              {| results := results st ++ [error_entry i (-32603) message];
                 succeeded := succeeded st;
                 failed := failed st + 1;
                 executed := executed st + 1;
                 stoppedEarly := if stopOnError then true else stoppedEarly st;
                 world := moho' |} in
            match outcome with
            | Threw err => failure (VStr ("Handler error: " +:+ err))
            | Returned result handlerErr =>
                if is_nil result && truthy handlerErr then failure handlerErr
                else
                  {| results := results st ++ [success_entry i result];
                     succeeded := succeeded st + 1;
                     failed := failed st;
                     executed := executed st + 1;
                     stoppedEarly := stoppedEarly st;
                     world := moho' |}
            end
        end
    end.

(** The whole loop, from the operation at position [i]. *)
Fixpoint run (handlers : gmap string (handler World)) (stopOnError : bool)
    (st : loop_state) (i : nat) (ops : list value) : loop_state :=
  match ops with
  | [] => st
  | op :: rest =>
      run handlers stopOnError (step handlers stopOnError st i op) (S i) rest
  end.

Definition summary (total : nat) (st : loop_state) : value :=
  record [("total", VInt (Z.of_nat total));
          ("executed", VInt (Z.of_nat (executed st)));
          ("succeeded", VInt (Z.of_nat (succeeded st)));
          ("failed", VInt (Z.of_nat (failed st)));
          ("stoppedEarly", VBool (stoppedEarly st))].

(** What [batch.execute] does once it has [operations] and [stopOnError]:
    the final state of the loop, or the message that comes with [nil]. *)
Definition execute_ops (handlers : gmap string (handler World)) (moho : World)
    (operations : value) (stopOnError : bool) : loop_state + string :=
  if negb (String.eqb (type operations) "table") || Nat.eqb (len operations) 0
  then inr "operations must be a non-empty array"
  else if Nat.ltb MAX_OPERATIONS (len operations) then
    inr ("Too many operations: " +:+ pretty (len operations)
         +:+ " (max " +:+ pretty MAX_OPERATIONS +:+ ")")
  else
    inl (run handlers stopOnError (initial moho) 1 (elements operations)).

(** [batch.execute(moho, params)], as [pcall] sees it. *)
Definition execute (handlers : gmap string (handler World)) : handler World :=
  fun moho params =>
    match index params "operations", index params "stopOnError" with
    | Ok operations, Ok stopFlag =>
        let stopOnError := truthy (lua_or stopFlag (VBool false)) in
        match execute_ops handlers moho operations stopOnError with
        | inr message => (Returned VNil (VStr message), moho)
        | inl st =>
            (Returned
               (record [("results", VTable (results st) []);
                        ("summary", summary (len operations) st)])
               VNil,
             world st)
        end
    | Raise err, _ | _, Raise err => (Threw err, moho)
    end.

End batch.
End batch.

(** ** server.lua

    The IPC directory is a finite map from the name of a file in it to the
    content of the file.  Opening a file of the directory for reading
    succeeds exactly when the file exists.  A write goes through once
    [server.start] has checked that the directory can be written to; the
    write of that check is the one that can fail. *)

Abbreviation directory := (gmap string string).

Module server.
Section server.
Context {World : Type} `{CRuntime}.

(** Server state: the running flag and the tool handler registry, which
    holds what [server.registerHandler] was called with. *)
Record state := {
  isRunning : bool;
  handlers : gmap string (handler World);
}.

(** [server.getHandler(method)], also [handlers[method]] *)
Definition getHandler (st : state) (method : string) : option (handler World) :=
  handlers st !! method.

(** [readFile(path)] *)
Definition readFile (dir : directory) (path : string) : option string :=
  dir !! path.

(** [writeFile(path, content)]: write to [.tmp], remove the target, rename. *)
Definition writeFile (dir : directory) (path content : string) : directory :=
  let tmpPath := path +:+ ".tmp" in
  let written := <[tmpPath := content]> dir in
  let removed := delete path written in
  <[path := content]> (delete tmpPath removed).

(** The loop [for id = 1, 10000] of [findFilesByPrefix], from [id] on, with
    [remaining] ids still to probe. *)
Fixpoint probe (dir : directory) (prefix : string)
    (remaining id misses : nat) : list string :=
  match remaining with
  | O => []
  | S remaining' =>
      let fname := prefix +:+ pretty id +:+ ".json" in
      match dir !! fname with
      | Some _ => fname :: probe dir prefix remaining' (S id) 0
      | None =>
          let misses := misses + 1 in
          if Nat.ltb 100 misses then []
          else probe dir prefix remaining' (S id) misses
      end
  end.

(** The last id of the loop [for id = 1, 10000]. *)
Definition LAST_ID : nat := 10000.

(** [findFilesByPrefix(dir, prefix)] *)
Definition findFilesByPrefix (dir : directory) (prefix : string) : list string :=
  probe dir prefix LAST_ID 1 0.

(** [processRequest(requestStr, moho)]: the response string, or the error
    that escapes to the [pcall] in [server.poll]. *)
Definition processRequest (st : state) (requestStr : string) (moho : World)
  : res string * World :=
  match protocol.parseRequest requestStr with
  | inr parseErr =>
      (protocol.createError VNil protocol.PARSE_ERROR (VStr parseErr) VNil, moho)
  | inl request =>
      let params := lua_or (field request "params") (VTable [] []) in
      let id := field request "id" in
      match field request "method" with
      | VStr method =>
          if negb (validator.isAllowed method) then
            (protocol.createError id protocol.METHOD_NOT_FOUND
               (VStr ("Method not found: " +:+ method)) VNil, moho)
          else
            match validator.validateParams method params with
            | validator.Invalid validErr =>
                (protocol.createError id protocol.INVALID_PARAMS
                   (VStr validErr) VNil, moho)
            | validator.Valid =>
                match getHandler st method with
                | None =>
                    (protocol.createError id protocol.METHOD_NOT_FOUND
                       (VStr ("No handler registered for: " +:+ method)) VNil,
                     moho)
                | Some handler =>
                    let '(outcome, moho') := handler moho params in
                    match outcome with
                    | Threw err =>
                        (protocol.createError id protocol.INTERNAL_ERROR
                           (VStr ("Handler error: " +:+ err)) VNil, moho')
                    | Returned result handlerErr =>
                        if is_nil result && truthy handlerErr then
                          (protocol.createError id protocol.INTERNAL_ERROR
                             handlerErr VNil, moho')
                        else (protocol.createResponse id result, moho')
                    end
                end
            end
      | other =>
          (protocol.createError id protocol.METHOD_NOT_FOUND
             (VStr ("Method not found: " +:+ tostring other)) VNil, moho)
      end
  end.

(** [fname:match("^req_(.+)%.json$")]: what stands between the prefix and
    the extension, when there is something. *)
Definition match_request_id (fname : string) : option string :=
  rest ← json.literal "req_" fname;
  let n := String.length rest in
  if Nat.ltb 5 n && String.eqb (String.substring (n - 5) 5 rest) ".json"
  then Some (String.substring 0 (n - 5) rest)
  else None.

(** The body of the loop of [server.poll] for a request file that could be
    read. *)
Definition serve (st : state) (fname content : string)
    (moho : World) (dir : directory) : res (World * directory) :=
  let '(procResult, moho') := processRequest st content moho in
  response ← match procResult with
             | Ok response => Ok response
             | Raise crash =>
                 protocol.createError VNil protocol.INTERNAL_ERROR
                   (VStr ("Server crash: " +:+ crash)) VNil
             end;
  let dir :=
    match match_request_id fname with
    | Some reqId => writeFile dir ("resp_" +:+ reqId +:+ ".json") response
    | None => dir
    end in
  Ok (moho', delete fname dir).

(** The loop [for _, fname in ipairs(reqFiles)] of [server.poll]. *)
Fixpoint poll_loop (st : state) (reqFiles : list string) (processed : nat)
    (moho : World) (dir : directory) : res (World * directory) :=
  match reqFiles with
  | [] => Ok (moho, dir)
  | fname :: rest =>
      if Nat.leb 2 processed then Ok (moho, dir)
      else
        match readFile dir fname with
        | Some content =>
            '(moho', dir') ← serve st fname content moho dir;
            poll_loop st rest (processed + 1) moho' dir'
        | None => poll_loop st rest processed moho dir
        end
  end.

(** [server.poll(moho)] *)
Definition poll (st : state) (moho : World) (dir : directory)
  : res (World * directory) :=
  if negb (isRunning st) then Ok (moho, dir)
  else poll_loop st (findFilesByPrefix dir "req_") 0 moho dir.

(** [os.remove] on every name of a list, as the loops
    [for _, fname in ipairs(...)] of [server.start] and [server.stop] do. *)
Definition remove_all (dir : directory) (fnames : list string) : directory :=
  fold_left (fun d fname => delete fname d) fnames dir.

(** The table [server.start] writes to [status.json]; [startedAt] is the
    text [os.date] returns. *)
Definition status_table (startedAt : string) : value :=
  record [("running", VBool true);
          ("pid", VStr "moho");
          ("version", VStr "0.1.0");
          ("startedAt", VStr startedAt)].

(** What can go wrong in [writeFile]: [io.open] refuses the temporary
    file, or [os.rename] fails; each with the message of the C library. *)
Inductive write_failure :=
| OpenFails (err : string)
| RenameFails (err : string).

(** [writeFile(path, content)] where its result is looked at: the
    directory it leaves, and the message that comes with [false].
    [ipcDir] is the path of the directory, which a message names. *)
Definition writeFile_checked (failure : option write_failure)
    (ipcDir : string) (dir : directory) (path content : string)
  : directory * option string :=
  let tmpPath := path +:+ ".tmp" in
  match failure with
  | None => (writeFile dir path content, None)
  | Some (OpenFails err) =>
      (dir, Some ("Failed to open " +:+ ipcDir +:+ tmpPath +:+ ": " +:+ err))
  | Some (RenameFails err) =>
      (delete path (<[tmpPath := content]> dir),
       Some ("Failed to rename: " +:+ err))
  end.

(** [server.start()]: what it returns ([None] is [true], [Some message] is
    [false] and the message), and the state and the directory it leaves.
    [ipcDir] is what [getIpcDir()] returns, [startedAt] the text of
    [os.date], and [testWrite] what happens to the write of the test
    file. *)
Definition start (ipcDir startedAt : string)
    (testWrite : option write_failure) (st : state) (dir : directory)
  : res (option string * state * directory) :=
  if isRunning st then Ok (None, st, dir)
  else
    let testPath := ".mcp_test" in
    let '(dir, err) := writeFile_checked testWrite ipcDir dir testPath "ok" in
    match err with
    | Some err =>
        Ok (Some ("Cannot write to IPC directory " +:+ ipcDir +:+ ": " +:+ err),
            st, dir)
    | None =>
        let dir := delete testPath dir in
        let dir := remove_all dir (findFilesByPrefix dir "req_") in
        let dir := remove_all dir (findFilesByPrefix dir "resp_") in
        status ← json.encode (status_table startedAt);
        let dir := writeFile dir "status.json" status in
        Ok (None, {| isRunning := true; handlers := handlers st |}, dir)
    end.

(** [server.stop()] *)
Definition stop (st : state) (dir : directory) : state * directory :=
  if negb (isRunning st) then (st, dir)
  else
    let dir := delete "status.json" dir in
    let dir := remove_all dir (findFilesByPrefix dir "req_") in
    let dir := remove_all dir (findFilesByPrefix dir "resp_") in
    ({| isRunning := false; handlers := handlers st |}, dir).

End server.
End server.


(** ** MohoMCP_Server.lua: loading the modules, and the menu command *)

Module MohoMCP_Server.
Section script.
Context {World : Type} `{CRuntime}.

(** The tool modules [loadModules] requires, each with the methods it
    registers a handler for. *)
Definition toolModules : list (string * list string) :=
  [ ("moho_mcp.tools.document",
      ["document.getInfo"; "document.getLayers"; "document.setFrame";
       "document.screenshot"]);
    ("moho_mcp.tools.layer",
      ["layer.getProperties"; "layer.getChildren"; "layer.getBones";
       "layer.setTransform"; "layer.setVisibility"; "layer.setOpacity";
       "layer.setName"; "layer.selectLayer"]);
    ("moho_mcp.tools.bone",
      ["bone.getProperties"; "bone.setTransform"; "bone.selectBone"]);
    ("moho_mcp.tools.animation",
      ["animation.getKeyframes"; "animation.getFrameState";
       "animation.setKeyframe"; "animation.deleteKeyframe";
       "animation.setInterpolation"]);
    ("moho_mcp.tools.mesh", ["mesh.getPoints"; "mesh.getShapes"]);
    ("moho_mcp.tools.batch", ["batch.execute"]) ].

(** [method:match("%.(.+)$")]: what follows the first dot, when something
    does. *)
Fixpoint after_dot (method : string) : option string :=
  match method with
  | EmptyString => None
  | String c rest =>
      if json.is_char c 46
      then (if json.is_empty rest then None else Some rest)
      else after_dot rest
  end.

(** The body of the loop over the methods of a tool module: the handler
    is registered when the module has a function of the name behind the
    dot. *)
Definition register (toolMod : gmap string (handler World))
    (registry : gmap string (handler World)) (method : string)
  : gmap string (handler World) :=
  match after_dot method with
  | Some funcName =>
      match toolMod !! funcName with
      | Some h => <[method := h]> registry
      | None => registry
      end
  | None => registry
  end.

(** The loop over the tool modules of [loadModules]; [modules name] is
    what [pcall(require, name)] returns, [None] when it fails. *)
Definition loadModules
    (modules : string -> option (gmap string (handler World)))
  : gmap string (handler World) :=
  fold_left
    (fun registry toolDef =>
       match modules (fst toolDef) with
       | Some toolMod => fold_left (register toolMod) (snd toolDef) registry
       | None => registry
       end)
    toolModules ∅.

(** The script object [MohoMCP_Server], which outlives a reload of the
    script: whether the modules are loaded, whether the polling hooks poll,
    whether the hooks are installed, and the server module ([nil] until
    the modules are loaded). *)
Record script := {
  isLoaded : bool;
  pollActive : bool;
  hooksInstalled : bool;
  server : option (server.state (World := World));
}.

(** What the menu command finds around it: whether the four core modules
    ([json], [protocol], [validator], [server]) load, what
    [pcall(require, name)] returns for a tool module, the path
    [getIpcDir()] returns, the text of [os.date], and what happens to the
    write of the test file of [server.start]. *)
Record environment := {
  coreLoads : bool;
  toolModule : string -> option (gmap string (handler World));
  ipcDir : string;
  startedAt : string;
  testWrite : option server.write_failure;
}.

(** [loadModules(baseDir)] as a whole: what it returns, and the script
    object afterwards.  The server module is new when it is loaded: it is
    not running and its registry is what the loop over the tool modules
    registers. *)
Definition load (env : environment) (sc : script) : bool * script :=
  if isLoaded sc then (true, sc)
  else if negb (coreLoads env) then (false, sc)
  else
    (true,
     {| isLoaded := true;
        pollActive := pollActive sc;
        hooksInstalled := hooksInstalled sc;
        server := Some {| server.isRunning := false;
                          server.handlers := loadModules (toolModule env) |} |}).

(** The alert [LM.GUI.Alert] shows at the end of the menu command. *)
Inductive alert :=
| LoadFailed
| Stopped
| Started (ipcDir : string)
| StartFailed (err : string).

(** [MohoMCP_Server:Run(moho)]: the modules are loaded on the first run;
    a running server is stopped; a stopped one is started and, when the
    start succeeds, polled once. *)
Definition Run (env : environment) (sc : script) (moho : World)
    (dir : directory) : res (alert * script * World * directory) :=
  let '(loaded, sc) := load env sc in
  if negb loaded then Ok (LoadFailed, sc, moho, dir)
  else
    match server sc with
    | None => Raise "attempt to index a nil value (local 'srv')"
    | Some srv =>
        if server.isRunning srv then
          let '(srv', dir') := server.stop srv dir in
          Ok (Stopped,
              {| isLoaded := isLoaded sc; pollActive := false;
                 hooksInstalled := hooksInstalled sc; server := Some srv' |},
              moho, dir')
        else
          '(err, srv', dir') ←
            server.start (ipcDir env) (startedAt env) (testWrite env) srv dir;
          match err with
          | None =>
              '(moho', dir'') ← server.poll srv' moho dir';
              Ok (Started (ipcDir env),
                  {| isLoaded := isLoaded sc; pollActive := true;
                     hooksInstalled := true; server := Some srv' |},
                  moho', dir'')
          | Some err =>
              Ok (StartFailed err,
                  {| isLoaded := isLoaded sc; pollActive := pollActive sc;
                     hooksInstalled := hooksInstalled sc;
                     server := Some srv' |},
                  moho, dir')
          end
    end.

(** [MohoMCP_Server:IsEnabled(moho)], which MOHO calls to update the menu:
    a poll under [pcall] while polling is on. *)
Definition IsEnabled (sc : script) (moho : World) (dir : directory)
  : World * directory :=
  match server sc with
  | Some srv =>
      if pollActive sc then
        match server.poll srv moho dir with
        | Ok (moho', dir') => (moho', dir')
        | Raise _ => (moho, dir)
        end
      else (moho, dir)
  | None => (moho, dir)
  end.

End script.
End MohoMCP_Server.

(** ** The bridge: protocol.ts and moho-client.ts *)

Module bridge.

(** What [JSON.parse] returns. *)
Inductive jsval :=
| JNull
| JBool (b : bool)
| JNumber (n : number)
| JString (s : string)
| JArray (items : list jsval)
| JObject (props : list (string * jsval)).

(** [obj.key]; [None] is [undefined].  An array has no property of the
    names the bridge reads ([jsonrpc], [error], [result]). *)
Definition prop (v : jsval) (key : string) : option jsval :=
  match v with
  | JObject props =>
      snd <$> List.find (fun kv => String.eqb (fst kv) key) props
  | _ => None
  end.

(** A value in a condition. *)
Definition truthy (v : option jsval) : bool :=
  match v with
  | None | Some JNull | Some (JBool false) | Some (JString "")
  | Some (JNumber (NInt 0)) | Some (JNumber NNaN) => false
  | Some _ => true
  end.

(** The built-ins of the JavaScript runtime that the bridge calls on JSON
    text; they are not code of this repository.  A text of the model is
    the bytes of a file, which the bridge reads and writes as UTF-8.
    [JSON_parse] is [None] when [JSON.parse] throws; [String_slice] is
    [s.slice(start, end)], which counts UTF-16 code units. *)
Class JsRuntime := {
  JSON_parse : string -> option jsval;
  JSON_stringify : jsval -> string;
  String_slice : string -> nat -> nat -> string;
}.

(** The white space [String.prototype.trim] strips, the code points
    WhiteSpace and LineTerminator of ECMAScript, each as the bytes of its
    UTF-8 encoding: tab, line feed, vertical tab, form feed, carriage
    return, space, U+00A0, U+1680, U+2000 to U+200A, U+2028, U+2029,
    U+202F, U+205F, U+3000 and U+FEFF. *)
Definition code_point (bytes : list nat) : string :=
  string_of_list_ascii (map ascii_of_nat bytes).

Definition white_space : list string :=
  map code_point
    [ [9]; [10]; [11]; [12]; [13]; [32];
      [194; 160];
      [225; 154; 128];
      [226; 128; 128]; [226; 128; 129]; [226; 128; 130]; [226; 128; 131];
      [226; 128; 132]; [226; 128; 133]; [226; 128; 134]; [226; 128; 135];
      [226; 128; 136]; [226; 128; 137]; [226; 128; 138];
      [226; 128; 168]; [226; 128; 169];
      [226; 128; 175];
      [226; 129; 159];
      [227; 128; 128];
      [239; 187; 191] ].

(** A text that is one white space code point. *)
Definition is_white (s : string) : bool :=
  existsb (String.eqb s) white_space.

(** The text after a leading white space code point. *)
Fixpoint after_white (ws : list string) (s : string) : option string :=
  match ws with
  | [] => None
  | w :: rest =>
      match json.literal w s with
      | Some after => Some after
      | None => after_white rest s
      end
  end.

Fixpoint trim_start_loop (fuel : nat) (s : string) : string :=
  match fuel with
  | O => s
  | S fuel' =>
      match after_white white_space s with
      | Some after => trim_start_loop fuel' after
      | None => s
      end
  end.

Definition trim_start (s : string) : string :=
  trim_start_loop (String.length s) s.

(** What is kept of a text once the white space at its end is gone: what
    is kept of the text behind the first byte, with that byte in front,
    unless this is one white space code point. *)
Fixpoint trim_end (s : string) : string :=
  match s with
  | String c rest =>
      let kept := String c (trim_end rest) in
      if is_white kept then EmptyString else kept
  | EmptyString => s
  end.

(** [s.trim()] *)
Definition trim (s : string) : string := trim_end (trim_start s).

(** The errors [parseResponse] throws. *)
Inductive protocol_error :=
| EmptyResponse
| InvalidJson (text : string)
| NotAnObject
| UnexpectedVersion (found : option jsval).

(** [parseResponse(data)] *)
Definition parseResponse `{JsRuntime} (data : string) : jsval + protocol_error :=
  let trimmed := trim data in
  if Nat.eqb (String.length trimmed) 0 then inr EmptyResponse
  else
    match JSON_parse trimmed with
    | None => inr (InvalidJson (String_slice trimmed 0 200))
    | Some parsed =>
        match parsed with
        | JObject _ | JArray _ =>
            match prop parsed "jsonrpc" with
            | Some (JString version) =>
                if String.eqb version "2.0" then inl parsed
                else inr (UnexpectedVersion (Some (JString version)))
            | found => inr (UnexpectedVersion found)
            end
        | _ => inr NotAnObject
        end
    end.

(** [config.moho], without the directory. *)
Record config := {
  pollInterval : Z;
  requestTimeout : Z;
}.

Definition default_config : config :=
  {| pollInterval := 100; requestTimeout := 10000 |}.

Record client := {
  nextId : nat;
  connected : bool;
}.

(** The errors [connect] throws: no status file ([ENOENT]), a status file
    that [JSON.parse] refuses or that holds [null], and a status whose
    [running] is not truthy. *)
Inductive connect_error :=
| NoStatusFile
| StatusUnreadable
| StatusNotRunning.

(** [client.connect()]: the client afterwards, or the error thrown. *)
Definition connect `{JsRuntime} (cl : client) (dir : directory)
  : client + connect_error :=
  if connected cl then inl cl
  else
    match dir !! "status.json" with
    | None => inr NoStatusFile
    | Some content =>
        match JSON_parse content with
        | None | Some JNull => inr StatusUnreadable
        | Some status =>
            if negb (truthy (prop status "running")) then inr StatusNotRunning
            else inl {| nextId := nextId cl; connected := true |}
        end
    end.

(** [client.disconnect()] *)
Definition disconnect (cl : client) : client :=
  {| nextId := nextId cl; connected := false |}.

(** [client.isConnected()] *)
Definition isConnected (cl : client) : bool := connected cl.

(** How a call of [sendRequest] ends. *)
Inductive outcome :=
| Resolved (result : option jsval)
| NotConnected
| Protocol (e : protocol_error)
| MohoError (error : jsval)
| TimedOut (method : string) (id : nat) (timeout : Z).

Definition request_name (id : nat) : string := "req_" +:+ pretty id +:+ ".json".
Definition response_name (id : nat) : string := "resp_" +:+ pretty id +:+ ".json".

(** The request that [sendRequest] builds. *)
Definition request_object (id : nat) (method : string) (params : jsval) : jsval :=
  JObject [("jsonrpc", JString "2.0");
           ("id", JNumber (NInt (Z.of_nat id)));
           ("method", JString method);
           ("params", params)].

(** The request file is written atomically: write to [.tmp], then rename. *)
Definition writeRequest (dir : directory) (reqPath text : string) : directory :=
  let tmpPath := reqPath +:+ ".tmp" in
  let dir := <[tmpPath := text]> dir in
  <[reqPath := text]> (delete tmpPath dir).

(** The directory as the look [k] turns after turn [n] finds it. *)
Fixpoint seen_from (peer : nat -> directory -> directory) (n k : nat)
    (dir : directory) : directory :=
  match k with
  | O => peer n dir
  | S k' => peer (n + k) (seen_from peer n k' dir)
  end.

Section sendRequest.
Context `{JsRuntime}.

(** The world around a call: [clock n] is what the [n]-th call of
    [Date.now()] returns, and [peer n] is what the other users of the
    directory do to it before the [n]-th look for the response. *)
Variable clock : nat -> Z.
Variable peer : nat -> directory -> directory.

(** The loop [while (true)] of [sendRequest], at its [n]-th turn.  [None]
    is a loop that is still turning when the fuel is spent. *)
Fixpoint await (fuel n : nat) (method : string) (id : nat)
    (startTime timeout : Z) (dir : directory) : option (outcome * directory) :=
  match fuel with
  | O => None
  | S fuel' =>
      let dir := peer n dir in
      match dir !! response_name id with
      | Some content =>
          let dir := delete (response_name id) dir in
          match parseResponse content with
          | inr e => Some (Protocol e, dir)
          | inl response =>
              match prop response "error" with
              | Some error =>
                  if truthy (Some error) then Some (MohoError error, dir)
                  else Some (Resolved (prop response "result"), dir)
              | None => Some (Resolved (prop response "result"), dir)
              end
          end
      | None =>
          if (clock (S n) - startTime >? timeout)%Z then
            Some (TimedOut method id timeout, delete (request_name id) dir)
          else await fuel' (S n) method id startTime timeout dir
      end
  end.

(** [client.sendRequest(method, params, options)] *)
Definition sendRequest (fuel : nat) (cfg : config) (cl : client)
    (method : string) (params : jsval) (timeoutOption : option Z)
    (dir : directory) : option (outcome * client * directory) :=
  if negb (connected cl) then Some (NotConnected, cl, dir)
  else
    let id := nextId cl in
    let cl := {| nextId := S id; connected := connected cl |} in
    let timeout := default (requestTimeout cfg) timeoutOption in
    let request := request_object id method params in
    let dir := writeRequest dir (request_name id) (JSON_stringify request) in
    let startTime := clock 0 in
    '(result, dir) ← await fuel 0 method id startTime timeout dir;
    Some (result, cl, dir).

End sendRequest.

End bridge.
(** ** Vocabulary of the properties *)

(** The last character of a text. *)
Fixpoint last_char (s : string) : option ascii :=
  match s with
  | EmptyString => None
  | String c EmptyString => Some c
  | String _ rest => last_char rest
  end.

(** An operation of a batch that is turned down before a handler is called:
    bad structure, a denylisted method, a method that is not on the
    allow-list, invalid parameters, or no registered handler. *)
Definition rejected_before_dispatch {World : Type}
    (handlers : gmap string (handler World)) (op : value) : Prop :=
  type op <> "table"
  \/ type (field op "method") <> "string"
  \/ exists method, field op "method" = VStr method
       /\ (batch.disallowedInBatch method = true
           \/ validator.isAllowed method = false
           \/ (exists validErr,
                 validator.validateParams method
                   (lua_or (field op "params") (VTable [] []))
                 = validator.Invalid validErr)
           \/ handlers !! method = None).

(** The two ways a turn of the loop ends for an operation that is not
    skipped. *)
Inductive turn {World : Type} (stopOnError : bool) (i : nat)
    (st st' : batch.loop_state (World := World)) : Prop :=
| turn_ok (result : value) :
    batch.results st' = batch.results st ++ [batch.success_entry i result] ->
    batch.succeeded st' = batch.succeeded st + 1 ->
    batch.failed st' = batch.failed st ->
    batch.executed st' = batch.executed st + 1 ->
    batch.stoppedEarly st' = false ->
    turn stopOnError i st st'
| turn_failed (code : Z) (message : value) :
    batch.results st' = batch.results st ++ [batch.error_entry i code message] ->
    (code = -32600 \/ code = -32601 \/ code = -32602 \/ code = -32603)%Z ->
    batch.succeeded st' = batch.succeeded st ->
    batch.failed st' = batch.failed st + 1 ->
    batch.executed st' = batch.executed st + 1 ->
    batch.stoppedEarly st' = stopOnError ->
    turn stopOnError i st st'.



(** The response [server.poll] writes for a request: the one
    [processRequest] returns, or the crash response. *)
Definition written_response {World : Type} `{CRuntime}
    (st : server.state (World := World)) (content : string)
    (moho : World) (response : string) : Prop :=
  match fst (server.processRequest st content moho) with
  | Ok r => response = r
  | Raise crash =>
      protocol.createError VNil protocol.INTERNAL_ERROR
        (VStr ("Server crash: " +:+ crash)) VNil = Ok response
  end.

(** A server whose registry holds [batch.execute] under its name, as
    [loadModules] leaves it when the batch module loads: the handler looks
    the operations up in the registry of the server, through
    [server.getHandler]. *)
Definition batch_registered {World : Type}
    (st : server.state (World := World)) : Prop :=
  exists h,
    server.getHandler st "batch.execute" = Some h
    /\ forall moho params,
         h moho params = batch.execute (server.handlers st) moho params.

(** An entry of a batch result that records a failure: [success] is false,
    there is no [result], and [error] holds the code and the message. *)
Definition failed_with (e : value) (code : Z) (message : value) : Prop :=
  field e "success" = VBool false
  /\ field e "result" = VNil
  /\ field (field e "error") "code" = VInt code
  /\ field (field e "error") "message" = message.




(** A decoded value that is a JSON object with at least one member. *)
Definition is_object (v : value) : bool :=
  match v with
  | VTable _ (_ :: _) => true
  | _ => false
  end.

(** A parsed value that is a JSON object. *)
Definition is_js_object (v : bridge.jsval) : bool :=
  match v with
  | bridge.JObject _ => true
  | _ => false
  end.

(** [k] ticks of the server while a client waits; the document is [moho]
    at each of them. *)
Fixpoint server_ticks {World : Type} `{CRuntime}
    (st : server.state (World := World)) (moho : World) (k : nat)
    (dir : directory) : directory :=
  match k with
  | O => dir
  | S k' =>
      match server.poll st moho dir with
      | Ok (_, dir') => server_ticks st moho k' dir'
      | Raise _ => server_ticks st moho k' dir
      end
  end.

(** ** A runtime and a directory to evaluate the model on *)

(** The conversions of this runtime are exact on the texts and values the
    examples use (integers below 2^53). *)
Definition example_runtime : CRuntime :=
  {| strtod := fun text => NFloat text;
     format_g17 := fun z => pretty z;
     where_json := fun line => "json.lua:" +:+ pretty line +:+ ": " |}.

(** A JavaScript runtime for the examples, built from the Lua codec. *)
Fixpoint to_js (v : value) : bridge.jsval :=
  match v with
  | VNil | VNull | VFunction => bridge.JNull
  | VBool b => bridge.JBool b
  | VNum n => bridge.JNumber n
  | VStr s => bridge.JString s
  | VTable arr [] => bridge.JArray (map to_js arr)
  | VTable _ fields =>
      bridge.JObject
        ((fix each (fs : list (string * value)) :=
            match fs with
            | [] => []
            | (k, v) :: rest => (k, to_js v) :: each rest
            end) fields)
  end.

Fixpoint of_js (v : bridge.jsval) : value :=
  match v with
  | bridge.JNull => VNull
  | bridge.JBool b => VBool b
  | bridge.JNumber n => VNum n
  | bridge.JString s => VStr s
  | bridge.JArray items => VTable (map of_js items) []
  | bridge.JObject props =>
      VTable []
        ((fix each (ps : list (string * bridge.jsval)) :=
            match ps with
            | [] => []
            | (k, v) :: rest => (k, of_js v) :: each rest
            end) props)
  end.

Definition example_js : bridge.JsRuntime :=
  {| bridge.JSON_parse := fun text =>
       match @json.decode example_runtime text with
       | Ok v => Some (to_js v)
       | Raise _ => None
       end;
     bridge.JSON_stringify := fun v =>
       match @json.encode example_runtime (of_js v) with
       | Ok text => text
       | Raise _ => "null"
       end;
     bridge.String_slice := fun s first last =>
       String.substring first (last - first) s |}.

(** JSON text, written with an apostrophe where JSON has a double quote. *)
Fixpoint jtext (s : string) : string :=
  match s with
  | String c rest =>
      String (if json.is_char c 39 then json.dquote else c) (jtext rest)
  | EmptyString => EmptyString
  end.

(** The document of the examples is the log of the handler calls made on
    it, the last call first. *)
Definition logging (tag : string) (result : value)
  : handler (list string) :=
  fun moho _ => (Returned result VNil, tag :: moho).

Definition raising (tag err : string) : handler (list string) :=
  fun moho _ => (Threw err, tag :: moho).


Definition example_tools : gmap string (handler (list string)) :=
  {[ "document.getInfo" := logging "getInfo" (VStr "info");
     "document.getLayers" := raising "getLayers" "boom";
     "layer.getBones" := logging "getBones" (VTable [] []) ]}.

(** The registry of the examples: the tools, and [batch.execute]. *)
Definition example_server : server.state (World := list string) :=
  {| server.isRunning := true;
     server.handlers :=
       <["batch.execute" := batch.execute example_tools]> example_tools |}.



Definition op (method : string) : value := record [("method", VStr method)].

(** The batch of the specification: [A] succeeds, [B] fails, [C] follows. *)
Definition example_ops : list value :=
  [op "document.getInfo"; op "document.getLayers"; op "document.getInfo"].

Definition example_batch (stopOnError : bool) : value :=
  record [("operations", VTable example_ops []);
          ("stopOnError", VBool stopOnError)].

Definition example_long_batch : value :=
  record [("operations", VTable (repeat (op "document.getInfo") 51) [])].

(** Request texts. *)
Definition getInfo_request : string :=
  jtext "{'jsonrpc':'2.0','id':1,'method':'document.getInfo'}".

Definition getLayers_request (id : string) : string :=
  jtext ("{'jsonrpc':'2.0','id':" +:+ id +:+ ",'method':'document.getLayers'}").


(** A request that carries a batch of 51 operations. *)
Fixpoint repeat_text (n : nat) (item sep : string) : string :=
  match n with
  | O => ""
  | S O => item
  | S n' => item +:+ sep +:+ repeat_text n' item sep
  end.

Definition long_batch_request : string :=
  jtext ("{'jsonrpc':'2.0','id':8,'method':'batch.execute','params':"
         +:+ "{'operations':["
         +:+ repeat_text 51 "{'method':'document.getInfo'}" ","
         +:+ "]}}").




(** A clock that reads a second more at every look, and a directory that
    nobody else touches. *)
Definition example_clock (n : nat) : Z := (1000 * Z.of_nat n)%Z.
Definition nobody (n : nat) (dir : directory) : directory := dir.

Definition example_client : bridge.client :=
  {| bridge.nextId := 150; bridge.connected := true |}.

(** ** Vocabulary of the further properties *)

(** A text that cannot go on a number that ends where it starts: it is
    empty, or its first character is none of the characters the number
    pattern of [decode_number] can read after the digits. *)
Definition ends_number (rest : string) : bool :=
  match rest with
  | EmptyString => true
  | String c _ =>
      negb (json.is_digit c || json.is_char c 46
            || json.is_char c 101 || json.is_char c 69
            || json.is_char c 43 || json.is_char c 45)
  end.

(** Keys that are pairwise different. *)
Fixpoint distinct_keys {A} (fs : list (string * A)) : bool :=
  match fs with
  | [] => true
  | (k, _) :: rest =>
      negb (existsb (fun kv => String.eqb k (fst kv)) rest)
      && distinct_keys rest
  end.

(** The values of the model that are values of Lua: an integer has 64
    bits, and a table holds no nil (assigning nil removes a key, and a
    sequence ends before a nil) and holds each key once. *)
Fixpoint proper (v : value) : bool :=
  match v with
  | VNum (NInt z) =>
      ((-9223372036854775808 <=? z) && (z <=? 9223372036854775807))%Z
  | VTable arr fields =>
      forallb (fun x => negb (is_nil x) && proper x) arr
      && distinct_keys fields
      && (fix all (fs : list (string * value)) : bool :=
            match fs with
            | [] => true
            | (_, x) :: rest => negb (is_nil x) && proper x && all rest
            end) fields
  | _ => true
  end.

(** The values whose JSON text does not depend on the C library: nil,
    [json.null], booleans, strings, integral numbers below 2^53 in absolute
    value, and tables of such values (a table names each of its keys
    once). *)
Fixpoint plain (v : value) : bool :=
  match v with
  | VNil | VNull | VBool _ | VStr _ => true
  | VNum (NInt z) => (Z.abs z <? json.two_53)%Z
  | VNum _ => false
  | VFunction => false
  | VTable arr [] => forallb plain arr
  | VTable _ fields =>
      distinct_keys fields
      && (fix all (fs : list (string * value)) : bool :=
            match fs with
            | [] => true
            | (_, v) :: rest => plain v && all rest
            end) fields
  end.

(** A value as it comes back from its JSON text: nil is written as [null]
    and read as [json.null], an object is written with its keys in sorted
    order, and a table with string keys is written without its sequence
    part. *)
Fixpoint normal (v : value) : value :=
  match v with
  | VNil => VNull
  | VTable arr [] => VTable (map normal arr) []
  | VTable _ fields =>
      VTable []
        (json.sort_by_key
           ((fix each (fs : list (string * value)) : list (string * value) :=
               match fs with
               | [] => []
               | (k, v) :: rest => (k, normal v) :: each rest
               end) fields))
  | other => other
  end.

(** A text that starts where [skip_ws] stops, with a character that closes
    neither an array nor an object. *)
Definition starts_value (text : string) : Prop :=
  exists c tail, text = String c tail
                 /\ json.is_ws c = false
                 /\ json.is_char c 93 = false
                 /\ json.is_char c 125 = false.

(** A text that [decode_value] reads as the value [v], whatever follows it
    that cannot go on a number, once the fuel allows the nesting of [v]. *)
Definition reads_back `{CRuntime} (text : string) (v : value) : Prop :=
  exists n0, forall n rest,
    n0 <= n -> ends_number rest = true ->
    json.decode_value n (text +:+ rest) = Some (v, rest).

(** The values [json.decode] builds: never nil and never a function, and a
    table is a sequence or a table of string keys, not both. *)
Fixpoint json_shaped (v : value) : bool :=
  match v with
  | VNil | VFunction => false
  | VNull | VBool _ | VNum _ | VStr _ => true
  | VTable arr fields =>
      match arr, fields with
      | _ :: _, _ :: _ => false
      | _, _ =>
          forallb json_shaped arr
          && (fix all (fs : list (string * value)) : bool :=
                match fs with
                | [] => true
                | (_, v) :: rest => json_shaped v && all rest
                end) fields
      end
  end.

(** The values the encoder finds nothing to refuse in: where it looks (the
    sequence part of a table without string keys, the string keys of any
    other table) there is no NaN, no infinity and no function. *)
Fixpoint encoder_accepts (v : value) : bool :=
  match v with
  | VNum (NInf _) | VNum NNaN | VFunction => false
  | VNil | VNull | VBool _ | VStr _ | VNum _ => true
  | VTable arr [] => forallb encoder_accepts arr
  | VTable _ fields =>
      (fix all (fs : list (string * value)) : bool :=
         match fs with
         | [] => true
         | (_, v) :: rest => encoder_accepts v && all rest
         end) fields
  end.

(** A text of JSON white space only: spaces, tabs, newlines and carriage
    returns. *)
Definition blank (s : string) : bool :=
  forallb json.is_ws (list_ascii_of_string s).


(** A text of white space only, as [String.prototype.trim] sees it: white
    space code points one after the other. *)
Definition white_text (s : string) : Prop :=
  exists ws, Forall (fun w => w ∈ bridge.white_space) ws
             /\ s = String.concat "" ws.
(** * Properties *)

(** ** Strings and tables *)

Lemma string_length_app (a b : string) :
  String.length (a +:+ b) = String.length a + String.length b.
Proof. induction a as [|c a IH]; simpl; [done|by rewrite IH]. Qed.

Lemma substring_whole (a : string) :
  String.substring 0 (String.length a) a = a.
Proof. induction a as [|c a IH]; simpl; [done|by rewrite IH]. Qed.

Lemma substring_app_l (a b : string) :
  String.substring 0 (String.length a) (a +:+ b) = a.
Proof.
  induction a as [|c a IH]; simpl; [by destruct b|by rewrite IH].
Qed.

Lemma substring_app_r (a b : string) :
  String.substring (String.length a) (String.length b) (a +:+ b) = b.
Proof. induction a as [|c a IH]; simpl; [apply substring_whole|done]. Qed.

Lemma literal_app (lit s : string) : json.literal lit (lit +:+ s) = Some s.
Proof.
  induction lit as [|c lit IH]; simpl; [by destruct s|].
  by rewrite Ascii.eqb_refl.
Qed.

(** On an integer below 2^53 in absolute value [math.abs] does not wrap. *)
Lemma math_abs_small (z : Z) :
  (Z.abs z < json.two_53)%Z -> (json.math_abs z <? json.two_53)%Z = true.
Proof.
  intros Hz. unfold json.math_abs, json.wrap64, json.two_53 in *.
  apply Z.ltb_lt. rewrite Z.mod_small by lia. lia.
Qed.

Lemma pretty_nat_nonempty (n : nat) : 0 < String.length (pretty n).
Proof.
  unfold pretty, pretty_nat, pretty, pretty_N.
  case_decide; [simpl; lia|].
  destruct (pretty_N_go (N.of_nat n) "") eqn:E; [|simpl; lia].
  exfalso. assert (0 < N.of_nat n)%N as Hpos by lia.
  rewrite pretty_N_go_step in E by done.
  assert (forall x s, String.length s <= String.length (pretty_N_go x s)) as Hle.
  { intros x. induction (N.lt_wf_0 x) as [x _ IH]. intros s.
    assert (x = 0 \/ 0 < x)%N as [->|?] by lia; [by rewrite pretty_N_go_0|].
    rewrite pretty_N_go_step by done.
    etrans; [|by eapply IH, N.div_lt]. simpl. lia. }
  specialize (Hle (N.of_nat n `div` 10)%N
                  (String (pretty_N_char (N.of_nat n `mod` 10)) "")).
  rewrite E in Hle. simpl in Hle. lia.
Qed.

Lemma assoc_remove_key_eq k fs : assoc k (remove_key k fs) = VNil.
Proof.
  induction fs as [|[k' v'] fs IH]; simpl; [done|].
  destruct (String.eqb k k') eqn:E; [done|]. simpl. by rewrite E.
Qed.

Lemma assoc_remove_key_ne k k' fs :
  k <> k' -> assoc k (remove_key k' fs) = assoc k fs.
Proof.
  intros Hne. induction fs as [|[k0 v0] fs IH]; simpl; [done|].
  destruct (String.eqb_spec k' k0) as [->|Hne'].
  - rewrite IH. by destruct (String.eqb_spec k k0).
  - simpl. by rewrite IH.
Qed.

Lemma assoc_set_key_eq k v fs : assoc k (set_key k v fs) = v.
Proof.
  induction fs as [|[k' v'] fs IH]; simpl.
  - destruct v; simpl; by rewrite ?String.eqb_refl.
  - destruct (String.eqb k k') eqn:E.
    + destruct v; simpl; rewrite ?String.eqb_refl; try done.
      apply assoc_remove_key_eq.
    + simpl. by rewrite E.
Qed.

Lemma assoc_set_key_ne k k' v fs :
  k <> k' -> assoc k (set_key k' v fs) = assoc k fs.
Proof.
  intros Hne. induction fs as [|[k0 v0] fs IH]; simpl.
  - destruct (is_nil v); simpl; [done|]. by destruct (String.eqb_spec k k').
  - destruct (String.eqb_spec k' k0) as [->|Hne'].
    + destruct (String.eqb_spec k k0) as [->|_]; [done|].
      destruct (is_nil v); simpl.
      * by apply assoc_remove_key_ne.
      * destruct (String.eqb_spec k k0); [done|by apply assoc_remove_key_ne].
    + simpl. by rewrite IH.
Qed.

Lemma string_app_assoc (a b c : string) : (a +:+ b) +:+ c = a +:+ (b +:+ c).
Proof.
  induction a as [|x a IH]; [done|].
  change (String x ((a +:+ b) +:+ c) = String x (a +:+ b +:+ c)).
  by f_equal.
Qed.

Lemma string_app_inj_r (a b c : string) : a +:+ c = b +:+ c -> a = b.
Proof.
  revert b. induction a as [|x a IH]; intros [|y b] Heq.
  - done.
  - apply (f_equal String.length) in Heq.
    rewrite !string_length_app in Heq. simpl in Heq. lia.
  - apply (f_equal String.length) in Heq.
    rewrite !string_length_app in Heq. simpl in Heq. lia.
  - change (String x (a +:+ c) = String y (b +:+ c)) in Heq.
    injection Heq as -> Heq. f_equal. by apply IH.
Qed.

Lemma last_char_app (a : string) (c : ascii) (b : string) :
  last_char (a +:+ String c b) = last_char (String c b).
Proof.
  induction a as [|x a IH]; [done|].
  change (String x a +:+ String c b) with (String x (a +:+ String c b)).
  cbn [last_char]. rewrite IH.
  by destruct a.
Qed.

(** ** File names *)

Section names.
Import bridge.

Lemma request_name_inj i j : request_name i = request_name j -> i = j.
Proof.
  unfold request_name. intros Heq. apply (inj (String.app "req_")) in Heq.
  apply string_app_inj_r in Heq. by apply (inj pretty) in Heq.
Qed.

Lemma response_name_inj i j : response_name i = response_name j -> i = j.
Proof.
  unfold response_name. intros Heq. apply (inj (String.app "resp_")) in Heq.
  apply string_app_inj_r in Heq. by apply (inj pretty) in Heq.
Qed.

Lemma request_not_response i j : request_name i <> response_name j.
Proof. unfold request_name, response_name. simpl. by intros [=]. Qed.

Lemma request_not_response_tmp i j : request_name i <> response_name j +:+ ".tmp".
Proof. unfold request_name, response_name. simpl. by intros [=]. Qed.

Lemma response_not_response_tmp i j : response_name i <> response_name j +:+ ".tmp".
Proof.
  unfold response_name. intros Heq. apply (f_equal last_char) in Heq.
  rewrite (string_app_assoc "resp_"), <- !string_app_assoc in Heq.
  by rewrite !last_char_app in Heq.
Qed.

Lemma request_not_request_tmp i j : request_name i <> request_name j +:+ ".tmp".
Proof.
  unfold request_name. intros Heq. apply (f_equal last_char) in Heq.
  rewrite (string_app_assoc "req_"), <- !string_app_assoc in Heq.
  by rewrite !last_char_app in Heq.
Qed.

Lemma response_not_request_tmp i j : response_name i <> request_name j +:+ ".tmp".
Proof. unfold request_name, response_name. simpl. by intros [=]. Qed.

Lemma match_request_id_name i :
  server.match_request_id (request_name i) = Some (pretty i).
Proof.
  unfold server.match_request_id, request_name.
  rewrite literal_app. simpl.
  rewrite string_length_app. simpl.
  pose proof (pretty_nat_nonempty i) as Hlen.
  replace (String.length (pretty i) + 5 - 5) with (String.length (pretty i))
    by lia.
  rewrite (substring_app_r (pretty i) ".json"), substring_app_l. simpl.
  destruct (Nat.ltb_spec 5 (String.length (pretty i) + 5)); [done|lia].
Qed.

End names.

(** ** The fuel of the decoder

    More fuel than [json.decode] gives never changes what the decoder
    returns: a [None] of [json.decode] is an error of the source, not a
    shortage of fuel. *)

Module json_facts.
Import json.

Lemma skip_ws_length s : String.length (skip_ws s) <= String.length s.
Proof.
  induction s as [|c s IH]; simpl; [done|].
  destruct (is_ws c); simpl; lia.
Qed.

Lemma hex4_length s n rest :
  hex4 s = Some (n, rest) -> String.length rest + 4 = String.length s.
Proof.
  unfold hex4. intros Hh.
  destruct s as [|a [|b [|c [|d s]]]]; try done.
  destruct (hex_value a), (hex_value b), (hex_value c), (hex_value d);
    simpl in Hh; try done.
  injection Hh as _ <-. simpl. lia.
Qed.

Lemma decode_unicode_escape_length s bytes rest :
  decode_unicode_escape s = Some (bytes, rest) ->
  String.length rest < String.length s.
Proof.
  unfold decode_unicode_escape. intros Hd.
  destruct (hex4 s) as [[codepoint rest1]|] eqn:H1; [|done].
  apply hex4_length in H1. simpl in Hd.
  destruct ((55296 <=? codepoint)%N && (codepoint <=? 56319)%N).
  - destruct rest1 as [|b [|u rest2]]; try done.
    destruct (is_char b 92 && is_char u 117); [|done].
    destruct (hex4 rest2) as [[low rest3]|] eqn:H2; [|done].
    apply hex4_length in H2. simpl in Hd.
    destruct ((low <? 56320)%N || (57343 <? low)%N); [done|].
    destruct (utf8 _); [|done]. simpl in Hd. injection Hd as _ <-.
    simpl in H1. lia.
  - destruct ((56320 <=? codepoint)%N && (codepoint <=? 57343)%N); [done|].
    destruct (utf8 codepoint); [|done]. simpl in Hd. injection Hd as _ <-.
    lia.
Qed.

Lemma string_body_length n : forall s acc text rest,
  string_body n s acc = Some (text, rest) ->
  String.length rest < String.length s.
Proof.
  induction n as [|n IH]; intros s acc text rest Hb; [done|].
  simpl in Hb. destruct s as [|c s]; [done|].
  destruct (is_char c 34); [injection Hb as _ <-; simpl; lia|].
  destruct (is_char c 92).
  - destruct s as [|esc s']; [done|].
    destruct (is_char esc 117).
    + destruct (decode_unicode_escape s') as [[decoded new_rest]|] eqn:Hu;
        [|done].
      apply decode_unicode_escape_length in Hu. simpl in Hb.
      apply IH in Hb. simpl. lia.
    + destruct (escape_char_decode esc); [|done].
      apply IH in Hb. simpl. lia.
  - destruct (Nat.ltb (code c) 32); [done|].
    apply IH in Hb. simpl. lia.
Qed.

Lemma string_body_stable n : forall m s acc,
  String.length s < n -> String.length s < m ->
  string_body n s acc = string_body m s acc.
Proof.
  induction n as [|n IH]; intros m s acc Hn Hm; [lia|].
  destruct m as [|m]; [lia|]. simpl.
  destruct s as [|c s]; [done|]. simpl in Hn, Hm.
  destruct (is_char c 34); [done|].
  destruct (is_char c 92).
  - destruct s as [|esc s']; [done|]. simpl in Hn, Hm.
    destruct (is_char esc 117).
    + destruct (decode_unicode_escape s') as [[decoded new_rest]|] eqn:Hu;
        [|done].
      apply decode_unicode_escape_length in Hu. simpl.
      apply IH; lia.
    + destruct (escape_char_decode esc); [|done]. apply IH; lia.
  - destruct (Nat.ltb (code c) 32); [done|]. apply IH; lia.
Qed.

Lemma decode_string_length s text rest :
  decode_string s = Some (text, rest) ->
  String.length rest < String.length s.
Proof.
  unfold decode_string. destruct s as [|c s]; [done|].
  destruct (is_char c 34); [|done]. intros Hb.
  apply string_body_length in Hb. simpl. lia.
Qed.

Lemma span_length p s taken rest :
  span p s = (taken, rest) ->
  String.length taken + String.length rest = String.length s.
Proof.
  revert taken rest. induction s as [|c s IH]; intros taken rest Hs; simpl in Hs.
  - by injection Hs as <- <-.
  - destruct (p c).
    + destruct (span p s) as [taken' rest'] eqn:Hs'.
      injection Hs as <- <-. specialize (IH _ _ eq_refl). simpl. lia.
    + by injection Hs as <- <-.
Qed.

Lemma optional_length p s taken rest :
  optional p s = (taken, rest) -> String.length rest <= String.length s.
Proof.
  unfold optional. destruct s as [|c s]; [by intros [= <- <-]|].
  destruct (p c); intros [= <- <-]; simpl; lia.
Qed.

Lemma decode_number_length `{CRuntime} s v rest :
  decode_number s = Some (v, rest) ->
  String.length rest < String.length s.
Proof.
  unfold decode_number. intros Hd.
  destruct (optional _ s) as [sign s1] eqn:H1.
  destruct (span is_digit s1) as [int s2] eqn:H2.
  destruct int as [|d int]; [done|]. cbn [is_empty] in Hd.
  destruct (optional _ s2) as [dot s3] eqn:H3.
  destruct (span is_digit s3) as [frac s4] eqn:H4.
  destruct (optional _ s4) as [e s5] eqn:H5.
  destruct (optional _ s5) as [esign s6] eqn:H6.
  destruct (span is_digit s6) as [exp s7] eqn:H7.
  apply optional_length in H1, H3, H5, H6.
  apply span_length in H2, H4, H7. simpl in H2.
  assert (rest = s7) as ->.
  { destruct (tonumber _ _ _ _ _ _ _); [|done]. simpl in Hd.
    repeat case_match; by simplify_eq. }
  lia.
Qed.

Lemma literal_length lit s rest :
  literal lit s = Some rest ->
  String.length rest + String.length lit = String.length s.
Proof.
  revert s. induction lit as [|a lit IH]; intros s Hl; simpl in Hl.
  - injection Hl as <-. simpl. lia.
  - destruct s as [|b s]; [done|]. destruct (Ascii.eqb a b); [|done].
    apply IH in Hl. simpl. lia.
Qed.


Section fuel.
Context `{CRuntime}.
#[local] Arguments literal : simpl never.
#[local] Arguments is_char : simpl never.
#[local] Arguments is_digit : simpl never.
#[local] Arguments decode_string : simpl never.
#[local] Arguments decode_number : simpl never.
#[local] Arguments skip_ws : simpl never.
#[local] Arguments set_key : simpl never.

Lemma skip_ws_cons_length s c rest :
  skip_ws s = String c rest -> String.length rest < String.length s.
Proof.
  intros Hs. pose proof (skip_ws_length s) as Hl. rewrite Hs in Hl.
  simpl in Hl. lia.
Qed.

Lemma decode_lengths n :
  (forall s v rest, decode_value n s = Some (v, rest) ->
                    String.length rest < String.length s)
  /\ (forall s arr v rest, array_loop n s arr = Some (v, rest) ->
                           String.length rest < String.length s)
  /\ (forall s obj v rest, object_loop n s obj = Some (v, rest) ->
                           String.length rest < String.length s).
Proof.
  induction n as [|n (IHv & IHa & IHo)]; [by repeat split|].
  split; [|split].
  - intros s v rest Hd. simpl in Hd.
    pose proof (skip_ws_length s) as Hlen.
    destruct (skip_ws s) as [|c here] eqn:Hs; [done|].
    simpl in Hlen.
    destruct (is_char c 34).
    { destruct (decode_string (String c here)) as [[str r]|] eqn:Hstr; [|done].
      apply decode_string_length in Hstr. simpl in Hd, Hstr.
      injection Hd as <- <-. lia. }
    destruct (is_char c 123).
    { pose proof (skip_ws_length here) as Hin.
      destruct (skip_ws here) as [|c' rest'] eqn:Hs'.
      - apply IHo in Hd. simpl in Hd. lia.
      - destruct (is_char c' 125).
        + injection Hd as <- <-. simpl in Hin. lia.
        + apply IHo in Hd. lia. }
    destruct (is_char c 91).
    { pose proof (skip_ws_length here) as Hin.
      destruct (skip_ws here) as [|c' rest'] eqn:Hs'.
      - apply IHa in Hd. simpl in Hd. lia.
      - destruct (is_char c' 93).
        + injection Hd as <- <-. simpl in Hin. lia.
        + apply IHa in Hd. lia. }
    destruct (is_char c 45 || is_digit c).
    { apply decode_number_length in Hd. simpl in Hd. lia. }
    destruct (is_char c 116).
    { destruct (literal "true" (String c here)) as [r|] eqn:Hl; [|done].
      apply literal_length in Hl. simpl in Hd, Hl. injection Hd as <- <-. lia. }
    destruct (is_char c 102).
    { destruct (literal "false" (String c here)) as [r|] eqn:Hl; [|done].
      apply literal_length in Hl. simpl in Hd, Hl. injection Hd as <- <-. lia. }
    destruct (is_char c 110); [|done].
    destruct (literal "null" (String c here)) as [r|] eqn:Hl; [|done].
    apply literal_length in Hl. simpl in Hd, Hl. injection Hd as <- <-. lia.
  - intros s arr v rest Hd. simpl in Hd.
    destruct (decode_value n s) as [[val s1]|] eqn:Hv; [|done].
    apply IHv in Hv. simpl in Hd.
    pose proof (skip_ws_length s1) as H1.
    destruct (skip_ws s1) as [|c r] eqn:Hs1; [done|]. simpl in H1.
    destruct (is_char c 93); [injection Hd as <- <-; lia|].
    destruct (is_char c 44); [|done].
    pose proof (skip_ws_length r) as H2.
    destruct (skip_ws r) as [|c' r'] eqn:Hs2.
    + apply IHa in Hd. simpl in Hd. lia.
    + destruct (is_char c' 93); [done|]. apply IHa in Hd. lia.
  - intros s obj v rest Hd. simpl in Hd.
    destruct (decode_string (skip_ws s)) as [[key s1]|] eqn:Hk; [|done].
    apply decode_string_length in Hk.
    pose proof (skip_ws_length s) as H0. simpl in Hd.
    pose proof (skip_ws_length s1) as H1.
    destruct (skip_ws s1) as [|colon s2] eqn:Hs1; [done|]. simpl in H1.
    destruct (is_char colon 58); [|done].
    destruct (decode_value n (skip_ws s2)) as [[val s3]|] eqn:Hv; [|done].
    apply IHv in Hv. pose proof (skip_ws_length s2) as H2. simpl in Hd.
    pose proof (skip_ws_length s3) as H3.
    destruct (skip_ws s3) as [|c r] eqn:Hs3; [done|]. simpl in H3.
    destruct (is_char c 125); [injection Hd as <- <-; lia|].
    destruct (is_char c 44); [|done].
    pose proof (skip_ws_length r) as H4.
    destruct (skip_ws r) as [|c' r'] eqn:Hs4.
    + apply IHo in Hd. simpl in Hd. lia.
    + destruct (is_char c' 125); [done|]. apply IHo in Hd. lia.
Qed.

Lemma decode_stable n :
  (forall s m, 2 * String.length s + 1 <= n -> n <= m ->
               decode_value m s = decode_value n s)
  /\ (forall s arr m, 2 * String.length s + 2 <= n -> n <= m ->
                      array_loop m s arr = array_loop n s arr)
  /\ (forall s obj m, 2 * String.length s + 2 <= n -> n <= m ->
                      object_loop m s obj = object_loop n s obj).
Proof.
  induction n as [|n (IHv & IHa & IHo)]; [repeat split; intros; lia|].
  destruct (decode_lengths n) as (Lv & _ & _).
  split; [|split].
  - intros s [|m] Hn Hm; [lia|]. simpl.
    pose proof (skip_ws_length s) as Hlen.
    destruct (skip_ws s) as [|c here] eqn:Hs; [done|]. simpl in Hlen.
    destruct (is_char c 34); [done|].
    destruct (is_char c 123).
    { pose proof (skip_ws_length here) as Hin.
      destruct (skip_ws here) as [|c' rest'] eqn:Hs'.
      - apply IHo; simpl; lia.
      - destruct (is_char c' 125); [done|]. apply IHo; lia. }
    destruct (is_char c 91); [|done].
    pose proof (skip_ws_length here) as Hin.
    destruct (skip_ws here) as [|c' rest'] eqn:Hs'.
    + apply IHa; simpl; lia.
    + destruct (is_char c' 93); [done|]. apply IHa; lia.
  - intros s arr [|m] Hn Hm; [lia|]. simpl.
    rewrite (IHv s m) by lia.
    destruct (decode_value n s) as [[val s1]|] eqn:Hv; [|done].
    apply Lv in Hv. simpl.
    pose proof (skip_ws_length s1) as H1.
    destruct (skip_ws s1) as [|c r] eqn:Hs1; [done|]. simpl in H1.
    destruct (is_char c 93); [done|].
    destruct (is_char c 44); [|done].
    pose proof (skip_ws_length r) as H2.
    destruct (skip_ws r) as [|c' r'] eqn:Hs2.
    + apply IHa; simpl; lia.
    + destruct (is_char c' 93); [done|]. apply IHa; lia.
  - intros s obj [|m] Hn Hm; [lia|]. simpl.
    pose proof (skip_ws_length s) as H0.
    destruct (decode_string (skip_ws s)) as [[key s1]|] eqn:Hk; [|done].
    apply decode_string_length in Hk. simpl.
    pose proof (skip_ws_length s1) as H1.
    destruct (skip_ws s1) as [|colon s2] eqn:Hs1; [done|]. simpl in H1.
    destruct (is_char colon 58); [|done].
    pose proof (skip_ws_length s2) as H2.
    rewrite (IHv (skip_ws s2) m) by lia.
    destruct (decode_value n (skip_ws s2)) as [[val s3]|] eqn:Hv; [|done].
    apply Lv in Hv. simpl.
    pose proof (skip_ws_length s3) as H3.
    destruct (skip_ws s3) as [|c r] eqn:Hs3; [done|]. simpl in H3.
    destruct (is_char c 125); [done|].
    destruct (is_char c 44); [|done].
    pose proof (skip_ws_length r) as H4.
    destruct (skip_ws r) as [|c' r'] eqn:Hs4.
    + apply IHo; simpl; lia.
    + destruct (is_char c' 125); [done|]. apply IHo; lia.
Qed.

(** The fuel [json.decode] passes is enough: more fuel decodes to the same
    value, so a refusal of the model is a refusal of the decoder. *)
Lemma decode_value_fuel s n :
  2 * String.length s + 2 <= n ->
  decode_value n s = decode_value (2 * String.length s + 2) s.
Proof.
  intros Hn.
  destruct (decode_stable (2 * String.length s + 2)) as (Hv & _ & _).
  apply Hv; lia.
Qed.

End fuel.
End json_facts.
(** ** The batch loop *)

Module batch_facts.
Import batch.
Section facts.
Context {World : Type}.
Implicit Types (handlers : gmap string (handler World)) (st : @loop_state World).

Lemma error_entry_success i code message :
  field (error_entry i code message) "success" = VBool false.
Proof. reflexivity. Qed.

Lemma error_entry_index i code message :
  field (error_entry i code message) "index" = VInt (Z.of_nat i).
Proof. reflexivity. Qed.

Lemma error_entry_code i code message :
  field (field (error_entry i code message) "error") "code" = VInt code.
Proof. reflexivity. Qed.

Lemma success_entry_success i result :
  field (success_entry i result) "success" = VBool true.
Proof. destruct result; reflexivity. Qed.

Lemma success_entry_index i result :
  field (success_entry i result) "index" = VInt (Z.of_nat i).
Proof. destruct result; reflexivity. Qed.

Lemma reject_turn stopOnError st i code message :
  stoppedEarly st = false ->
  (code = -32600 \/ code = -32601 \/ code = -32602 \/ code = -32603)%Z ->
  turn stopOnError i st (reject stopOnError st i code message).
Proof.
  intros Hs Hc.
  apply (turn_failed _ _ _ _ code (VStr message)); simpl; auto.
  destruct stopOnError; auto.
Qed.

Lemma precheck_code i op code message :
  precheck i op = inl (code, message) ->
  (code = -32600 \/ code = -32601 \/ code = -32602 \/ code = -32603)%Z.
Proof.
  unfold precheck. intros Hp.
  repeat (case_match; simplify_eq); auto.
Qed.

Lemma step_turn handlers stopOnError st i op :
  stoppedEarly st = false ->
  turn stopOnError i st (step handlers stopOnError st i op).
Proof.
  intros Hs. unfold step. rewrite Hs.
  destruct (precheck i op) as [[code message]|[method opParams]] eqn:Hp.
  { apply reject_turn; eauto using precheck_code. }
  destruct (handlers !! method) as [h|]; [|apply reject_turn; auto].
  destruct (h (world st) opParams) as [outcome moho'].
  destruct outcome as [err|result handlerErr].
  - apply (turn_failed _ _ _ _ (-32603)%Z (VStr ("Handler error: " +:+ err)));
      simpl; auto.
    destruct stopOnError; auto.
  - destruct (is_nil result && truthy handlerErr).
    + apply (turn_failed _ _ _ _ (-32603)%Z handlerErr); simpl; auto.
      destruct stopOnError; auto.
    + apply (turn_ok _ _ _ _ result); simpl; auto.
Qed.

Lemma step_skip handlers stopOnError st i op :
  stoppedEarly st = true ->
  step handlers stopOnError st i op =
    {| results := results st ++ [skipped_entry i];
       succeeded := succeeded st; failed := failed st;
       executed := executed st; stoppedEarly := true;
       world := world st |}.
Proof. intros Hs. unfold step. by rewrite Hs. Qed.

(** Once the loop has stopped, the remaining operations are skipped. *)
Lemma run_skip handlers stopOnError ops : forall st i,
  stoppedEarly st = true ->
  run handlers stopOnError st i ops =
    {| results := results st ++ map skipped_entry (seq i (length ops));
       succeeded := succeeded st; failed := failed st;
       executed := executed st; stoppedEarly := true;
       world := world st |}.
Proof.
  induction ops as [|op ops IH]; intros st i Hs; simpl.
  - rewrite app_nil_r. destruct st; simpl in *; by subst.
  - rewrite IH by (by rewrite step_skip). rewrite step_skip by done. simpl.
    by rewrite <- app_assoc.
Qed.

Lemma run_app handlers stopOnError pre post : forall st i,
  run handlers stopOnError st i (pre ++ post) =
  run handlers stopOnError (run handlers stopOnError st i pre)
      (i + length pre) post.
Proof.
  induction pre as [|op pre IH]; intros st i.
  - simpl. by rewrite Nat.add_0_r.
  - replace (i + length (op :: pre)) with (S i + length pre) by (simpl; lia).
    simpl. by rewrite IH.
Qed.

Lemma step_results handlers stopOnError st i op :
  exists e, results (step handlers stopOnError st i op) = results st ++ [e]
            /\ field e "index" = VInt (Z.of_nat i).
Proof.
  destruct (stoppedEarly st) eqn:Hs.
  - rewrite step_skip by done. simpl. eauto using error_entry_index.
  - destruct (step_turn handlers stopOnError st i op Hs) as [r -> | c m ->];
      eauto using error_entry_index, success_entry_index.
Qed.

(** The counters after any number of turns. *)
Lemma step_counters handlers stopOnError st i op :
  executed st = succeeded st + failed st ->
  let st' := step handlers stopOnError st i op in
  executed st' = succeeded st' + failed st'
  /\ executed st' <= executed st + 1.
Proof.
  intros Hinv. destruct (stoppedEarly st) eqn:Hs; simpl.
  - rewrite step_skip by done. simpl. lia.
  - destruct (step_turn handlers stopOnError st i op Hs); lia.
Qed.

Lemma run_counters handlers stopOnError ops : forall st i,
  executed st = succeeded st + failed st ->
  let st' := run handlers stopOnError st i ops in
  executed st' = succeeded st' + failed st'
  /\ executed st' <= executed st + length ops.
Proof.
  induction ops as [|op ops IH]; intros st i Hinv; simpl; [lia|].
  destruct (step_counters handlers stopOnError st i op Hinv) as [H1 H2].
  destruct (IH _ (S i) H1) as [H3 H4]. simpl in *. lia.
Qed.

Lemma run_results handlers stopOnError ops : forall st i,
  let st' := run handlers stopOnError st i ops in
  length (results st') = length (results st) + length ops
  /\ (forall j e, results st !! j = Some e -> results st' !! j = Some e)
  /\ (forall j e, results st' !! (length (results st) + j) = Some e ->
        field e "index" = VInt (Z.of_nat (i + j))).
Proof.
  induction ops as [|op ops IH]; intros st i; simpl.
  - split; [lia|]. split; [done|]. intros j e He.
    apply lookup_lt_Some in He. lia.
  - destruct (step_results handlers stopOnError st i op) as (e0 & Hr & Hi).
    destruct (IH (step handlers stopOnError st i op) (S i)) as (H1 & H2 & H3).
    simpl in *. rewrite Hr in *. rewrite length_app in *. simpl in *.
    split; [lia|]. split.
    + intros j e He. apply H2. by apply lookup_app_l_Some.
    + intros j e He. destruct j as [|j].
      * rewrite Nat.add_0_r in *.
        assert ((results st ++ [e0]) !! length (results st) = Some e0) as H0
          by (by rewrite list_lookup_middle).
        apply H2 in H0. rewrite H0 in He. by simplify_eq.
      * replace (i + S j) with (S (i + j)) by lia. apply H3.
        by replace (length (results st) + 1 + j)
          with (length (results st) + S j) by lia.
Qed.

Lemma success_entry_no_error i result :
  field (success_entry i result) "error" = VNil.
Proof. destruct result; reflexivity. Qed.

(** With [stopOnError] set, the first failed entry decides the rest of the
    loop: [k] turns after [st], then nothing but skipped entries. *)
Lemma run_first_failure handlers ops : forall st i k,
  stoppedEarly st = false ->
  let st' := run handlers true st i ops in
  let n := length (results st) in
  (exists e, results st' !! (n + k) = Some e
             /\ field e "success" = VBool false) ->
  (forall j e, j < k -> results st' !! (n + j) = Some e ->
               field e "success" = VBool true) ->
  (forall j, k < j < length ops ->
             results st' !! (n + j) = Some (skipped_entry (i + j)))
  /\ (forall j e, j <= k -> results st' !! (n + j) = Some e ->
                  field (field e "error") "code" <> VInt (-32000))
  /\ world st' = world (run handlers true st i (take (S k) ops))
  /\ executed st' = executed st + S k
  /\ succeeded st' = succeeded st + k
  /\ failed st' = failed st + 1
  /\ stoppedEarly st' = true.
Proof.
  induction ops as [|op ops IH]; intros st i k Hs st' n (e & He & Hf) Hbefore.
  { subst st' n. simpl in He. apply lookup_lt_Some in He. lia. }
  subst st'. simpl in *.
  set (s1 := step handlers true st i op) in *.
  pose proof (run_results handlers true ops s1 (S i)) as (Hlen & Hkeep & _).
  simpl in Hlen, Hkeep.
  destruct (step_turn handlers true st i op Hs) as
    [result Hr Hsu Hfa Hex Hst | code message Hr Hcode Hsu Hfa Hex Hst];
    fold s1 in Hr, Hsu, Hfa, Hex, Hst.
  - (* the operation succeeded: the failure is further on *)
    assert (results (run handlers true s1 (S i) ops) !! n
            = Some (success_entry i result)) as H0.
    { apply Hkeep. rewrite Hr. by apply list_lookup_middle. }
    destruct k as [|k].
    { rewrite Nat.add_0_r in He. rewrite H0 in He. injection He as <-.
      by rewrite success_entry_success in Hf. }
    assert (length (results s1) = n + 1) as Hn1
      by (rewrite Hr, length_app; simpl; lia).
    assert (exists e, results (run handlers true s1 (S i) ops)
                        !! (length (results s1) + k) = Some e
                      /\ field e "success" = VBool false) as P1.
    { exists e. split; [|done]. rewrite Hn1.
      by replace (n + 1 + k) with (n + S k) by lia. }
    assert (forall j e, j < k ->
              results (run handlers true s1 (S i) ops)
                !! (length (results s1) + j) = Some e ->
              field e "success" = VBool true) as P2.
    { intros j e' Hj He'. apply (Hbefore (S j)); [lia|].
      rewrite Hn1 in He'. by replace (n + S j) with (n + 1 + j) by lia. }
    destruct (IH s1 (S i) k Hst P1 P2)
      as (Hskip & Hcodes & Hw & Hex' & Hsu' & Hfa' & Hst').
    split; [|split; [|split; [|split; [|split; [|split]]]]].
    + intros j Hj. destruct j as [|j]; [lia|].
      replace (n + S j) with (length (results s1) + j) by lia.
      replace (i + S j) with (S i + j) by lia. apply Hskip. lia.
    + intros j e' Hj He'. destruct j as [|j].
      * rewrite Nat.add_0_r in He'. rewrite H0 in He'. injection He' as <-.
        by rewrite success_entry_no_error.
      * apply (Hcodes j); [lia|].
        by replace (length (results s1) + j) with (n + S j) by lia.
    + exact Hw.
    + lia.
    + lia.
    + lia.
    + exact Hst'.
  - (* the operation failed: it is the first failure, the rest is skipped *)
    assert (results (run handlers true s1 (S i) ops) !! n
            = Some (error_entry i code message)) as H0.
    { apply Hkeep. rewrite Hr. by apply list_lookup_middle. }
    destruct k as [|k]; last first.
    { assert (field (error_entry i code message) "success" = VBool true) as Hx.
      { apply (Hbefore 0); [lia|]. by rewrite Nat.add_0_r. }
      by rewrite error_entry_success in Hx. }
    rewrite (run_skip handlers true ops s1 (S i) Hst). simpl.
    fold s1.
    split; [|split; [|split; [|split; [|split; [|split]]]]]; try lia; try done.
    + intros j Hj. destruct j as [|j]; [lia|].
      rewrite Hr, <- app_assoc. rewrite lookup_app_r by lia.
      replace (n + S j - length (results st)) with (S j) by lia. simpl.
      change (map skipped_entry ?l) with (skipped_entry <$> l).
      rewrite list_lookup_fmap, lookup_seq_lt by lia. simpl.
      do 2 f_equal. lia.
    + intros j e' Hj He'. assert (j = 0) as -> by lia.
      rewrite (run_skip handlers true ops s1 (S i) Hst) in H0. simpl in H0.
      rewrite Nat.add_0_r in He'. rewrite H0 in He'. injection He' as <-.
      rewrite error_entry_code. intros [=]. lia.
Qed.

(** [batch.execute] on a list of operations of an accepted length. *)
Lemma execute_runs handlers moho params ops flds flag :
  index params "operations" = Ok (VTable ops flds) ->
  index params "stopOnError" = Ok flag ->
  0 < length ops <= MAX_OPERATIONS ->
  let st := run handlers (truthy flag) (initial moho) 1 ops in
  execute handlers moho params =
    (Returned (record [("results", VTable (results st) []);
                       ("summary", summary (length ops) st)]) VNil,
     world st).
Proof.
  intros Hops Hflag [Hlo Hhi]. unfold execute. rewrite Hops, Hflag.
  assert (truthy (lua_or flag (VBool false)) = truthy flag) as ->.
  { unfold lua_or. destruct (truthy flag) eqn:E; [exact E | reflexivity]. }
  unfold execute_ops. simpl.
  destruct (Nat.eqb_spec (length ops) 0) as [|_]; [lia|].
  destruct (Nat.ltb_spec MAX_OPERATIONS (length ops)) as [|_]; [lia|].
  reflexivity.
Qed.

(** [batch.execute] on a list of operations that is too long. *)
Lemma execute_too_many handlers moho params ops flds flag :
  index params "operations" = Ok (VTable ops flds) ->
  index params "stopOnError" = Ok flag ->
  MAX_OPERATIONS < length ops ->
  execute handlers moho params =
    (Returned VNil
       (VStr ("Too many operations: " +:+ pretty (length ops)
              +:+ " (max " +:+ pretty MAX_OPERATIONS +:+ ")")),
     moho).
Proof.
  intros Hops Hflag Hlen. unfold execute. rewrite Hops, Hflag.
  unfold execute_ops. simpl.
  destruct (Nat.eqb_spec (length ops) 0) as [H0|_].
  { rewrite H0 in Hlen. unfold MAX_OPERATIONS in Hlen. lia. }
  destruct (Nat.ltb_spec MAX_OPERATIONS (length ops)) as [_|]; [|lia].
  reflexivity.
Qed.

(** A turn for an operation that is not skipped looks at the loop state
    only through the document: it adds to the results and the counters
    what the same turn adds to a fresh state. *)
Lemma step_from_world handlers stopOnError st i op :
  stoppedEarly st = false ->
  let alone := step handlers stopOnError (initial (world st)) i op in
  results (step handlers stopOnError st i op) = results st ++ results alone
  /\ world (step handlers stopOnError st i op) = world alone
  /\ succeeded (step handlers stopOnError st i op)
     = succeeded st + succeeded alone
  /\ failed (step handlers stopOnError st i op) = failed st + failed alone
  /\ stoppedEarly (step handlers stopOnError st i op) = stoppedEarly alone.
Proof.
  intros Hs. unfold step. rewrite Hs. simpl.
  destruct (precheck i op) as [[code message]|[method opParams]];
    [simpl; rewrite ?Hs; repeat split; try done; lia|].
  destruct (handlers !! method) as [h|];
    [|simpl; rewrite ?Hs; repeat split; try done; lia].
  destruct (h (world st) opParams) as [[err|result handlerErr] moho'];
    [simpl; rewrite ?Hs; repeat split; try done; lia|].
  destruct (is_nil result && truthy handlerErr); simpl; rewrite ?Hs;
    repeat split; try done; lia.
Qed.

Lemma step_alone_one_entry handlers stopOnError moho i op :
  exists e, results (step handlers stopOnError (initial moho) i op) = [e].
Proof.
  destruct (step_turn handlers stopOnError (initial moho) i op eq_refl)
    as [r -> | c m ->]; by eexists.
Qed.

(** Without [stopOnError] the loop never stops. *)
Lemma run_never_stops handlers ops : forall st i,
  stoppedEarly st = false ->
  stoppedEarly (run handlers false st i ops) = false.
Proof.
  induction ops as [|op ops IH]; intros st i Hs; simpl; [done|].
  apply IH. by destruct (step_turn handlers false st i op Hs).
Qed.

(** Without [stopOnError], the entry of an operation is the entry the
    operation gets when it is run alone on the document that the
    operations before it have left. *)
Lemma run_entry_alone handlers moho pre op post :
  let before := run handlers false (initial moho) 1 pre in
  let final := run handlers false (initial moho) 1 (pre ++ op :: post) in
  exists e,
    results (step handlers false (initial (world before))
                  (S (length pre)) op) = [e]
    /\ results final !! length pre = Some e.
Proof.
  intros before final.
  destruct (step_alone_one_entry handlers false (world before)
              (S (length pre)) op) as [e He].
  exists e. split; [done|].
  subst final. rewrite run_app. simpl.
  pose proof (run_never_stops handlers pre (initial moho) 1 eq_refl) as Hs.
  fold before in Hs |- *.
  destruct (step_from_world handlers false before (S (length pre)) op Hs)
    as (Hr & _).
  rewrite He in Hr.
  pose proof (run_results handlers false pre (initial moho) 1) as (Hlen & _).
  simpl in Hlen. fold before in Hlen.
  pose proof (run_results handlers false post
                (step handlers false before (S (length pre)) op)
                (S (S (length pre)))) as (_ & Hkeep & _).
  simpl in Hkeep. apply Hkeep. rewrite Hr, <- Hlen.
  by apply list_lookup_middle.
Qed.

(** The entry a turn adds for an operation that is not skipped records
    what became of the operation. *)
Lemma failed_with_error_entry i code message :
  is_nil message = false ->
  failed_with (error_entry i code message) code message.
Proof. intros Hm. by destruct message. Qed.




(** The loop looks a handler up only for a method that is not on the
    denylist. *)
Lemma step_ext handlers handlers' stopOnError st i op :
  (forall method, disallowedInBatch method = false ->
                  handlers !! method = handlers' !! method) ->
  step handlers stopOnError st i op = step handlers' stopOnError st i op.
Proof.
  intros Hsame. unfold step. destruct (stoppedEarly st); [done|].
  destruct (precheck i op) as [[code message]|[method opParams]] eqn:Hp;
    [done|].
  rewrite Hsame; [done|].
  unfold precheck in Hp.
  destruct (if String.eqb (type op) "table" then field op "method" else VNil)
    as [| | |m| | |]; try done.
  destruct (disallowedInBatch m) eqn:Hd; [done|].
  destruct (validator.isAllowed m); [|done]. cbn [negb] in Hp.
  destruct (validator.validateParams m _); [|done].
  by simplify_eq.
Qed.

Lemma run_ext handlers handlers' stopOnError ops : forall st i,
  (forall method, disallowedInBatch method = false ->
                  handlers !! method = handlers' !! method) ->
  run handlers stopOnError st i ops = run handlers' stopOnError st i ops.
Proof.
  induction ops as [|op ops IH]; intros st i Hsame; simpl; [done|].
  rewrite (step_ext handlers handlers') by done. by apply IH.
Qed.

Lemma execute_ext handlers handlers' moho params :
  (forall method, disallowedInBatch method = false ->
                  handlers !! method = handlers' !! method) ->
  execute handlers moho params = execute handlers' moho params.
Proof.
  intros Hsame. unfold execute.
  destruct (index params "operations") as [operations|]; [|done].
  destruct (index params "stopOnError") as [flag|]; [|done].
  unfold execute_ops.
  destruct (_ || _); [done|]. destruct (Nat.ltb _ _); [done|].
  by rewrite (run_ext handlers handlers') by done.
Qed.


(** What the summary says. *)
Lemma summary_fields total st :
  field (summary total st) "total" = VInt (Z.of_nat total)
  /\ field (summary total st) "executed" = VInt (Z.of_nat (executed st))
  /\ field (summary total st) "succeeded" = VInt (Z.of_nat (succeeded st))
  /\ field (summary total st) "failed" = VInt (Z.of_nat (failed st))
  /\ field (summary total st) "stoppedEarly" = VBool (stoppedEarly st).
Proof. repeat split; reflexivity. Qed.

Lemma result_fields (entries : list value) (smry : value) :
  is_nil smry = false ->
  field (record [("results", VTable entries []); ("summary", smry)]) "results"
  = VTable entries []
  /\ field (record [("results", VTable entries []); ("summary", smry)])
       "summary" = smry.
Proof. intros Hs. destruct smry; try done; split; reflexivity. Qed.

End facts.
End batch_facts.

(** ** Encoding the result of a batch *)

Module encode_facts.
Import batch batch_facts.
Section facts.
Context {World : Type} `{CRuntime}.
Implicit Types (handlers : gmap string (handler World)) (st : @loop_state World).

Lemma collect_ok (l : list (res string)) :
  Forall (fun r => exists s, r = Ok s) l -> exists ps, json.collect l = Ok ps.
Proof.
  induction 1 as [|r l [s ->] _ [ps IH]]; simpl; [by eexists|].
  rewrite IH. by eexists.
Qed.








End facts.
End encode_facts.

(** ** Decoding and dispatch *)

Module server_facts.
Import server.
Section facts.
Context {World : Type} `{CRuntime}.
Implicit Types (st : @state World) (dir : directory).

Lemma parseRequest_ok content request :
  protocol.parseRequest content = inl request ->
  content <> ""
  /\ json.decode content = Ok request
  /\ type request = "table"
  /\ field request "jsonrpc" = VStr "2.0"
  /\ is_nil (field request "id") = false
  /\ exists method, field request "method" = VStr method /\ method <> "".
Proof.
  unfold protocol.parseRequest. intros Hp.
  destruct content as [|c content]; [done|]. simpl in Hp.
  destruct (json.decode (String c content)) as [decoded|m]; [|done].
  destruct (String.eqb_spec (type decoded) "table") as [Ht|]; [|done].
  simpl in Hp.
  destruct (field decoded "jsonrpc") as [| | |v| | |] eqn:Hv; try done.
  simpl in Hp. destruct (String.eqb_spec v "2.0") as [->|]; [|done].
  simpl in Hp. destruct (is_nil (field decoded "id")) eqn:Hid; [done|].
  destruct (field decoded "method") as [| | |method| | |] eqn:Hm; try done.
  destruct method as [|c' method]; [done|]. simpl in Hp.
  injection Hp as <-. repeat split; try done. by eexists.
Qed.

(** What [parseRequest] refuses, by case. *)
Lemma parseRequest_refuses content :
  content = ""
  \/ (exists m, json.decode content = Raise m)
  \/ (exists v, json.decode content = Ok v /\ is_object v = false)
  \/ (exists v, json.decode content = Ok v
                /\ field v "jsonrpc" <> VStr "2.0") ->
  exists message, protocol.parseRequest content = inr message.
Proof.
  intros Hcases.
  destruct (protocol.parseRequest content) as [request|message] eqn:Hp;
    [|by eauto].
  apply parseRequest_ok in Hp as (Hne & Hd & Ht & Hv & _).
  destruct Hcases as [->|[[m Hm]|[(v & Hv' & Hobj)|(v & Hv' & Hver)]]].
  - done.
  - congruence.
  - rewrite Hd in Hv'. injection Hv' as <-.
    by destruct request as [| | | |arr [|kv fs]| |].
  - rewrite Hd in Hv'. by injection Hv' as <-.
Qed.

(** An error response with no id and a text message can always be
    encoded. *)
Lemma createError_no_id (code : Z) (message : string) :
  (Z.abs code < json.two_53)%Z ->
  exists response,
    protocol.createError VNil code (VStr message) VNil = Ok response.
Proof.
  intros Hc. unfold protocol.createError, json.encode. cbn.
  rewrite (math_abs_small code Hc).
  cbn. by eexists.
Qed.

Lemma error_table_no_id code message data :
  field (protocol.error_table VNil code message data) "id" = VNil.
Proof.
  unfold protocol.error_table, record. cbn [fold_left fst snd field].
  rewrite assoc_set_key_ne by done. by rewrite assoc_set_key_eq.
Qed.



Lemma error_table_code id code message data :
  field (field (protocol.error_table id code message data) "error") "code"
  = VInt code.
Proof.
  unfold protocol.error_table, record. cbn [fold_left fst snd field].
  rewrite assoc_set_key_eq.
  destruct (is_nil data); cbn [negb field].
  - by rewrite assoc_set_key_ne, assoc_set_key_eq by done.
  - by rewrite assoc_set_key_ne, assoc_set_key_ne, assoc_set_key_eq by done.
Qed.

(** *** The directory *)

Lemma writeFile_same dir path content :
  writeFile dir path content !! path = Some content.
Proof. unfold writeFile. by rewrite lookup_insert_eq. Qed.

Lemma writeFile_other dir path content name :
  name <> path -> name <> path +:+ ".tmp" ->
  writeFile dir path content !! name = dir !! name.
Proof.
  intros H1 H2. unfold writeFile.
  rewrite lookup_insert_ne, lookup_delete_ne, lookup_delete_ne,
    lookup_insert_ne by done.
  done.
Qed.

(** *** The scan for request files *)

Lemma probe_gap dir prefix : forall gap remaining id misses,
  misses + S gap = 101 ->
  S gap <= remaining ->
  (forall j, id <= j < id + S gap ->
             dir !! (prefix +:+ pretty j +:+ ".json") = None) ->
  probe dir prefix remaining id misses = [].
Proof.
  induction gap as [|gap IH]; intros remaining id misses Hm Hr Hnone;
    (destruct remaining as [|remaining]; [lia|]); simpl;
    rewrite (Hnone id) by lia;
    destruct (Nat.ltb_spec 100 (misses + 1)) as [|Hle]; try done; try lia.
  apply IH; [lia|lia|]. intros j Hj. apply Hnone. lia.
Qed.

(** The first file the scan finds, and where the scan goes on. *)
Lemma probe_cons dir prefix : forall remaining id misses fname rest,
  probe dir prefix remaining id misses = fname :: rest ->
  exists j remaining',
    id <= j < id + remaining
    /\ fname = prefix +:+ pretty j +:+ ".json"
    /\ is_Some (dir !! fname)
    /\ rest = probe dir prefix remaining' (S j) 0
    /\ S j + remaining' = id + remaining.
Proof.
  induction remaining as [|remaining IH]; intros id misses fname rest Hp;
    [done|].
  simpl in Hp.
  destruct (dir !! (prefix +:+ pretty id +:+ ".json")) as [content|] eqn:Hd.
  - injection Hp as <- <-. exists id, remaining.
    repeat split; try lia; by rewrite ?Hd.
  - destruct (Nat.ltb 100 (misses + 1)); [done|].
    apply IH in Hp as (j & remaining' & Hj & -> & Hsome & -> & Hsum).
    exists j, remaining'. repeat split; try done; lia.
Qed.

Lemma probe_elem dir prefix remaining id misses fname :
  fname ∈ probe dir prefix remaining id misses ->
  exists j, id <= j < id + remaining
            /\ fname = prefix +:+ pretty j +:+ ".json"
            /\ is_Some (dir !! fname).
Proof.
  revert id misses.
  induction (lt_wf remaining) as [remaining _ IH]. intros id misses Hin.
  destruct (probe dir prefix remaining id misses) as [|f rest] eqn:Hp;
    [by apply elem_of_nil in Hin|].
  apply probe_cons in Hp as (j & remaining' & Hj & -> & Hsome & -> & Hsum).
  apply elem_of_cons in Hin as [->|Hin].
  - exists j. repeat split; try done; lia.
  - apply IH in Hin as (j' & Hj' & -> & Hsome'); [|lia].
    exists j'. repeat split; try done; lia.
Qed.

(** *** One request *)

Lemma processRequest_parse_error st content message moho :
  protocol.parseRequest content = inr message ->
  processRequest st content moho =
    (protocol.createError VNil protocol.PARSE_ERROR (VStr message) VNil, moho).
Proof. intros Hp. unfold processRequest. by rewrite Hp. Qed.


(** A request for [batch.execute] that passes validation is answered with
    what [batch.execute] returns. *)
Lemma processRequest_batch st content moho request outcome moho' :
  batch_registered st ->
  protocol.parseRequest content = inl request ->
  field request "method" = VStr "batch.execute" ->
  let id := field request "id" in
  let params := lua_or (field request "params") (VTable [] []) in
  validator.validateParams "batch.execute" params = validator.Valid ->
  batch.execute (handlers st) moho params = (outcome, moho') ->
  processRequest st content moho =
    (match outcome with
     | Threw err =>
         protocol.createError id protocol.INTERNAL_ERROR
           (VStr ("Handler error: " +:+ err)) VNil
     | Returned result handlerErr =>
         if is_nil result && truthy handlerErr
         then protocol.createError id protocol.INTERNAL_ERROR handlerErr VNil
         else protocol.createResponse id result
     end, moho').
Proof.
  intros (h & Hh & Hext) Hp Hm id params Hv He.
  unfold processRequest. rewrite Hp, Hm.
  change (validator.isAllowed "batch.execute") with true. cbn [negb].
  fold params. rewrite Hv, Hh. cbn beta iota. rewrite Hext, He.
  destruct outcome as [err|result handlerErr]; [done|].
  by destruct (is_nil result && truthy handlerErr).
Qed.

Lemma validate_batch params :
  validator.validateParams "batch.execute" params =
    if negb (String.eqb (type params) "table") then
      validator.Invalid "Missing params: expected a table of parameters"
    else if is_nil (field params "operations") then
      validator.Invalid "Missing required parameter: operations"
    else if negb (String.eqb (type (field params "operations")) "table") then
      validator.Invalid
        ("Invalid parameter type for 'operations': expected table, got "
         +:+ type (field params "operations"))
    else validator.Valid.
Proof. reflexivity. Qed.

Lemma serve_ok st fname content moho dir :
  exists response,
    written_response st content moho response
    /\ serve st fname content moho dir =
       Ok (snd (processRequest st content moho),
           delete fname
             match match_request_id fname with
             | Some reqId => writeFile dir ("resp_" +:+ reqId +:+ ".json") response
             | None => dir
             end).
Proof.
  unfold serve, written_response.
  destruct (processRequest st content moho) as [[response|crash] moho'] eqn:Hp;
    cbn [fst snd].
  - by exists response.
  - destruct (createError_no_id protocol.INTERNAL_ERROR
                ("Server crash: " +:+ crash)) as [response Hr]; [reflexivity|].
    exists response. rewrite Hr. split; [done|reflexivity].
Qed.

Lemma serve_request st i content moho dir :
  exists response,
    written_response st content moho response
    /\ serve st (bridge.request_name i) content moho dir =
       Ok (snd (processRequest st content moho),
           delete (bridge.request_name i)
             (writeFile dir (bridge.response_name i) response)).
Proof.
  destruct (serve_ok st (bridge.request_name i) content moho dir)
    as (response & Hw & Hs).
  exists response. split; [done|].
  by rewrite Hs, match_request_id_name.
Qed.


(** *** One tick *)



Lemma poll_loop_full st files moho dir :
  poll_loop st files 2 moho dir = Ok (moho, dir).
Proof. by destruct files. Qed.

Lemma findFilesByPrefix_eq dir prefix :
  findFilesByPrefix dir prefix = probe dir prefix LAST_ID 1 0.
Proof. reflexivity. Qed.

Lemma found_first dir f1 rest :
  findFilesByPrefix dir "req_" = f1 :: rest ->
  exists i, f1 = bridge.request_name i
    /\ 1 <= i <= LAST_ID
    /\ is_Some (dir !! f1)
    /\ forall f2 rest', rest = f2 :: rest' ->
         exists j, f2 = bridge.request_name j /\ i < j /\ is_Some (dir !! f2).
Proof.
  rewrite findFilesByPrefix_eq. intros Hp.
  apply probe_cons in Hp as (i & remaining & Hi & -> & Hsome & -> & Hsum).
  exists i. repeat split; try done; try lia.
  intros f2 rest' Hp.
  apply probe_cons in Hp as (j & remaining' & Hj & -> & Hsome' & _).
  exists j. repeat split; try done; lia.
Qed.

Lemma poll_unfold_first st moho dir f1 rest content moho1 dir1 :
  isRunning st = true ->
  findFilesByPrefix dir "req_" = f1 :: rest ->
  dir !! f1 = Some content ->
  serve st f1 content moho dir = Ok (moho1, dir1) ->
  poll st moho dir = poll_loop st rest 1 moho1 dir1.
Proof.
  intros Hrun Hfind Hc Hs. unfold poll. rewrite Hrun, Hfind.
  cbn [negb poll_loop Nat.leb]. unfold readFile. by rewrite Hc, Hs.
Qed.

Lemma poll_loop_second st f2 rest moho1 dir1 c2 moho2 dir2 :
  dir1 !! f2 = Some c2 ->
  serve st f2 c2 moho1 dir1 = Ok (moho2, dir2) ->
  poll_loop st (f2 :: rest) 1 moho1 dir1 = Ok (moho2, dir2).
Proof.
  intros Hc Hs. cbn [poll_loop Nat.leb]. unfold readFile. rewrite Hc, Hs.
  apply poll_loop_full.
Qed.

(** What serving the request [req_<i>] leaves of the other files. *)
Lemma served_lookup_request dir i response j :
  i <> j ->
  delete (bridge.request_name i)
    (writeFile dir (bridge.response_name i) response)
    !! bridge.request_name j = dir !! bridge.request_name j.
Proof.
  intros Hne. rewrite lookup_delete_ne
    by (intros Heq; by apply request_name_inj in Heq).
  apply writeFile_other;
    [apply request_not_response | apply request_not_response_tmp].
Qed.

Lemma served_lookup_response dir i response j :
  i <> j ->
  delete (bridge.request_name i)
    (writeFile dir (bridge.response_name i) response)
    !! bridge.response_name j = dir !! bridge.response_name j.
Proof.
  intros Hne. rewrite lookup_delete_ne
    by (intros Heq; by apply request_not_response in Heq).
  apply writeFile_other;
    [intros Heq; by apply response_name_inj in Heq
    |apply response_not_response_tmp].
Qed.

Lemma served_lookup_own dir i response :
  delete (bridge.request_name i)
    (writeFile dir (bridge.response_name i) response)
    !! bridge.response_name i = Some response
  /\ delete (bridge.request_name i)
       (writeFile dir (bridge.response_name i) response)
       !! bridge.request_name i = None.
Proof.
  split; [|apply lookup_delete_eq].
  rewrite lookup_delete_ne
    by (intros Heq; by apply request_not_response in Heq).
  apply writeFile_same.
Qed.

End facts.
End server_facts.

(** ** The client *)

Module bridge_facts.
Import bridge.
Section facts.
Context `{JsRuntime}.
Variable clock : nat -> Z.
Variable peer : nat -> directory -> directory.

Lemma seen_from_succ n k dir :
  seen_from peer (S n) k (peer n dir) = seen_from peer n (S k) dir.
Proof.
  induction k as [|k IH]; simpl.
  - by rewrite Nat.add_1_r.
  - rewrite IH. simpl. by replace (n + S (S k)) with (S (n + S k)) by lia.
Qed.

(** A wait that finds no response at its first [k + 1] looks, and whose
    clock passes the timeout at look [k] and not before, ends there with a
    timeout. *)
Lemma await_times_out method id startTime timeout : forall k n dir fuel,
  (forall m, m <= k -> seen_from peer n m dir !! response_name id = None) ->
  (forall m, m < k -> (clock (S (n + m)) - startTime <= timeout)%Z) ->
  (clock (S (n + k)) - startTime > timeout)%Z ->
  k < fuel ->
  await clock peer fuel n method id startTime timeout dir =
    Some (TimedOut method id timeout,
          delete (request_name id) (seen_from peer n k dir)).
Proof.
  induction k as [|k IH]; intros n dir fuel Hnone Hearly Hlate Hfuel;
    (destruct fuel as [|fuel]; [lia|]); simpl.
  - pose proof (Hnone 0 ltac:(lia)) as H0. simpl in H0. rewrite H0.
    rewrite Nat.add_0_r in Hlate.
    destruct (Z.gtb_spec (clock (S n) - startTime) timeout); [done|lia].
  - pose proof (Hnone 0 ltac:(lia)) as H0. simpl in H0. rewrite H0.
    pose proof (Hearly 0 ltac:(lia)) as He. rewrite Nat.add_0_r in He.
    destruct (Z.gtb_spec (clock (S n) - startTime) timeout); [lia|].
    rewrite (IH (S n) (peer n dir) fuel).
    + by rewrite (seen_from_succ n k dir).
    + intros m Hm. rewrite seen_from_succ. apply Hnone. lia.
    + intros m Hm. replace (S n + m) with (n + S m) by lia. apply Hearly. lia.
    + by replace (S n + k) with (n + S k) by lia.
    + lia.
Qed.

(** A wait that finds no response and whose clock has not passed the
    timeout goes on: the loop is still turning when the fuel is spent. *)
Lemma await_goes_on method id startTime timeout : forall fuel n dir,
  (forall m, m < fuel -> seen_from peer n m dir !! response_name id = None) ->
  (forall m, m < fuel -> (clock (S (n + m)) - startTime <= timeout)%Z) ->
  await clock peer fuel n method id startTime timeout dir = None.
Proof.
  induction fuel as [|fuel IH]; intros n dir Hnone Hearly; [done|]. simpl.
  pose proof (Hnone 0 ltac:(lia)) as H0. simpl in H0. rewrite H0.
  pose proof (Hearly 0 ltac:(lia)) as He. rewrite Nat.add_0_r in He.
  destruct (Z.gtb_spec (clock (S n) - startTime) timeout); [lia|].
  apply IH.
  - intros m Hm. rewrite seen_from_succ. apply Hnone. lia.
  - intros m Hm. replace (S n + m) with (n + S m) by lia. apply Hearly. lia.
Qed.

(** The first reading of the clock that is past the timeout. *)
Lemma first_late_reading startTime timeout n :
  (clock (S n) - startTime > timeout)%Z ->
  exists k, k <= n
    /\ (clock (S k) - startTime > timeout)%Z
    /\ forall m, m < k -> (clock (S m) - startTime <= timeout)%Z.
Proof.
  assert (forall n,
    (exists k, k <= n
       /\ (clock (S k) - startTime > timeout)%Z
       /\ forall m, m < k -> (clock (S m) - startTime <= timeout)%Z)
    \/ (forall m, m <= n -> (clock (S m) - startTime <= timeout)%Z)) as Hscan.
  { clear n. induction n as [|n [(k & Hk & Hlate & Hearly)|Hnone]].
    - destruct (Z.le_gt_cases (clock 1 - startTime) timeout) as [Hle|Hgt].
      + right. intros m Hm. by replace m with 0 by lia.
      + left. exists 0. repeat split; [lia|lia|]. intros m Hm. lia.
    - left. exists k. repeat split; [lia|done|done].
    - destruct (Z.le_gt_cases (clock (S (S n)) - startTime) timeout)
        as [Hle|Hgt].
      + right. intros m Hm. destruct (decide (m = S n)) as [->|]; [done|].
        apply Hnone. lia.
      + left. exists (S n). repeat split; [lia|lia|].
        intros m Hm. apply Hnone. lia. }
  intros Hn. destruct (Hscan n) as [Hfound|Hnone]; [done|].
  specialize (Hnone n ltac:(lia)). lia.
Qed.

(** A call that never finds a response ends with a timeout at the first
    reading of the clock that is past the timeout, and leaves no request
    file. *)
Lemma sendRequest_times_out cfg cl method params timeoutOption dir :
  connected cl = true ->
  let id := nextId cl in
  let timeout := default (requestTimeout cfg) timeoutOption in
  let written :=
    writeRequest dir (request_name id)
      (JSON_stringify (request_object id method params)) in
  (forall n, seen_from peer 0 n written !! response_name id = None) ->
  (exists n, (clock (S n) - clock O > timeout)%Z) ->
  exists k,
    (clock (S k) - clock O > timeout)%Z
    /\ (forall m, m < k -> (clock (S m) - clock O <= timeout)%Z)
    /\ forall fuel, k < fuel ->
         exists dir',
           sendRequest clock peer fuel cfg cl method params timeoutOption dir
           = Some (TimedOut method id timeout,
                   {| nextId := S id; connected := true |}, dir')
           /\ dir' !! request_name id = None.
Proof.
  intros Hconn id timeout written Hnone [n Hn].
  destruct (first_late_reading (clock O) timeout n Hn)
    as (k & _ & Hlate & Hearly).
  exists k. split; [done|]. split; [done|]. intros fuel Hfuel.
  unfold sendRequest. rewrite Hconn. cbn [negb].
  fold id. fold timeout. fold written.
  rewrite (await_times_out method id (clock O) timeout k 0 written fuel);
    [|intros m Hm; by apply Hnone|done..].
  simpl. eexists. split; [reflexivity|]. apply lookup_delete_eq.
Qed.

(** The same, with the looks the call takes: it is still waiting after
    [k] looks, and ends at look [k] with the directory as that look finds
    it, less the request file. *)
Lemma sendRequest_times_out_at cfg cl method params timeoutOption dir :
  connected cl = true ->
  let id := nextId cl in
  let timeout := default (requestTimeout cfg) timeoutOption in
  let written :=
    writeRequest dir (request_name id)
      (JSON_stringify (request_object id method params)) in
  (forall n, seen_from peer 0 n written !! response_name id = None) ->
  (exists n, (clock (S n) - clock O > timeout)%Z) ->
  exists k,
    (clock (S k) - clock O > timeout)%Z
    /\ (forall m, m < k -> (clock (S m) - clock O <= timeout)%Z)
    /\ (forall fuel, fuel <= k ->
          sendRequest clock peer fuel cfg cl method params timeoutOption dir
          = None)
    /\ (forall fuel, k < fuel ->
          sendRequest clock peer fuel cfg cl method params timeoutOption dir
          = Some (TimedOut method id timeout,
                  {| nextId := S id; connected := true |},
                  delete (request_name id) (seen_from peer 0 k written)))
    /\ delete (request_name id) (seen_from peer 0 k written)
         !! request_name id = None.
Proof.
  intros Hconn id timeout written Hnone [n Hn].
  destruct (first_late_reading (clock O) timeout n Hn)
    as (k & _ & Hlate & Hearly).
  exists k. split; [done|]. split; [done|].
  split; [|split; [|apply lookup_delete_eq]].
  - intros fuel Hfuel. unfold sendRequest. rewrite Hconn. cbn [negb].
    fold id. fold timeout. fold written.
    rewrite (await_goes_on method id (clock O) timeout fuel 0 written); [done| |].
    + intros m Hm. apply Hnone.
    + intros m Hm. apply Hearly. lia.
  - intros fuel Hfuel. unfold sendRequest. rewrite Hconn. cbn [negb].
    fold id. fold timeout. fold written.
    rewrite (await_times_out method id (clock O) timeout k 0 written fuel);
      [|intros m Hm; by apply Hnone|done..].
    reflexivity.
Qed.

Lemma parseResponse_refuses data :
  data = ""
  \/ JSON_parse (trim data) = None
  \/ (exists v, JSON_parse (trim data) = Some v /\ is_js_object v = false)
  \/ (exists v, JSON_parse (trim data) = Some v
                /\ prop v "jsonrpc" <> Some (JString "2.0")) ->
  exists e, parseResponse data = inr e.
Proof.
  intros Hcases. unfold parseResponse.
  destruct Hcases as [->|Hcases]; [eexists; reflexivity|].
  destruct (Nat.eqb (String.length (trim data)) 0); [by eexists|].
  destruct (JSON_parse (trim data)) as [parsed|] eqn:Hp; [|by eexists].
  destruct Hcases as [?|[(v & Hv & Hobj)|(v & Hv & Hver)]]; [done| |].
  - injection Hv as <-.
    destruct parsed; simpl in *; try done; by eexists.
  - injection Hv as <-.
    destruct parsed as [| | | |items|props]; try by eexists.
    destruct (prop (JObject props) "jsonrpc") as [[| | |version| |]|] eqn:Hj;
      try by eexists.
    destruct (String.eqb_spec version "2.0") as [->|]; [done|by eexists].
Qed.

End facts.
End bridge_facts.
(** ** json.lua: strings survive the encoder and the decoder *)

Module json_strings.
Import json json_facts.

(** One turn of the loop of [decode_string] reads back what [encode_string]
    wrote for one byte: the byte itself, a two-character escape, or
    [\u00XX]. *)
Lemma string_body_escaped c fuel tail acc :
  string_body (S fuel)
    ((if needs_escape c then escape_char c else str1 c) +:+ tail) acc
  = string_body fuel tail (acc +:+ str1 c).
Proof.
  destruct c as [[] [] [] [] [] [] [] []]; reflexivity.
Qed.

Lemma string_app_nil_r (s : string) : s +:+ "" = s.
Proof.
  induction s as [|c s IH]; [done|].
  change (String c s +:+ "") with (String c (s +:+ "")). by rewrite IH.
Qed.

Lemma string_app_cons_r (a : string) c (b : string) :
  a +:+ String c b = (a +:+ str1 c) +:+ b.
Proof. by rewrite string_app_assoc. Qed.

Lemma string_body_escape_all s : forall fuel rest acc,
  String.length s < fuel ->
  string_body fuel (escape_all s +:+ String dquote rest) acc
  = Some (acc +:+ s, rest).
Proof.
  induction s as [|c s IH]; intros [|fuel] rest acc Hfuel; simpl in Hfuel;
    try lia.
  - by rewrite string_app_nil_r.
  - change (escape_all (String c s))
      with ((if needs_escape c then escape_char c else str1 c)
            +:+ escape_all s).
    rewrite string_app_assoc, string_body_escaped, IH by lia.
    by rewrite (string_app_cons_r acc c s).
Qed.

Lemma escape_all_length s : String.length s <= String.length (escape_all s).
Proof.
  induction s as [|c s IH]; [done|].
  change (escape_all (String c s))
    with ((if needs_escape c then escape_char c else str1 c) +:+ escape_all s).
  rewrite string_length_app.
  assert (1 <= String.length (if needs_escape c then escape_char c else str1 c)).
  { destruct c as [[] [] [] [] [] [] [] []]; vm_compute; lia. }
  simpl. lia.
Qed.

Lemma decode_encode_string s rest :
  decode_string (encode_string s +:+ rest) = Some (s, rest).
Proof.
  unfold encode_string.
  change (String dquote (escape_all s +:+ str1 dquote) +:+ rest)
    with (String dquote ((escape_all s +:+ str1 dquote) +:+ rest)).
  rewrite string_app_assoc.
  change (str1 dquote +:+ rest) with (String dquote rest).
  unfold decode_string.
  change (is_char dquote 34) with true. cbv iota.
  rewrite string_body_escape_all; [done|].
  pose proof (escape_all_length s). simpl. rewrite string_length_app. simpl. lia.
Qed.

End json_strings.
(** ** json.lua: integers survive the encoder and the decoder *)

Module json_numbers.
Import json json_facts json_strings.

(** The digits [pretty] writes are put in front of the accumulator. *)
Lemma pretty_N_go_app x : forall s, pretty_N_go x s = pretty_N_go x "" +:+ s.
Proof.
  induction (N.lt_wf_0 x) as [x _ IH]; intros s.
  destruct (decide (x = 0)%N) as [->|Hx]; [done|].
  assert (x `div` 10 < x)%N as Hlt by (apply N.div_lt; lia).
  rewrite !(pretty_N_go_step x) by lia.
  rewrite (IH _ Hlt (String _ s)), (IH _ Hlt (String _ "")).
  by rewrite string_app_assoc.
Qed.

Lemma pretty_N_go_snoc x :
  (0 < x)%N ->
  pretty_N_go x "" = pretty_N_go (x `div` 10) "" +:+ str1 (pretty_N_char (x `mod` 10)).
Proof.
  intros Hx. by rewrite pretty_N_go_step, pretty_N_go_app.
Qed.

(** Texts made of digits only. *)
Lemma span_digits_app (a rest : string) :
  forallb is_digit (list_ascii_of_string a) = true ->
  span is_digit (a +:+ rest)
  = (a +:+ fst (span is_digit rest), snd (span is_digit rest)).
Proof.
  induction a as [|c a IH]; intros Ha; simpl in Ha.
  - change ("" +:+ rest) with rest.
    change ("" +:+ fst (span is_digit rest)) with (fst (span is_digit rest)).
    by destruct (span is_digit rest).
  - apply andb_true_iff in Ha as [Hc Ha].
    change (String c a +:+ rest) with (String c (a +:+ rest)).
    simpl. rewrite Hc, IH by done. done.
Qed.

Lemma list_ascii_app (a b : string) :
  list_ascii_of_string (a +:+ b)
  = list_ascii_of_string a ++ list_ascii_of_string b.
Proof.
  induction a as [|c a IH]; [done|].
  change (String c a +:+ b) with (String c (a +:+ b)). simpl. by rewrite IH.
Qed.

Lemma pretty_N_char_digit d :
  (d < 10)%N ->
  is_digit (pretty_N_char d) = true
  /\ Z.of_nat (code (pretty_N_char d) - 48) = Z.of_N d.
Proof.
  intros Hd.
  assert (d = 0 \/ d = 1 \/ d = 2 \/ d = 3 \/ d = 4 \/ d = 5 \/ d = 6
          \/ d = 7 \/ d = 8 \/ d = 9)%N as H by lia.
  destruct H as [->|[->|[->|[->|[->|[->|[->|[->|[->| ->]]]]]]]]];
    by vm_compute.
Qed.

Lemma pretty_N_go_digits x :
  forallb is_digit (list_ascii_of_string (pretty_N_go x "")) = true.
Proof.
  induction (N.lt_wf_0 x) as [x _ IH].
  destruct (decide (x = 0)%N) as [->|Hx]; [done|].
  rewrite pretty_N_go_snoc, list_ascii_app, forallb_app by lia.
  rewrite IH by (apply N.div_lt; lia). simpl.
  destruct (pretty_N_char_digit (x `mod` 10)%N) as [-> _]; [|done].
  apply N.mod_lt. lia.
Qed.

Lemma pretty_N_go_value x : digits_value (pretty_N_go x "") = Z.of_N x.
Proof.
  unfold digits_value.
  induction (N.lt_wf_0 x) as [x _ IH].
  destruct (decide (x = 0)%N) as [->|Hx]; [done|].
  rewrite pretty_N_go_snoc, list_ascii_app, fold_left_app by lia.
  rewrite IH by (apply N.div_lt; lia). simpl.
  destruct (pretty_N_char_digit (x `mod` 10)%N) as [_ ->].
  { apply N.mod_lt. lia. }
  rewrite (N.div_mod x 10) at 3 by lia. lia.
Qed.

(** A positive number is written without a leading zero. *)
Lemma pretty_N_go_head x :
  (0 < x)%N ->
  exists c tail, pretty_N_go x "" = String c tail
                 /\ is_digit c = true /\ is_char c 48 = false.
Proof.
  induction (N.lt_wf_0 x) as [x _ IH]; intros Hx.
  rewrite pretty_N_go_snoc by done.
  destruct (decide (x `div` 10 = 0)%N) as [Hq|Hq].
  - rewrite Hq. rewrite pretty_N_go_0.
    assert (x < 10)%N as Hlt.
    { apply N.div_small_iff in Hq; lia. }
    rewrite N.mod_small by done.
    exists (pretty_N_char x), "". split; [done|].
    assert (x = 1 \/ x = 2 \/ x = 3 \/ x = 4 \/ x = 5 \/ x = 6
            \/ x = 7 \/ x = 8 \/ x = 9)%N as H by lia.
    destruct H as [->|[->|[->|[->|[->|[->|[->|[->| ->]]]]]]]]; by vm_compute.
  - destruct (IH (x `div` 10)%N) as (c & tail & -> & Hc & H0).
    { apply N.div_lt; lia. }
    { by apply N.neq_0_lt_0. }
    exists c, (tail +:+ str1 (pretty_N_char (x `mod` 10))). done.
Qed.

End json_numbers.

Module json_number_text.
Import json json_facts json_strings json_numbers.

Lemma optional_miss p c r : p c = false -> optional p (String c r) = ("", String c r).
Proof. intros Hp. unfold optional. by rewrite Hp. Qed.

Lemma optional_hit p c r : p c = true -> optional p (String c r) = (str1 c, r).
Proof. intros Hp. unfold optional. by rewrite Hp. Qed.

Lemma ends_number_span rest :
  ends_number rest = true -> span is_digit rest = ("", rest).
Proof.
  destruct rest as [|c r]; [done|]. simpl. intros Hc.
  destruct (is_digit c); [done|done].
Qed.

Lemma ends_number_optional rest :
  ends_number rest = true ->
  optional (fun c => is_char c 46) rest = ("", rest)
  /\ optional (fun c => is_char c 101 || is_char c 69) rest = ("", rest)
  /\ optional (fun c => is_char c 43 || is_char c 45) rest = ("", rest).
Proof.
  destruct rest as [|c r]; [done|]. unfold ends_number. intros Hc.
  apply negb_true_iff in Hc.
  repeat (apply orb_false_iff in Hc as [Hc ?]).
  repeat split; apply optional_miss; by repeat (apply orb_false_iff; split).
Qed.

(** The number pattern on a run of digits without a leading zero, behind an
    optional minus sign. *)
Lemma decode_number_digits `{CRuntime} (negative : bool) (int rest : string) :
  forallb is_digit (list_ascii_of_string int) = true ->
  (int = "0"
   \/ exists c tail, int = String c tail /\ is_char c 48 = false) ->
  let z := if negative then (- digits_value int)%Z else digits_value int in
  (-9223372036854775808 <= z <= 9223372036854775807)%Z ->
  ends_number rest = true ->
  decode_number ((if negative then "-" else "") +:+ int +:+ rest)
  = Some (VNum (NInt z), rest).
Proof.
  intros Hdigits Hhead z Hz Hrest.
  assert (exists c tail, int = String c tail /\ is_digit c = true)
    as (c0 & tail0 & Hint & Hc0).
  { destruct Hhead as [->|(c & tail & -> & _)]; [by exists "0"%char, ""|].
    exists c, tail. split; [done|]. simpl in Hdigits.
    by apply andb_true_iff in Hdigits as [? _]. }
  destruct (ends_number_optional rest Hrest) as (Hdot & He & Hsign).
  unfold decode_number.
  assert (optional (fun c => is_char c 45)
            ((if negative then "-" else "") +:+ int +:+ rest)
          = (if negative then "-" else "", int +:+ rest)) as ->.
  { destruct negative; [done|].
    change ("" +:+ int +:+ rest) with (int +:+ rest). rewrite Hint.
    change (String c0 tail0 +:+ rest) with (String c0 (tail0 +:+ rest)).
    apply optional_miss. unfold is_digit in Hc0. unfold is_char.
    apply andb_true_iff in Hc0 as [H1 H2].
    apply Nat.leb_le in H1. apply Nat.eqb_neq. lia. }
  rewrite span_digits_app, (ends_number_span rest) by done.
  cbn [fst snd]. rewrite (string_app_nil_r int).
  assert (is_empty int = false) as -> by (by rewrite Hint).
  rewrite Hdot, (ends_number_span rest), He, Hsign by done.
  unfold tonumber. cbn [is_empty negb].
  assert ((if is_empty (if negative then "-" else "")
           then digits_value int else (- digits_value int)%Z) = z) as ->.
  { by destruct negative. }
  assert (((-9223372036854775808 <=? z) && (z <=? 9223372036854775807))%Z
          = true) as ->.
  { apply andb_true_iff. split; apply Z.leb_le; lia. }
  cbn [mbind option_bind]. rewrite (ends_number_span rest) by done.
  rewrite !string_app_nil_r.
  destruct Hhead as [->|(c & tail & -> & Hc)]; [done|].
  destruct tail as [|c2 tail]; [done|]. by rewrite Hc.
Qed.

(** What the encoder writes for an integral number below 2^53 is read back
    as that number. *)
Lemma decode_number_pretty `{CRuntime} (z : Z) (rest : string) :
  (Z.abs z < two_53)%Z ->
  ends_number rest = true ->
  decode_number (pretty z +:+ rest) = Some (VNum (NInt z), rest).
Proof.
  intros Hz Hrest. unfold two_53 in Hz.
  destruct z as [|p|p].
  - apply (decode_number_digits false "0" rest);
      [done|by left|split; by vm_compute|done].
  - change (pretty (Z.pos p)) with (pretty_N_go (N.pos p) "").
    pose proof (decode_number_digits false (pretty_N_go (N.pos p) "") rest)
      as Hd.
    rewrite pretty_N_go_value in Hd. apply Hd; [| |simpl; lia|done].
    + apply pretty_N_go_digits.
    + right. destruct (pretty_N_go_head (N.pos p)) as (c & tail & ? & ? & ?);
        [lia|]. by exists c, tail.
  - change (pretty (Z.neg p)) with ("-" +:+ pretty_N_go (N.pos p) "").
    pose proof (decode_number_digits true (pretty_N_go (N.pos p) "") rest)
      as Hd.
    rewrite pretty_N_go_value in Hd. rewrite string_app_assoc.
    apply Hd; [| |simpl; lia|done].
    + apply pretty_N_go_digits.
    + right. destruct (pretty_N_go_head (N.pos p)) as (c & tail & ? & ? & ?);
        [lia|]. by exists c, tail.
Qed.

End json_number_text.

(** ** json.lua: values survive the encoder and the decoder *)

Module json_values.
Import json json_facts json_strings json_numbers json_number_text.

Lemma value_nested_ind (P : value -> Prop) :
  P VNil -> (forall b, P (VBool b)) -> (forall n, P (VNum n)) ->
  (forall s, P (VStr s)) ->
  (forall arr fields,
     Forall P arr -> Forall (fun kv => P (snd kv)) fields ->
     P (VTable arr fields)) ->
  P VNull -> P VFunction ->
  forall v, P v.
Proof.
  intros Hnil Hbool Hnum Hstr Htable Hnull Hfun.
  refine (fix IH (v : value) : P v :=
            match v with
            | VNil => Hnil
            | VBool b => Hbool b
            | VNum n => Hnum n
            | VStr s => Hstr s
            | VTable arr fields =>
                Htable arr fields
                  ((fix items (l : list value) : Forall P l :=
                      match l with
                      | [] => @List.Forall_nil _ P
                      | x :: l' => @List.Forall_cons _ P x l' (IH x) (items l')
                      end) arr)
                  ((fix members (l : list (string * value))
                      : Forall (fun kv => P (snd kv)) l :=
                      match l with
                      | [] => @List.Forall_nil _ (fun kv => P (snd kv))
                      | kv :: l' =>
                          @List.Forall_cons _ (fun kv => P (snd kv)) kv l'
                            (IH (snd kv)) (members l')
                      end) fields)
            | VNull => Hnull
            | VFunction => Hfun
            end).
Qed.

(** The nested loops over the members of a table are maps. *)
Lemma each_map {A B} (f : A -> B) (fs : list (string * A)) :
  (fix each (fs : list (string * A)) : list (string * B) :=
     match fs with
     | [] => []
     | (k, v) :: rest => (k, f v) :: each rest
     end) fs
  = map (fun kv => (fst kv, f (snd kv))) fs.
Proof. induction fs as [|[k v] fs IH]; simpl; [done|by rewrite IH]. Qed.

Lemma all_forallb (f : value -> bool) (fs : list (string * value)) :
  (fix all (fs : list (string * value)) : bool :=
     match fs with
     | [] => true
     | (_, v) :: rest => f v && all rest
     end) fs
  = forallb (fun kv => f (snd kv)) fs.
Proof. induction fs as [|[k v] fs IH]; simpl; [done|by rewrite IH]. Qed.

Lemma plain_object arr f fs :
  plain (VTable arr (f :: fs))
  = distinct_keys (f :: fs) && forallb (fun kv => plain (snd kv)) (f :: fs).
Proof. rewrite <- (all_forallb plain (f :: fs)). reflexivity. Qed.

Lemma insert_by_key_map {A B} (f : A -> B) (kv : string * A) l :
  insert_by_key (fst kv, f (snd kv))
    (map (fun kv => (fst kv, f (snd kv))) l)
  = map (fun kv => (fst kv, f (snd kv))) (insert_by_key kv l).
Proof.
  induction l as [|kv' l IH]; simpl; [done|].
  destruct (String.ltb (fst kv') (fst kv)); simpl; [by rewrite IH|done].
Qed.

Lemma sort_by_key_map {A B} (f : A -> B) (l : list (string * A)) :
  sort_by_key (map (fun kv => (fst kv, f (snd kv))) l)
  = map (fun kv => (fst kv, f (snd kv))) (sort_by_key l).
Proof.
  unfold sort_by_key.
  induction l as [|kv l IH]; simpl; [done|].
  by rewrite IH, insert_by_key_map.
Qed.

Lemma insert_by_key_perm {A} (kv : string * A) l :
  insert_by_key kv l ≡ₚ kv :: l.
Proof.
  induction l as [|kv' l IH]; simpl; [done|].
  destruct (String.ltb (fst kv') (fst kv)); [|done].
  rewrite IH. apply Permutation_swap.
Qed.

Lemma sort_by_key_perm {A} (l : list (string * A)) : sort_by_key l ≡ₚ l.
Proof.
  unfold sort_by_key.
  induction l as [|kv l IH]; simpl; [done|].
  by rewrite insert_by_key_perm, IH.
Qed.

Lemma distinct_keys_NoDup {A} (fs : list (string * A)) :
  distinct_keys fs = true -> NoDup (map fst fs).
Proof.
  induction fs as [|[k v] fs IH]; simpl; [constructor|].
  intros [Hk Hfs]%andb_true_iff. constructor; [|by apply IH].
  apply negb_true_iff in Hk. intros Hin.
  apply list_elem_of_fmap in Hin as ([k' v'] & -> & Hin).
  assert (existsb (fun kv => String.eqb k' (fst kv)) fs = true) as Hex.
  { apply existsb_exists. exists (k', v').
    split; [by apply list_elem_of_In|apply String.eqb_refl]. }
  simpl in Hk. congruence.
Qed.

(** Assigning to a key that the table does not have appends the member. *)
Lemma set_key_fresh k v (obj : list (string * value)) :
  k ∉ map fst obj -> is_nil v = false ->
  set_key k v obj = obj ++ [(k, v)].
Proof.
  intros Hk Hv.
  induction obj as [|[k' v'] obj IH]; simpl.
  - by rewrite Hv.
  - simpl in Hk. apply not_elem_of_cons in Hk as [Hne Hk].
    destruct (String.eqb_spec k k') as [->|_]; [done|].
    by rewrite IH.
Qed.

Lemma normal_not_nil v : is_nil (normal v) = false.
Proof. destruct v as [| | | |arr [|f fs]| |]; done. Qed.


Section roundtrip.
Context `{CRuntime}.

Lemma string_cons_app c (t x : string) : String c t +:+ x = String c (t +:+ x).
Proof. done. Qed.

Lemma skip_ws_stop c (x : string) :
  is_ws c = false -> skip_ws (String c x) = String c x.
Proof. intros Hc. simpl. by rewrite Hc. Qed.

Lemma starts_value_skip text rest :
  starts_value text -> skip_ws (text +:+ rest) = text +:+ rest.
Proof.
  intros (c & tail & -> & Hc & _). rewrite string_cons_app.
  by apply skip_ws_stop.
Qed.

Lemma concat_with_cons sep p q rest :
  concat_with sep (p :: q :: rest) = p +:+ sep +:+ concat_with sep (q :: rest).
Proof. done. Qed.

Lemma concat_with_head sep c tail ps :
  exists tl, concat_with sep (String c tail :: ps) = String c tl.
Proof.
  destruct ps as [|q ps]; [by exists tail|].
  rewrite concat_with_cons, string_cons_app. by eexists.
Qed.

(** *** Scalars *)

Lemma reads_back_literal (lit : string) (v : value) c tail :
  lit = String c tail ->
  (forall n rest,
     decode_value (S n) (lit +:+ rest) = Some (v, rest)) ->
  reads_back lit v.
Proof.
  intros -> Hd. exists 1. intros [|n] rest Hn _; [lia|]. apply Hd.
Qed.

Lemma reads_back_null : reads_back "null" VNull.
Proof.
  apply (reads_back_literal "null" VNull "n" "ull"); [done|].
  intros n rest. reflexivity.
Qed.

Lemma reads_back_bool (b : bool) : reads_back (if b then "true" else "false") (VBool b).
Proof.
  destruct b.
  - apply (reads_back_literal "true" _ "t" "rue"); [done|].
    intros n rest. reflexivity.
  - apply (reads_back_literal "false" _ "f" "alse"); [done|].
    intros n rest. reflexivity.
Qed.

Lemma reads_back_string s : reads_back (encode_string s) (VStr s).
Proof.
  exists 1. intros [|n] rest Hn _; [lia|].
  pose proof (decode_encode_string s rest) as Hs.
  unfold encode_string in *. rewrite string_cons_app in *.
  cbn [decode_value]. rewrite skip_ws_stop by done.
  change (is_char dquote 34) with true. cbv iota.
  by rewrite Hs.
Qed.

Lemma reads_back_number z :
  (Z.abs z < two_53)%Z -> reads_back (pretty z) (VNum (NInt z)).
Proof.
  intros Hz. exists 1. intros [|n] rest Hn Hrest; [lia|].
  pose proof (decode_number_pretty z rest Hz Hrest) as Hd.
  assert (exists c tail, pretty z = String c tail
                         /\ (is_char c 45 || is_digit c = true)
                         /\ is_ws c = false)
    as (c & tail & Hp & Hc & Hws).
  { destruct z as [|p|p].
    - by exists "0"%char, "".
    - destruct (pretty_N_go_head (N.pos p)) as (c & tail & Hp & Hc & _);
        [lia|].
      exists c, tail. split; [done|]. rewrite Hc.
      split; [apply orb_true_r|].
      unfold is_digit in Hc. apply andb_true_iff in Hc as [H1 H2].
      apply Nat.leb_le in H1. unfold is_ws, is_char.
      repeat (apply orb_false_iff; split); apply Nat.eqb_neq; lia.
    - by exists "-"%char, (pretty_N_go (N.pos p) ""). }
  rewrite Hp in *. rewrite string_cons_app in *.
  cbn [decode_value]. rewrite skip_ws_stop by done.
  assert (is_char c 34 = false /\ is_char c 123 = false
          /\ is_char c 91 = false) as (-> & -> & ->).
  { unfold is_char, is_digit in *.
    apply orb_true_iff in Hc as [Hc|Hc].
    - apply Nat.eqb_eq in Hc. rewrite Hc. done.
    - apply andb_true_iff in Hc as [H1 H2].
      apply Nat.leb_le in H1. apply Nat.leb_le in H2.
      repeat split; apply Nat.eqb_neq; lia. }
  by rewrite Hc.
Qed.

Lemma encode_value_object arr f fs :
  encode_value (VTable arr (f :: fs))
  = match
      collect
        (map (fun kv : string * res string =>
                match snd kv with
                | Ok j => Ok (encode_string (fst kv) +:+ ":" +:+ j)
                | Raise m => Raise m
                end)
             (sort_by_key
                (map (fun kv => (fst kv, encode_value (snd kv))) (f :: fs))))
    with
    | Ok parts => Ok ("{" +:+ concat_with "," parts +:+ "}")
    | Raise m => Raise m
    end.
Proof. rewrite <- (each_map encode_value (f :: fs)). reflexivity. Qed.

Lemma normal_object arr f fs :
  normal (VTable arr (f :: fs))
  = VTable [] (sort_by_key (map (fun kv => (fst kv, normal (snd kv))) (f :: fs))).
Proof. rewrite <- (each_map normal (f :: fs)). reflexivity. Qed.

(** *** Arrays *)

Lemma array_items (arr : list value) :
  Forall (fun v => exists text, encode_value v = Ok text
                                /\ starts_value text
                                /\ reads_back text (normal v)) arr ->
  exists parts,
    collect (map encode_value arr) = Ok parts
    /\ length parts = length arr
    /\ (forall p ps, parts = p :: ps -> starts_value p)
    /\ exists n0, forall n acc rest,
         n0 <= n -> arr <> [] ->
         array_loop n (concat_with "," parts +:+ String "]" rest) acc
         = Some (VTable (acc ++ map normal arr) [], rest).
Proof.
  induction 1 as [|v arr (text & Henc & Hstart & n1 & Hread) _
                    (parts & Hparts & Hlen & Hfirst & n2 & Hloop)].
  { exists []. repeat split; [by intros ? ? [=]|]. exists 0. by intros. }
  exists (text :: parts). cbn [map collect]. rewrite Henc, Hparts.
  split; [done|]. split; [by simpl; rewrite Hlen|].
  split; [by intros ? ? [= <- <-]|].
  exists (S (n1 `max` n2)). intros [|n] acc rest Hn _; [lia|].
  destruct arr as [|w arr].
  - destruct parts as [|? ?]; [|done].
    cbn [array_loop concat_with].
    rewrite (Hread n (String "]" rest)) by (done || lia).
    simpl. done.
  - destruct parts as [|p ps]; [done|].
    destruct (Hfirst p ps eq_refl) as (c & tail & -> & Hws & Hc & _).
    rewrite concat_with_cons, !string_app_assoc.
    change ("," +:+ ?x) with (String "," x).
    cbn [array_loop].
    rewrite (Hread n) by (done || lia).
    cbn [mbind option_bind]. rewrite (skip_ws_stop ",") by done.
    change (is_char "," 93) with false. change (is_char "," 44) with true.
    cbv iota.
    destruct (concat_with_head "," c tail ps) as (tl & Htl).
    rewrite Htl, string_cons_app, skip_ws_stop, Hc by done.
    rewrite <- string_cons_app, <- Htl.
    rewrite (Hloop n (acc ++ [normal v]) rest) by (done || lia).
    by rewrite <- app_assoc.
Qed.

(** *** Objects *)

Lemma object_members (sf : list (string * value)) :
  Forall (fun kv => exists text, encode_value (snd kv) = Ok text
                                 /\ starts_value text
                                 /\ reads_back text (normal (snd kv))) sf ->
  exists parts,
    collect
      (map (fun kv : string * res string =>
              match snd kv with
              | Ok j => Ok (encode_string (fst kv) +:+ ":" +:+ j)
              | Raise m => Raise m
              end)
           (map (fun kv => (fst kv, encode_value (snd kv))) sf)) = Ok parts
    /\ length parts = length sf
    /\ (forall p ps, parts = p :: ps -> exists tail, p = String dquote tail)
    /\ exists n0, forall n obj rest,
         n0 <= n -> sf <> [] ->
         NoDup (map fst sf) ->
         (forall k, k ∈ map fst sf -> k ∉ map fst obj) ->
         object_loop n (concat_with "," parts +:+ String "}" rest) obj
         = Some (VTable []
                   (obj ++ map (fun kv => (fst kv, normal (snd kv))) sf),
                 rest).
Proof.
  induction 1 as [|[k v] sf (text & Henc & Hstart & n1 & Hread) _
                    (parts & Hparts & Hlen & Hfirst & n2 & Hloop)].
  { exists []. repeat split; [by intros ? ? [=]|]. exists 0. by intros. }
  cbn [fst snd] in Henc, Hread.
  exists ((encode_string k +:+ ":" +:+ text) :: parts).
  cbn [map collect fst snd]. rewrite Henc. cbn [map collect fst snd].
  rewrite Hparts.
  split; [done|]. split; [by simpl; rewrite Hlen|].
  split; [intros ? ? [= <- <-]; by eexists|].
  exists (S (n1 `max` n2)). intros [|n] obj rest Hn _ Hdup Hfresh; [lia|].
  apply NoDup_cons in Hdup as [Hk Hdup]. cbn [map fst] in Hk.
  assert (set_key k (normal v) obj = obj ++ [(k, normal v)]) as Hset.
  { apply set_key_fresh; [|apply normal_not_nil].
    apply Hfresh. cbn [map fst]. apply elem_of_cons. by left. }
  assert (forall k', k' ∈ map fst sf ->
                     k' ∉ map fst (obj ++ [(k, normal v)])) as Hfresh'.
  { intros k' Hin. rewrite map_app. cbn [map fst].
    intros [Hobj|Hkk]%elem_of_app.
    - eapply Hfresh; [|done]. cbn [map fst]. apply elem_of_cons. by right.
    - apply list_elem_of_singleton in Hkk as ->. done. }
  destruct (starts_value_skip text) with (rest := String "}" rest) as [];
    [done|].
  destruct sf as [|kw sf].
  - destruct parts as [|? ?]; [|done].
    cbn [object_loop concat_with].
    rewrite !string_app_assoc.
    unfold encode_string at 1. rewrite string_cons_app, skip_ws_stop by done.
    rewrite <- string_cons_app. fold (encode_string k).
    rewrite decode_encode_string. cbn [mbind option_bind].
    change (":" +:+ ?x) with (String ":" x).
    rewrite (skip_ws_stop ":") by done.
    change (is_char ":" 58) with true. cbv iota.
    rewrite starts_value_skip by done.
    rewrite (Hread n (String "}" rest)) by (done || lia).
    cbn [mbind option_bind]. rewrite (skip_ws_stop "}") by done.
    change (is_char "}" 125) with true. cbv iota.
    by rewrite Hset.
  - destruct parts as [|p ps]; [done|].
    destruct (Hfirst p ps eq_refl) as (tail & ->).
    rewrite concat_with_cons, !string_app_assoc.
    cbn [object_loop].
    unfold encode_string at 1. rewrite string_cons_app, skip_ws_stop by done.
    rewrite <- string_cons_app. fold (encode_string k).
    rewrite decode_encode_string. cbn [mbind option_bind].
    change (":" +:+ ?x) with (String ":" x).
    rewrite (skip_ws_stop ":") by done.
    change (is_char ":" 58) with true. cbv iota.
    rewrite starts_value_skip by done.
    change ("," +:+ ?x) with (String "," x).
    rewrite (Hread n) by (done || lia).
    cbn [mbind option_bind]. rewrite (skip_ws_stop ",") by done.
    change (is_char "," 125) with false. change (is_char "," 44) with true.
    cbv iota.
    destruct (concat_with_head "," dquote tail ps) as (tl & Htl).
    rewrite Htl, string_cons_app, skip_ws_stop by done.
    change (is_char dquote 125) with false. cbv iota.
    rewrite <- string_cons_app, <- Htl, Hset.
    rewrite (Hloop n (obj ++ [(k, normal v)]) rest) by (done || lia).
    by rewrite <- app_assoc.
Qed.

(** *** Every plain value *)

Lemma plain_reads_back (v : value) :
  plain v = true ->
  exists text, encode_value v = Ok text
               /\ starts_value text
               /\ reads_back text (normal v).
Proof.
  induction v as [|b|n|s|arr fields IHarr IHfields| |] using value_nested_ind;
    intros Hplain.
  - exists "null". split; [done|]. split; [by exists "n"%char, "ull"|].
    apply reads_back_null.
  - exists (if b then "true" else "false"). split; [done|]. split.
    + destruct b; [by exists "t"%char, "rue"|by exists "f"%char, "alse"].
    + apply reads_back_bool.
  - destruct n as [z| | |]; try done. simpl in Hplain.
    apply Z.ltb_lt in Hplain.
    exists (pretty z). split; [by simpl; rewrite (math_abs_small z Hplain)|].
    split; [|by apply reads_back_number].
    destruct z as [|p|p].
    + by exists "0"%char, "".
    + destruct (pretty_N_go_head (N.pos p)) as (c & tail & Hp & Hc & _);
        [lia|].
      exists c, tail. split; [done|].
      unfold is_digit in Hc. apply andb_true_iff in Hc as [H1 H2].
      apply Nat.leb_le in H1. apply Nat.leb_le in H2. unfold is_ws, is_char.
      repeat split; repeat (apply orb_false_iff; split);
        apply Nat.eqb_neq; lia.
    + by exists "-"%char, (pretty_N_go (N.pos p) "").
  - exists (encode_string s). split; [done|].
    split; [by eexists dquote, _|]. apply reads_back_string.
  - destruct fields as [|f fs].
    + (* an array *)
      cbn [plain] in Hplain.
      assert (Forall (fun v => exists text, encode_value v = Ok text
                                /\ starts_value text
                                /\ reads_back text (normal v)) arr) as Hall.
      { apply Forall_forall. intros v Hv.
        rewrite Forall_forall in IHarr. apply IHarr; [done|].
        apply (proj1 (forallb_forall plain arr) Hplain).
        by apply list_elem_of_In. }
      destruct (array_items arr Hall)
        as (parts & Hparts & Hlen & Hfirst & n0 & Hloop).
      cbn [encode_value normal]. rewrite Hparts.
      destruct parts as [|p ps].
      * destruct arr; [|done].
        exists "[]". split; [done|]. split; [by exists "["%char, "]"|].
        exists 1. intros [|n] rest Hn _; [lia|]. reflexivity.
      * destruct arr as [|a arr]; [done|].
        eexists. split; [done|]. split; [by eexists "["%char, _|].
        exists (S n0). intros [|n] rest Hn _; [lia|].
        rewrite !string_app_assoc. change ("[" +:+ ?x) with (String "[" x).
        change ("]" +:+ ?x) with (String "]" x).
        cbn [decode_value]. rewrite (skip_ws_stop "[") by done.
        change (is_char "[" 34) with false.
        change (is_char "[" 123) with false.
        change (is_char "[" 91) with true. cbv iota.
        destruct (Hfirst p ps eq_refl) as (c & tail & -> & Hws & Hc & _).
        destruct (concat_with_head "," c tail ps) as (tl & Htl).
        rewrite Htl, string_cons_app, skip_ws_stop, Hc by done.
        rewrite <- string_cons_app, <- Htl.
        by rewrite (Hloop n [] rest) by (done || lia).
    + (* an object *)
      rewrite plain_object in Hplain.
      apply andb_true_iff in Hplain as [Hkeys Hplain].
      set (fields := f :: fs) in *.
      assert (Forall (fun kv => exists text, encode_value (snd kv) = Ok text
                                 /\ starts_value text
                                 /\ reads_back text (normal (snd kv)))
                     (sort_by_key fields)) as Hall.
      { rewrite sort_by_key_perm. apply Forall_forall. intros kv Hkv.
        rewrite Forall_forall in IHfields. apply IHfields; [done|].
        apply (proj1 (forallb_forall _ _) Hplain).
        by apply list_elem_of_In. }
      destruct (object_members _ Hall)
        as (parts & Hparts & Hlen & Hfirst & n0 & Hloop).
      assert (sort_by_key fields <> []) as Hne.
      { intros Hnil. pose proof (sort_by_key_perm fields) as Hperm.
        rewrite Hnil in Hperm. by apply Permutation_nil_l in Hperm. }
      subst fields. rewrite encode_value_object, normal_object.
      rewrite !sort_by_key_map, Hparts.
      destruct parts as [|p ps].
      { by destruct (sort_by_key (f :: fs)). }
      eexists. split; [done|]. split; [by eexists "{"%char, _|].
      exists (S n0). intros [|n] rest Hn _; [lia|].
      rewrite !string_app_assoc. change ("{" +:+ ?x) with (String "{" x).
      change ("}" +:+ ?x) with (String "}" x).
      cbn [decode_value]. rewrite (skip_ws_stop "{") by done.
      change (is_char "{" 34) with false.
      change (is_char "{" 123) with true. cbv iota.
      destruct (Hfirst p ps eq_refl) as (tail & ->).
      destruct (concat_with_head "," dquote tail ps) as (tl & Htl).
      rewrite Htl, string_cons_app, skip_ws_stop by done.
      change (is_char dquote 125) with false. cbv iota.
      rewrite <- string_cons_app, <- Htl.
      rewrite (Hloop n [] rest); [done|lia|done| |].
      * rewrite sort_by_key_perm. by apply distinct_keys_NoDup.
      * intros k _. apply not_elem_of_nil.
  - exists "null". split; [done|]. split; [by exists "n"%char, "ull"|].
    apply reads_back_null.
  - done.
Qed.

(** With the fuel [json.decode] passes. *)
Lemma plain_decode (v : value) :
  plain v = true ->
  exists text, encode v = Ok text /\ decode text = Ok (normal v).
Proof.
  intros Hplain.
  destruct (plain_reads_back v Hplain)
    as (text & Henc & (c & tail & -> & _) & n0 & Hread).
  exists (String c tail). unfold encode. rewrite Henc. split; [done|].
  unfold decode. cbn [is_empty].
  set (fuel := 2 * String.length (String c tail) + 2).
  assert (decode_value fuel (String c tail) = Some (normal v, "")) as ->.
  { destruct (decode_stable fuel) as (Hstable & _ & _).
    rewrite <- (Hstable _ (fuel `max` n0)) by (subst fuel; lia).
    rewrite <- (string_app_nil_r (String c tail)) at 1.
    apply Hread; [lia|done]. }
  done.
Qed.

End roundtrip.
End json_values.

(** ** server.lua: the scan of the directory, [start] and [stop] *)

Module scan_facts.
Import server server_facts.

Lemma remove_all_cons (dir : directory) a names :
  remove_all dir (a :: names) = remove_all (delete a dir) names.
Proof. done. Qed.

Lemma remove_all_lookup_in names : forall (dir : directory) n,
  n ∈ names -> remove_all dir names !! n = None.
Proof.
  induction names as [|a names IH]; intros dir n Hin.
  - by apply elem_of_nil in Hin.
  - rewrite remove_all_cons.
    destruct (decide (n ∈ names)) as [Hn|Hn]; [by apply IH|].
    apply elem_of_cons in Hin as [->|Hin]; [|done].
    clear IH. revert dir. induction names as [|b names IH]; intros dir.
    + apply lookup_delete_eq.
    + rewrite remove_all_cons. apply not_elem_of_cons in Hn as [Hne Hn].
      rewrite delete_delete. by apply IH.
Qed.

Lemma remove_all_lookup_notin names : forall (dir : directory) n,
  n ∉ names -> remove_all dir names !! n = dir !! n.
Proof.
  induction names as [|a names IH]; intros dir n Hn; [done|].
  apply not_elem_of_cons in Hn as [Hne Hn].
  rewrite remove_all_cons, IH by done. by apply lookup_delete_ne.
Qed.

(** The scan looks at nothing but the files [<prefix><id>.json]. *)
Lemma probe_ext (dir dir' : directory) prefix :
  (forall j : nat, dir' !! (prefix +:+ pretty j +:+ ".json")
             = dir !! (prefix +:+ pretty j +:+ ".json")) ->
  forall remaining id misses,
    probe dir' prefix remaining id misses = probe dir prefix remaining id misses.
Proof.
  intros Hsame. induction remaining as [|remaining IH]; intros id misses;
    [done|].
  simpl. rewrite Hsame.
  destruct (dir !! (prefix +:+ pretty id +:+ ".json")); [by rewrite IH|].
  destruct (Nat.ltb 100 (misses + 1)); [done|apply IH].
Qed.

(** The scan reaches every file that no run of 101 missing ids hides. *)
Lemma probe_finds (dir : directory) prefix (j : nat) :
  is_Some (dir !! (prefix +:+ pretty j +:+ ".json")) ->
  forall remaining id misses,
    id <= j < id + remaining ->
    (forall b, id <= b < j ->
       misses + (b + 1 - id) <= 100
       \/ exists k, id <= k <= b /\ b < k + 101
                    /\ is_Some (dir !! (prefix +:+ pretty k +:+ ".json"))) ->
    prefix +:+ pretty j +:+ ".json" ∈ probe dir prefix remaining id misses.
Proof.
  intros Hj. induction remaining as [|remaining IH]; intros id misses Hr Hw;
    [lia|].
  simpl.
  destruct (decide (id = j)) as [->|Hne].
  { destruct Hj as [content ->]. apply elem_of_cons. by left. }
  destruct (dir !! (prefix +:+ pretty id +:+ ".json")) as [content|] eqn:Hid.
  - apply elem_of_cons. right. apply IH; [lia|].
    intros b Hb. destruct (Hw b) as [Hle|(k & Hk & Hbk & Hsome)]; [lia| |].
    + left. lia.
    + destruct (decide (k = id)) as [->|Hk']; [left; lia|].
      right. exists k. repeat split; try done; lia.
  - destruct (Hw id) as [Hle|(k & Hk & Hbk & Hsome)]; [lia| |].
    + destruct (Nat.ltb_spec 100 (misses + 1)) as [|_]; [lia|].
      apply IH; [lia|].
      intros b Hb. destruct (Hw b) as [Hle'|(k & Hk & Hbk & Hsome)]; [lia| |].
      * left. lia.
      * destruct (decide (k = id)) as [->|Hk'].
        { rewrite Hid in Hsome. by destruct Hsome. }
        right. exists k. repeat split; try done; lia.
    + assert (k = id) as -> by lia. rewrite Hid in Hsome. by destruct Hsome.
Qed.

Lemma scan_finds (dir : directory) prefix (j : nat) :
  1 <= j <= LAST_ID ->
  is_Some (dir !! (prefix +:+ pretty j +:+ ".json")) ->
  (forall b, 101 <= b < j ->
     exists k, b - 100 <= k <= b
               /\ is_Some (dir !! (prefix +:+ pretty k +:+ ".json"))) ->
  prefix +:+ pretty j +:+ ".json" ∈ findFilesByPrefix dir prefix.
Proof.
  intros Hj Hsome Hw. rewrite findFilesByPrefix_eq.
  apply probe_finds; [done|lia|].
  intros b Hb. destruct (decide (b <= 100)) as [|Hbig]; [left; lia|].
  destruct (Hw b) as (k & Hk & Hfile); [lia|].
  right. exists k. repeat split; try done; lia.
Qed.

(** The files the scan lists are in the order of their ids. *)
Lemma probe_sorted (dir : directory) prefix : forall remaining id misses,
  exists ids,
    probe dir prefix remaining id misses
    = map (fun j => prefix +:+ pretty j +:+ ".json") ids
    /\ StronglySorted lt ids
    /\ Forall (fun j => id <= j < id + remaining
                        /\ is_Some (dir !! (prefix +:+ pretty j +:+ ".json")))
              ids.
Proof.
  induction remaining as [|remaining IH]; intros id misses.
  { exists []. repeat split; constructor. }
  simpl.
  destruct (dir !! (prefix +:+ pretty id +:+ ".json")) as [content|] eqn:Hid.
  - destruct (IH (S id) 0) as (ids & -> & Hsorted & Hall).
    exists (id :: ids). split; [done|]. split.
    + constructor; [done|]. eapply Forall_impl; [exact Hall|].
      intros j [Hj _]. lia.
    + constructor; [split; [lia|by rewrite Hid]|].
      eapply Forall_impl; [exact Hall|]. intros j [Hj Hsome].
      split; [lia|done].
  - destruct (Nat.ltb 100 (misses + 1)).
    { exists []. repeat split; constructor. }
    destruct (IH (S id) (misses + 1)) as (ids & -> & Hsorted & Hall).
    exists ids. split; [done|]. split; [done|].
    eapply Forall_impl; [exact Hall|]. intros j [Hj Hsome].
    split; [lia|done].
Qed.

(** Once the files it lists are removed, the scan lists nothing. *)
Lemma scan_after_removal (dir : directory) prefix :
  findFilesByPrefix (remove_all dir (findFilesByPrefix dir prefix)) prefix = [].
Proof.
  rewrite (findFilesByPrefix_eq (remove_all _ _)).
  apply (probe_gap _ prefix 100); [done| |].
  { change LAST_ID with (101 + 9899). lia. }
  intros j Hj.
  destruct (dir !! (prefix +:+ pretty j +:+ ".json")) as [content|] eqn:Hd.
  - apply remove_all_lookup_in. apply scan_finds.
    + change LAST_ID with (101 + 9899). lia.
    + by rewrite Hd.
    + intros b Hb. lia.
  - destruct (decide (prefix +:+ pretty j +:+ ".json"
                      ∈ findFilesByPrefix dir prefix)) as [Hin|Hout].
    + by apply remove_all_lookup_in.
    + by rewrite remove_all_lookup_notin.
Qed.

End scan_facts.

Module lifecycle_facts.
Import server server_facts scan_facts.

Lemma request_file_not_response_file (i j : nat) :
  "req_" +:+ pretty i +:+ ".json" <> "resp_" +:+ pretty j +:+ ".json".
Proof. simpl. by intros [=]. Qed.

(** Removing the files one scan lists does not change what a scan for
    another kind of file finds. *)
Lemma scan_req_after_resp_removal (dir : directory) :
  findFilesByPrefix (remove_all dir (findFilesByPrefix dir "resp_")) "req_"
  = findFilesByPrefix dir "req_".
Proof.
  rewrite !(findFilesByPrefix_eq _ "req_"). apply probe_ext. intros j.
  apply remove_all_lookup_notin. intros Hin.
  rewrite findFilesByPrefix_eq in Hin.
  apply probe_elem in Hin as (k & _ & Heq & _).
  by apply request_file_not_response_file in Heq.
Qed.

Lemma scan_resp_after_req_removal (dir : directory) :
  findFilesByPrefix (remove_all dir (findFilesByPrefix dir "req_")) "resp_"
  = findFilesByPrefix dir "resp_".
Proof.
  rewrite !(findFilesByPrefix_eq _ "resp_"). apply probe_ext. intros j.
  apply remove_all_lookup_notin. intros Hin.
  rewrite findFilesByPrefix_eq in Hin.
  apply probe_elem in Hin as (k & _ & Heq & _).
  symmetry in Heq. by apply request_file_not_response_file in Heq.
Qed.

(** A scan does not see a change to a file of another name. *)
Lemma scan_other_files (dir dir' : directory) prefix :
  (forall j : nat, dir' !! (prefix +:+ pretty j +:+ ".json")
                   = dir !! (prefix +:+ pretty j +:+ ".json")) ->
  findFilesByPrefix dir' prefix = findFilesByPrefix dir prefix.
Proof. intros Hsame. rewrite !findFilesByPrefix_eq. by apply probe_ext. Qed.

Lemma test_file_gone (dir : directory) name :
  name <> ".mcp_test" -> name <> ".mcp_test.tmp" ->
  delete ".mcp_test" (writeFile dir ".mcp_test" "ok") !! name = dir !! name.
Proof.
  intros H1 H2. rewrite lookup_delete_ne by done. by apply writeFile_other.
Qed.

End lifecycle_facts.

(** ** json.lua: what the decoder builds and what the encoder refuses *)

Module json_shape_facts.
Import json json_facts json_values.

Lemma json_shaped_array arr :
  json_shaped (VTable arr []) = forallb json_shaped arr.
Proof. destruct arr; simpl; by rewrite ?andb_true_r. Qed.

Lemma json_shaped_object fs :
  json_shaped (VTable [] fs) = forallb (fun kv => json_shaped (snd kv)) fs.
Proof. rewrite <- (all_forallb json_shaped fs). by destruct fs. Qed.

Lemma remove_key_shaped k fs :
  forallb (fun kv => json_shaped (snd kv)) fs = true ->
  forallb (fun kv => json_shaped (snd kv)) (remove_key k fs) = true.
Proof.
  induction fs as [|[k' v'] fs IH]; simpl; [done|].
  intros [Hv Hfs]%andb_true_iff.
  destruct (String.eqb k k'); simpl; [by apply IH|].
  by rewrite Hv, IH.
Qed.

Lemma set_key_shaped k v fs :
  json_shaped v = true ->
  forallb (fun kv => json_shaped (snd kv)) fs = true ->
  forallb (fun kv => json_shaped (snd kv)) (set_key k v fs) = true.
Proof.
  intros Hv. induction fs as [|[k' v'] fs IH]; simpl.
  - destruct (is_nil v); simpl; [done|by rewrite Hv].
  - intros [Hv' Hfs]%andb_true_iff.
    destruct (String.eqb k k').
    + destruct (is_nil v); simpl; rewrite ?Hv; by apply remove_key_shaped.
    + simpl. by rewrite Hv', IH.
Qed.

Section decoder.
Context `{CRuntime}.
#[local] Arguments literal : simpl never.
#[local] Arguments is_char : simpl never.
#[local] Arguments is_digit : simpl never.
#[local] Arguments decode_string : simpl never.
#[local] Arguments decode_number : simpl never.
#[local] Arguments skip_ws : simpl never.
#[local] Arguments set_key : simpl never.
#[local] Arguments json_shaped : simpl never.

Lemma decode_number_is_number s v rest :
  decode_number s = Some (v, rest) -> exists n, v = VNum n.
Proof.
  unfold decode_number. intros Hd.
  destruct (optional _ s) as [sign s1].
  destruct (span is_digit s1) as [int s2].
  destruct (is_empty int); [done|].
  destruct (optional _ s2) as [dot s3].
  destruct (span is_digit s3) as [frac s4].
  destruct (optional _ s4) as [e s5].
  destruct (optional _ s5) as [esign s6].
  destruct (span is_digit s6) as [exp s7].
  destruct (tonumber sign int dot frac e esign exp) as [val|]; [|done].
  simpl in Hd. exists val.
  destruct (int +:+ dot +:+ frac +:+ e +:+ esign +:+ exp) as [|c1 [|c2 ?]];
    try (by injection Hd as <- _).
  destruct (_ && _); [done|]. by injection Hd as <- _.
Qed.

Lemma decode_shaped n :
  (forall s v rest, decode_value n s = Some (v, rest) -> json_shaped v = true)
  /\ (forall s arr v rest,
        array_loop n s arr = Some (v, rest) ->
        forallb json_shaped arr = true -> json_shaped v = true)
  /\ (forall s obj v rest,
        object_loop n s obj = Some (v, rest) ->
        forallb (fun kv => json_shaped (snd kv)) obj = true ->
        json_shaped v = true).
Proof.
  induction n as [|n (IHv & IHa & IHo)]; [by repeat split|].
  split; [|split].
  - intros s v rest Hd. simpl in Hd.
    destruct (skip_ws s) as [|c here]; [done|].
    destruct (is_char c 34).
    { destruct (decode_string (String c here)) as [[str r]|]; [|done].
      simpl in Hd. by injection Hd as <- _. }
    destruct (is_char c 123).
    { destruct (skip_ws here) as [|c' rest'].
      - by apply IHo in Hd.
      - destruct (is_char c' 125); [by injection Hd as <- _|].
        by apply IHo in Hd. }
    destruct (is_char c 91).
    { destruct (skip_ws here) as [|c' rest'].
      - by apply IHa in Hd.
      - destruct (is_char c' 93); [by injection Hd as <- _|].
        by apply IHa in Hd. }
    destruct (is_char c 45 || is_digit c).
    { by apply decode_number_is_number in Hd as [? ->]. }
    destruct (is_char c 116).
    { destruct (literal "true" (String c here)); [|done].
      simpl in Hd. by injection Hd as <- _. }
    destruct (is_char c 102).
    { destruct (literal "false" (String c here)); [|done].
      simpl in Hd. by injection Hd as <- _. }
    destruct (is_char c 110); [|done].
    destruct (literal "null" (String c here)); [|done].
    simpl in Hd. by injection Hd as <- _.
  - intros s arr v rest Hd Harr. simpl in Hd.
    destruct (decode_value n s) as [[val s1]|] eqn:Hv; [|done].
    apply IHv in Hv. simpl in Hd.
    assert (forallb json_shaped (arr ++ [val]) = true) as Harr'.
    { rewrite forallb_app, Harr. simpl. by rewrite Hv. }
    destruct (skip_ws s1) as [|c r]; [done|].
    destruct (is_char c 93).
    { injection Hd as <- _. by rewrite json_shaped_array. }
    destruct (is_char c 44); [|done].
    destruct (skip_ws r) as [|c' r'].
    + by apply IHa in Hd.
    + destruct (is_char c' 93); [done|]. by apply IHa in Hd.
  - intros s obj v rest Hd Hobj. simpl in Hd.
    destruct (decode_string (skip_ws s)) as [[key s1]|]; [|done].
    simpl in Hd.
    destruct (skip_ws s1) as [|colon s2]; [done|].
    destruct (is_char colon 58); [|done].
    destruct (decode_value n (skip_ws s2)) as [[val s3]|] eqn:Hv; [|done].
    apply IHv in Hv. simpl in Hd.
    pose proof (set_key_shaped key val obj Hv Hobj) as Hobj'.
    destruct (skip_ws s3) as [|c r]; [done|].
    destruct (is_char c 125).
    { injection Hd as <- _. by rewrite json_shaped_object. }
    destruct (is_char c 44); [|done].
    destruct (skip_ws r) as [|c' r'].
    + by apply IHo in Hd.
    + destruct (is_char c' 125); [done|]. by apply IHo in Hd.
Qed.

Lemma decode_is_shaped text v : decode text = Ok v -> json_shaped v = true.
Proof.
  unfold decode. intros Hd.
  destruct (is_empty text); [done|].
  destruct (decode_value _ text) as [[val rest]|] eqn:Hv; [|done].
  destruct (is_empty (skip_ws rest)); [|done].
  injection Hd as <-.
  destruct (decode_shaped (2 * String.length text + 2)) as (Hshape & _ & _).
  by apply Hshape in Hv.
Qed.

End decoder.

Section encoder.
Context `{CRuntime}.

Lemma collect_ok_inv (l : list (res string)) ps :
  collect l = Ok ps -> Forall (fun r => exists s, r = Ok s) l.
Proof.
  revert ps. induction l as [|[p|m] l IH]; intros ps Hc; simpl in Hc;
    [constructor| |done].
  destruct (collect l) as [ps'|]; [|done].
  constructor; [by eexists|by eapply IH].
Qed.

Lemma collect_raise (l : list (res string)) :
  Exists (fun r => exists m, r = Raise m) l -> exists m, collect l = Raise m.
Proof.
  induction 1 as [r l [m ->]|[p|m0] l _ [m IH]]; simpl.
  - by eexists.
  - rewrite IH. by eexists.
  - by eexists.
Qed.

Lemma encoder_accepts_object arr f fs :
  encoder_accepts (VTable arr (f :: fs))
  = forallb (fun kv => encoder_accepts (snd kv)) (f :: fs).
Proof. rewrite <- (all_forallb encoder_accepts (f :: fs)). reflexivity. Qed.

Lemma encode_value_decides (v : value) :
  if encoder_accepts v
  then exists text, encode_value v = Ok text
  else exists m, encode_value v = Raise m.
Proof.
  induction v as [|b|n|s|arr fields IHarr IHfields| |] using value_nested_ind.
  - by eexists.
  - by eexists.
  - destruct n as [z|g|[]|]; simpl; try by eexists.
    destruct (math_abs z <? two_53)%Z; by eexists.
  - by eexists.
  - destruct fields as [|f fs].
    + cbn [encoder_accepts encode_value].
      destruct (forallb encoder_accepts arr) eqn:Hacc.
      * destruct (encode_facts.collect_ok (map encode_value arr)) as [ps ->].
        { apply Forall_forall. intros r Hr.
          apply list_elem_of_fmap in Hr as (v & -> & Hv).
          rewrite Forall_forall in IHarr. specialize (IHarr v Hv).
          rewrite (proj1 (forallb_forall _ _) Hacc v) in IHarr
            by (by apply list_elem_of_In).
          exact IHarr. }
        destruct ps; by eexists.
      * destruct (collect_raise (map encode_value arr)) as [m ->];
          [|by eexists].
        apply Exists_exists.
        assert (exists v, v ∈ arr /\ encoder_accepts v = false)
          as (v & Hv & Hno).
        { clear IHarr. induction arr as [|a arr IH]; [done|].
          simpl in Hacc. apply andb_false_iff in Hacc as [Ha|Harr].
          - exists a. split; [apply elem_of_cons; by left|done].
          - destruct (IH Harr) as (v & Hv & Hno). exists v.
            split; [apply elem_of_cons; by right|done]. }
        exists (encode_value v).
        split; [apply list_elem_of_fmap; by exists v|].
        rewrite Forall_forall in IHarr. specialize (IHarr v Hv).
        by rewrite Hno in IHarr.
    + rewrite encoder_accepts_object, encode_value_object.
      rewrite sort_by_key_map, map_map. cbn [fst snd].
      set (fields := f :: fs) in *.
      destruct (forallb _ fields) eqn:Hacc.
      * destruct (encode_facts.collect_ok
                    (map (fun kv : string * value =>
                            match encode_value (snd kv) with
                            | Ok j => Ok (encode_string (fst kv) +:+ ":" +:+ j)
                            | Raise m => Raise m
                            end) (sort_by_key fields))) as [ps ->];
          [|by eexists].
        apply Forall_forall. intros r Hr.
        apply list_elem_of_fmap in Hr as (kv & -> & Hkv).
        rewrite sort_by_key_perm in Hkv.
        rewrite Forall_forall in IHfields. specialize (IHfields kv Hkv).
        rewrite (proj1 (forallb_forall _ _) Hacc kv) in IHfields
          by (by apply list_elem_of_In).
        destruct IHfields as [j ->]. by eexists.
      * destruct (collect_raise
                    (map (fun kv : string * value =>
                            match encode_value (snd kv) with
                            | Ok j => Ok (encode_string (fst kv) +:+ ":" +:+ j)
                            | Raise m => Raise m
                            end) (sort_by_key fields))) as [m ->];
          [|by eexists].
        apply Exists_exists.
        assert (exists kv, kv ∈ fields /\ encoder_accepts (snd kv) = false)
          as (kv & Hkv & Hno).
        { clear IHfields. revert Hacc. generalize fields. clear fields.
          intros fields. induction fields as [|a fields IH]; [done|].
          simpl. intros Hacc. apply andb_false_iff in Hacc as [Ha|Hrest].
          - exists a. split; [apply elem_of_cons; by left|done].
          - destruct (IH Hrest) as (kv & Hkv & Hno). exists kv.
            split; [apply elem_of_cons; by right|done]. }
        rewrite Forall_forall in IHfields. specialize (IHfields kv Hkv).
        rewrite Hno in IHfields. destruct IHfields as [m Hm].
        eexists. split.
        { apply list_elem_of_fmap. exists kv. split; [reflexivity|].
          by rewrite sort_by_key_perm. }
        cbn beta. rewrite Hm. by eexists.
  - by eexists.
  - by eexists.
Qed.

Lemma collect_raise_inv (l : list (res string)) m :
  collect l = Raise m -> Raise m ∈ l.
Proof.
  induction l as [|[p|m0] l IH]; simpl; [done| |].
  - destruct (collect l) as [ps|m1]; [done|].
    intros [= ->]. apply elem_of_cons. right. by apply IH.
  - intros [= ->]. apply elem_of_cons. by left.
Qed.

(** What the encoder raises is one of its four refusals, with the position
    of the line that raises it. *)
Lemma encode_value_refusal (v : value) m :
  encode_value v = Raise m ->
  m = where_json 78 +:+ "cannot encode NaN as JSON"
  \/ m = where_json 80 +:+ "cannot encode Infinity as JSON"
  \/ m = where_json 82 +:+ "cannot encode -Infinity as JSON"
  \/ m = where_json 222 +:+ "cannot encode value of type function as JSON".
Proof.
  revert m.
  induction v as [|b|n|s|arr fields IHarr IHfields| |] using value_nested_ind;
    intros m Hm; try done.
  - destruct n as [z|g|[]|]; simpl in Hm.
    + by destruct (math_abs z <? two_53)%Z.
    + done.
    + injection Hm as <-. by right; right; left.
    + injection Hm as <-. by right; left.
    + injection Hm as <-. by left.
  - destruct fields as [|f fs].
    + cbn [encode_value] in Hm.
      destruct (collect (map encode_value arr)) as [ps|m'] eqn:Hc;
        [by destruct ps|].
      injection Hm as <-. apply collect_raise_inv in Hc.
      apply list_elem_of_fmap in Hc as (v & Hv & Hin).
      rewrite Forall_forall in IHarr. by apply (IHarr v Hin).
    + rewrite encode_value_object in Hm.
      destruct (collect _) as [ps|m'] eqn:Hc; [done|].
      injection Hm as <-. apply collect_raise_inv in Hc.
      apply list_elem_of_fmap in Hc as (kv & Hkv & Hin).
      rewrite sort_by_key_map in Hin.
      apply list_elem_of_fmap in Hin as (kv' & -> & Hin').
      rewrite sort_by_key_perm in Hin'. cbn [fst snd] in Hkv.
      rewrite Forall_forall in IHfields.
      destruct (encode_value (snd kv')) as [j|m''] eqn:He; [done|].
      injection Hkv as ->. by apply (IHfields kv' Hin').
  - injection Hm as <-. by right; right; right.
Qed.

End encoder.
End json_shape_facts.

(** ** json.lua: white space around a text *)

Module json_blank_facts.
Import json json_facts json_strings json_values.

Lemma blank_cons c (t : string) :
  blank (String c t) = true -> is_ws c = true /\ blank t = true.
Proof. unfold blank. simpl. by intros [? ?]%andb_true_iff. Qed.

Lemma skip_ws_blank (t : string) : blank t = true -> skip_ws t = "".
Proof.
  induction t as [|c t IH]; [done|].
  intros [Hc Ht]%blank_cons. simpl. rewrite Hc. by apply IH.
Qed.

Lemma skip_ws_app_blank (lead s : string) :
  blank lead = true -> skip_ws (lead +:+ s) = skip_ws s.
Proof.
  induction lead as [|c lead IH]; [done|].
  intros [Hc Ht]%blank_cons. rewrite string_cons_app. simpl. rewrite Hc.
  by apply IH.
Qed.

Lemma skip_ws_app_cons (s t : string) c r :
  skip_ws s = String c r -> skip_ws (s +:+ t) = String c (r +:+ t).
Proof.
  induction s as [|a s IH]; [done|].
  rewrite string_cons_app. simpl.
  destruct (is_ws a); [exact IH|]. by intros [= <- <-].
Qed.

Lemma skip_ws_app_nil (s t : string) :
  blank t = true -> skip_ws s = "" -> skip_ws (s +:+ t) = "".
Proof.
  intros Ht. induction s as [|a s IH]; [intros _; by apply skip_ws_blank|].
  rewrite string_cons_app. simpl. destruct (is_ws a); [exact IH|done].
Qed.

Lemma literal_app_r (lit s t r : string) :
  literal lit s = Some r -> literal lit (s +:+ t) = Some (r +:+ t).
Proof.
  revert s. induction lit as [|a lit IH]; intros s Hl; simpl in Hl.
  - by injection Hl as <-.
  - destruct s as [|b s]; [done|]. rewrite string_cons_app. simpl.
    destruct (Ascii.eqb a b); [by apply IH|done].
Qed.

Lemma hex4_app_r (s t : string) n r :
  hex4 s = Some (n, r) -> hex4 (s +:+ t) = Some (n, r +:+ t).
Proof.
  unfold hex4. intros Hh.
  destruct s as [|a [|b [|c [|d s]]]]; try done.
  rewrite !string_cons_app.
  destruct (hex_value a); [|done]. destruct (hex_value b); [|done].
  destruct (hex_value c); [|done]. destruct (hex_value d); [|done].
  simpl in *. by injection Hh as <- <-.
Qed.

Lemma decode_unicode_escape_app_r (s t : string) bytes r :
  decode_unicode_escape s = Some (bytes, r) ->
  decode_unicode_escape (s +:+ t) = Some (bytes, r +:+ t).
Proof.
  unfold decode_unicode_escape. intros Hd.
  destruct (hex4 s) as [[cp rest]|] eqn:Hh; [|done].
  rewrite (hex4_app_r s t cp rest Hh). simpl in *.
  destruct ((55296 <=? cp)%N && (cp <=? 56319)%N).
  - destruct rest as [|b [|u rest2]]; try done.
    rewrite !string_cons_app.
    destruct (is_char b 92 && is_char u 117); [|done].
    destruct (hex4 rest2) as [[low rest3]|] eqn:Hl; [|done].
    rewrite (hex4_app_r rest2 t low rest3 Hl). simpl in *.
    destruct ((low <? 56320)%N || (57343 <? low)%N); [done|].
    destruct (utf8 _); [|done]. simpl in *. by injection Hd as <- <-.
  - destruct ((56320 <=? cp)%N && (cp <=? 57343)%N); [done|].
    destruct (utf8 cp); [|done]. simpl in *. by injection Hd as <- <-.
Qed.

Lemma string_body_app_r (t : string) : forall n s acc text rest m,
  string_body n s acc = Some (text, rest) ->
  n <= m ->
  string_body m (s +:+ t) acc = Some (text, rest +:+ t).
Proof.
  induction n as [|n IH]; intros s acc text rest m Hb Hm; [done|].
  destruct m as [|m]; [lia|]. simpl in Hb.
  destruct s as [|c s]; [done|]. rewrite string_cons_app. simpl.
  destruct (is_char c 34); [by injection Hb as <- <-|].
  destruct (is_char c 92).
  - destruct s as [|esc s]; [done|]. rewrite string_cons_app.
    destruct (is_char esc 117).
    + destruct (decode_unicode_escape s) as [[decoded new_rest]|] eqn:Hu;
        [|done].
      rewrite (decode_unicode_escape_app_r s t _ _ Hu). simpl in *.
      apply IH; [done|lia].
    + destruct (escape_char_decode esc); [|done]. apply IH; [done|lia].
  - destruct (Nat.ltb (code c) 32); [done|]. apply IH; [done|lia].
Qed.

Lemma decode_string_app_r (s t : string) text rest :
  decode_string s = Some (text, rest) ->
  decode_string (s +:+ t) = Some (text, rest +:+ t).
Proof.
  unfold decode_string. destruct s as [|c s]; [done|].
  rewrite string_cons_app. destruct (is_char c 34); [|done].
  intros Hb. eapply string_body_app_r; [exact Hb|].
  simpl. rewrite string_length_app. lia.
Qed.

Lemma span_app_r p (s t : string) :
  (forall c r, t = String c r -> p c = false) ->
  span p (s +:+ t) = (fst (span p s), snd (span p s) +:+ t).
Proof.
  intros Ht. induction s as [|a s IH].
  - change ("" +:+ t) with t. destruct t as [|c r]; [done|].
    simpl. by rewrite (Ht c r).
  - rewrite string_cons_app. simpl. destruct (p a); [|done].
    rewrite IH. by destruct (span p s).
Qed.

Lemma optional_app_r p (s t : string) :
  (forall c r, t = String c r -> p c = false) ->
  optional p (s +:+ t) = (fst (optional p s), snd (optional p s) +:+ t).
Proof.
  intros Ht. destruct s as [|a s].
  - change ("" +:+ t) with t. destruct t as [|c r]; [done|].
    simpl. by rewrite (Ht c r).
  - rewrite string_cons_app. simpl. by destruct (p a).
Qed.

Lemma ws_is_no_number_character c :
  is_ws c = true ->
  is_digit c = false /\ is_char c 45 = false /\ is_char c 46 = false
  /\ is_char c 101 || is_char c 69 = false
  /\ is_char c 43 || is_char c 45 = false.
Proof.
  unfold is_ws, is_digit, is_char. intros Hc.
  repeat (apply orb_true_iff in Hc as [Hc|Hc]);
    apply Nat.eqb_eq in Hc; by rewrite Hc.
Qed.

Lemma decode_number_app_r `{CRuntime} (s t : string) v rest :
  blank t = true ->
  decode_number s = Some (v, rest) ->
  decode_number (s +:+ t) = Some (v, rest +:+ t).
Proof.
  intros Ht.
  assert (forall c r, t = String c r ->
            is_digit c = false /\ is_char c 45 = false
            /\ is_char c 46 = false
            /\ is_char c 101 || is_char c 69 = false
            /\ is_char c 43 || is_char c 45 = false) as Hhead.
  { intros c r ->. apply ws_is_no_number_character.
    by apply blank_cons in Ht as [? _]. }
  unfold decode_number.
  rewrite optional_app_r
    by (intros c r Heq; by destruct (Hhead c r Heq) as (? & ? & ? & ? & ?)).
  destruct (optional _ s) as [sign s1]. cbn [fst snd].
  rewrite span_app_r
    by (intros c r Heq; by destruct (Hhead c r Heq) as (? & ? & ? & ? & ?)).
  destruct (span is_digit s1) as [int s2]. cbn [fst snd].
  destruct (is_empty int); [done|].
  rewrite optional_app_r
    by (intros c r Heq; by destruct (Hhead c r Heq) as (? & ? & ? & ? & ?)).
  destruct (optional _ s2) as [dot s3]. cbn [fst snd].
  rewrite span_app_r
    by (intros c r Heq; by destruct (Hhead c r Heq) as (? & ? & ? & ? & ?)).
  destruct (span is_digit s3) as [frac s4]. cbn [fst snd].
  rewrite optional_app_r
    by (intros c r Heq; by destruct (Hhead c r Heq) as (? & ? & ? & ? & ?)).
  destruct (optional _ s4) as [e s5]. cbn [fst snd].
  rewrite optional_app_r
    by (intros c r Heq; by destruct (Hhead c r Heq) as (? & ? & ? & ? & ?)).
  destruct (optional _ s5) as [esign s6]. cbn [fst snd].
  rewrite span_app_r
    by (intros c r Heq; by destruct (Hhead c r Heq) as (? & ? & ? & ? & ?)).
  destruct (span is_digit s6) as [exp s7]. cbn [fst snd].
  destruct (tonumber sign int dot frac e esign exp) as [val|]; [|done].
  cbn [mbind option_bind].
  destruct (int +:+ dot +:+ frac +:+ e +:+ esign +:+ exp) as [|c1 [|c2 ?]];
    try (by intros [= <- <-]).
  destruct (_ && _); [done|]. by intros [= <- <-].
Qed.

Section decoder.
Context `{CRuntime}.
#[local] Arguments literal : simpl never.
#[local] Arguments is_char : simpl never.
#[local] Arguments is_digit : simpl never.
#[local] Arguments decode_string : simpl never.
#[local] Arguments decode_number : simpl never.
#[local] Arguments skip_ws : simpl never.
#[local] Arguments set_key : simpl never.

(** More fuel reads the same value. *)
Lemma decode_mono n :
  (forall s r m, decode_value n s = Some r -> n <= m ->
                 decode_value m s = Some r)
  /\ (forall s arr r m, array_loop n s arr = Some r -> n <= m ->
                        array_loop m s arr = Some r)
  /\ (forall s obj r m, object_loop n s obj = Some r -> n <= m ->
                        object_loop m s obj = Some r).
Proof.
  induction n as [|n (IHv & IHa & IHo)]; [by repeat split|].
  split; [|split].
  - intros s r [|m] Hd Hm; [lia|]. simpl in *.
    destruct (skip_ws s) as [|c here]; [done|].
    destruct (is_char c 34); [done|].
    destruct (is_char c 123).
    { destruct (skip_ws here) as [|c' rest']; [apply IHo; [done|lia]|].
      destruct (is_char c' 125); [done|]. apply IHo; [done|lia]. }
    destruct (is_char c 91); [|done].
    destruct (skip_ws here) as [|c' rest']; [apply IHa; [done|lia]|].
    destruct (is_char c' 93); [done|]. apply IHa; [done|lia].
  - intros s arr r [|m] Hd Hm; [lia|]. simpl in *.
    destruct (decode_value n s) as [[val s1]|] eqn:Hv; [|done].
    rewrite (IHv s (val, s1) m Hv) by lia. simpl in *.
    destruct (skip_ws s1) as [|c r']; [done|].
    destruct (is_char c 93); [done|].
    destruct (is_char c 44); [|done].
    destruct (skip_ws r') as [|c' r'']; [apply IHa; [done|lia]|].
    destruct (is_char c' 93); [done|]. apply IHa; [done|lia].
  - intros s obj r [|m] Hd Hm; [lia|]. simpl in *.
    destruct (decode_string (skip_ws s)) as [[key s1]|]; [|done].
    simpl in *.
    destruct (skip_ws s1) as [|colon s2]; [done|].
    destruct (is_char colon 58); [|done].
    destruct (decode_value n (skip_ws s2)) as [[val s3]|] eqn:Hv; [|done].
    rewrite (IHv _ (val, s3) m Hv) by lia. simpl in *.
    destruct (skip_ws s3) as [|c r']; [done|].
    destruct (is_char c 125); [done|].
    destruct (is_char c 44); [|done].
    destruct (skip_ws r') as [|c' r'']; [apply IHo; [done|lia]|].
    destruct (is_char c' 125); [done|]. apply IHo; [done|lia].
Qed.

Lemma decode_nothing n :
  decode_value n "" = None
  /\ (forall arr, array_loop n "" arr = None)
  /\ (forall obj, object_loop n "" obj = None).
Proof.
  destruct n as [|n]; [done|].
  split; [done|]. split; [|done].
  intros arr. simpl. by destruct n.
Qed.

(** White space behind a text is left behind the value. *)
Lemma decode_app_blank (t : string) :
  blank t = true ->
  forall n,
    (forall s v rest, decode_value n s = Some (v, rest) ->
                      decode_value n (s +:+ t) = Some (v, rest +:+ t))
    /\ (forall s arr v rest, array_loop n s arr = Some (v, rest) ->
                             array_loop n (s +:+ t) arr = Some (v, rest +:+ t))
    /\ (forall s obj v rest, object_loop n s obj = Some (v, rest) ->
                             object_loop n (s +:+ t) obj
                             = Some (v, rest +:+ t)).
Proof.
  intros Ht. induction n as [|n (IHv & IHa & IHo)]; [by repeat split|].
  destruct (decode_nothing n) as (Hnv & Hna & Hno).
  split; [|split].
  - intros s v rest Hd. simpl in *.
    destruct (skip_ws s) as [|c here] eqn:Hs; [done|].
    rewrite (skip_ws_app_cons s t c here Hs).
    destruct (is_char c 34).
    { destruct (decode_string (String c here)) as [[str r]|] eqn:Hstr; [|done].
      rewrite <- string_cons_app.
      rewrite (decode_string_app_r _ t _ _ Hstr). simpl in *.
      by injection Hd as <- <-. }
    destruct (is_char c 123).
    { destruct (skip_ws here) as [|c' rest'] eqn:Hs'.
      - by rewrite Hno in Hd.
      - rewrite (skip_ws_app_cons here t c' rest' Hs').
        destruct (is_char c' 125); [by injection Hd as <- <-|].
        rewrite <- string_cons_app. by apply IHo. }
    destruct (is_char c 91).
    { destruct (skip_ws here) as [|c' rest'] eqn:Hs'.
      - by rewrite Hna in Hd.
      - rewrite (skip_ws_app_cons here t c' rest' Hs').
        destruct (is_char c' 93); [by injection Hd as <- <-|].
        rewrite <- string_cons_app. by apply IHa. }
    destruct (is_char c 45 || is_digit c).
    { rewrite <- string_cons_app. by apply decode_number_app_r. }
    destruct (is_char c 116).
    { destruct (literal "true" (String c here)) as [r|] eqn:Hl; [|done].
      rewrite <- string_cons_app, (literal_app_r _ _ t r Hl). simpl in *.
      by injection Hd as <- <-. }
    destruct (is_char c 102).
    { destruct (literal "false" (String c here)) as [r|] eqn:Hl; [|done].
      rewrite <- string_cons_app, (literal_app_r _ _ t r Hl). simpl in *.
      by injection Hd as <- <-. }
    destruct (is_char c 110); [|done].
    destruct (literal "null" (String c here)) as [r|] eqn:Hl; [|done].
    rewrite <- string_cons_app, (literal_app_r _ _ t r Hl). simpl in *.
    by injection Hd as <- <-.
  - intros s arr v rest Hd. simpl in *.
    destruct (decode_value n s) as [[val s1]|] eqn:Hv; [|done].
    rewrite (IHv s val s1 Hv). simpl in *.
    destruct (skip_ws s1) as [|c r] eqn:Hs1; [done|].
    rewrite (skip_ws_app_cons s1 t c r Hs1).
    destruct (is_char c 93); [by injection Hd as <- <-|].
    destruct (is_char c 44); [|done].
    destruct (skip_ws r) as [|c' r'] eqn:Hs2.
    + by rewrite Hna in Hd.
    + rewrite (skip_ws_app_cons r t c' r' Hs2).
      destruct (is_char c' 93); [done|].
      rewrite <- string_cons_app. by apply IHa.
  - intros s obj v rest Hd. simpl in *.
    destruct (skip_ws s) as [|k0 s0] eqn:Hs; [done|].
    rewrite (skip_ws_app_cons s t k0 s0 Hs).
    destruct (decode_string (String k0 s0)) as [[key s1]|] eqn:Hk; [|done].
    rewrite <- string_cons_app, (decode_string_app_r _ t _ _ Hk). simpl in *.
    destruct (skip_ws s1) as [|colon s2] eqn:Hs1; [done|].
    rewrite (skip_ws_app_cons s1 t colon s2 Hs1).
    destruct (is_char colon 58); [|done].
    destruct (skip_ws s2) as [|v0 s2'] eqn:Hs2.
    { by rewrite Hnv in Hd. }
    rewrite (skip_ws_app_cons s2 t v0 s2' Hs2).
    destruct (decode_value n (String v0 s2')) as [[val s3]|] eqn:Hv; [|done].
    rewrite <- string_cons_app, (IHv _ val s3 Hv). simpl in *.
    destruct (skip_ws s3) as [|c r] eqn:Hs3; [done|].
    rewrite (skip_ws_app_cons s3 t c r Hs3).
    destruct (is_char c 125); [by injection Hd as <- <-|].
    destruct (is_char c 44); [|done].
    destruct (skip_ws r) as [|c' r'] eqn:Hs4.
    + by rewrite Hno in Hd.
    + rewrite (skip_ws_app_cons r t c' r' Hs4).
      destruct (is_char c' 125); [done|].
      rewrite <- string_cons_app. by apply IHo.
Qed.

Lemma decode_value_lead (lead s : string) n :
  blank lead = true ->
  decode_value n (lead +:+ s) = decode_value n s.
Proof.
  intros Hlead. destruct n as [|n]; [done|].
  simpl. by rewrite skip_ws_app_blank.
Qed.

(** [json.decode] with white space around the text. *)
Lemma decode_blank_around (text lead trail : string) v :
  decode text = Ok v ->
  blank lead = true -> blank trail = true ->
  decode (lead +:+ text +:+ trail) = Ok v.
Proof.
  unfold decode. intros Hd Hlead Htrail.
  destruct text as [|c text]; [done|]. cbn [is_empty] in Hd.
  assert (is_empty (lead +:+ String c text +:+ trail) = false) as ->.
  { destruct lead; [done|done]. }
  destruct (decode_value _ (String c text)) as [[val rest]|] eqn:Hv; [|done].
  destruct (is_empty (skip_ws rest)) eqn:Hrest; [|done].
  injection Hd as ->.
  destruct (decode_app_blank trail Htrail
              (2 * String.length (String c text) + 2)) as (Happ & _ & _).
  apply Happ in Hv.
  rewrite <- (decode_value_lead lead) in Hv by done.
  destruct (decode_mono (2 * String.length (String c text) + 2))
    as (Hmono & _ & _).
  rewrite (Hmono _ _ (2 * String.length (lead +:+ String c text +:+ trail) + 2)
             Hv).
  - rewrite skip_ws_app_nil; [done|done|].
    by destruct (skip_ws rest).
  - rewrite !string_length_app. lia.
Qed.

End decoder.
End json_blank_facts.

Module lifecycle_results.
Import server server_facts scan_facts lifecycle_facts.
Import json_values.

Section results.
Context {World : Type} `{CRuntime}.

(** What [server.start] leaves on a stopped server. *)
Lemma start_result
    ipcDir startedAt (st : state (World := World)) (dir : directory) :
  isRunning st = false ->
  let st' := {| isRunning := true; handlers := handlers st |} in
  exists status dir',
    start ipcDir startedAt None st dir = Ok (None, st', dir')
    /\ dir' !! "status.json" = Some status
    /\ json.decode status
       = Ok (VTable [] [("pid", VStr "moho"); ("running", VBool true);
                        ("startedAt", VStr startedAt);
                        ("version", VStr "0.1.0")])
    /\ findFilesByPrefix dir' "req_" = []
    /\ findFilesByPrefix dir' "resp_" = []
    /\ (forall moho, poll st' moho dir' = Ok (moho, dir'))
    /\ (forall name,
          name ∉ findFilesByPrefix dir "req_" ->
          name ∉ findFilesByPrefix dir "resp_" ->
          name ∉ [".mcp_test"; ".mcp_test.tmp"; "status.json";
                  "status.json.tmp"] ->
          dir' !! name = dir !! name).
Proof.
  intros Hstopped st'.
  destruct (plain_decode (status_table startedAt) eq_refl)
    as (status & Henc & Hdec).
  set (d0 := delete ".mcp_test" (writeFile dir ".mcp_test" "ok")).
  set (d1 := remove_all d0 (findFilesByPrefix d0 "req_")).
  set (d2 := remove_all d1 (findFilesByPrefix d1 "resp_")).
  exists status, (writeFile d2 "status.json" status).
  assert (findFilesByPrefix d0 "req_" = findFilesByPrefix dir "req_") as Hreq0.
  { apply scan_other_files. intros j. apply test_file_gone; simpl; by intros [=]. }
  assert (findFilesByPrefix d1 "resp_" = findFilesByPrefix dir "resp_") as Hresp1.
  { subst d1. rewrite scan_resp_after_req_removal.
    apply scan_other_files. intros j. apply test_file_gone; simpl; by intros [=]. }
  assert (findFilesByPrefix (writeFile d2 "status.json" status) "req_" = [])
    as Hreq.
  { rewrite (scan_other_files d2).
    - subst d2. rewrite scan_req_after_resp_removal. apply scan_after_removal.
    - intros j. apply writeFile_other; simpl; by intros [=]. }
  split.
  { unfold start. rewrite Hstopped. cbn [writeFile_checked].
    fold d0. fold d1. fold d2. by rewrite Henc. }
  split; [apply writeFile_same|].
  split; [exact Hdec|].
  split; [exact Hreq|].
  split.
  { rewrite (scan_other_files d2).
    - apply scan_after_removal.
    - intros j. apply writeFile_other; simpl; by intros [=]. }
  split.
  { intros moho. unfold poll. by rewrite Hreq. }
  intros name Hreqs Hresps Hnames.
  repeat (apply not_elem_of_cons in Hnames as [? Hnames]).
  rewrite writeFile_other by done.
  subst d2. rewrite remove_all_lookup_notin; [|rewrite Hresp1; exact Hresps].
  subst d1. rewrite remove_all_lookup_notin; [|rewrite Hreq0; exact Hreqs].
  by apply test_file_gone.
Qed.

(** What [server.start] does when the write of its test file fails: it
    returns [false] and a message that names the directory, the server
    stays stopped, and no file but the test file and its temporary file is
    touched. *)
Lemma start_refused
    ipcDir startedAt failure (st : state (World := World)) (dir : directory) :
  isRunning st = false ->
  exists err dir',
    start ipcDir startedAt (Some failure) st dir
    = Ok (Some ("Cannot write to IPC directory " +:+ ipcDir +:+ ": " +:+ err),
          st, dir')
    /\ (forall name, name ∉ [".mcp_test"; ".mcp_test.tmp"] ->
                     dir' !! name = dir !! name).
Proof.
  intros Hstopped. unfold start. rewrite Hstopped.
  destruct failure as [err|err]; cbn [writeFile_checked].
  - eexists _, dir. split; [reflexivity|done].
  - eexists _, _. split; [reflexivity|].
    intros name Hname.
    repeat (apply not_elem_of_cons in Hname as [? Hname]).
    rewrite lookup_delete_ne by done. by rewrite lookup_insert_ne.
Qed.

(** What [server.stop] leaves on a running server. *)
Lemma stop_result
    (st : state (World := World)) (dir : directory) :
  isRunning st = true ->
  let st' := {| isRunning := false; handlers := handlers st |} in
  exists dir',
    stop st dir = (st', dir')
    /\ dir' !! "status.json" = None
    /\ findFilesByPrefix dir' "req_" = []
    /\ findFilesByPrefix dir' "resp_" = []
    /\ (forall moho, poll st' moho dir' = Ok (moho, dir'))
    /\ (forall name,
          name ∉ findFilesByPrefix dir "req_" ->
          name ∉ findFilesByPrefix dir "resp_" ->
          name <> "status.json" ->
          dir' !! name = dir !! name).
Proof.
  intros Hrunning st'.
  set (d0 := delete "status.json" dir).
  set (d1 := remove_all d0 (findFilesByPrefix d0 "req_")).
  set (d2 := remove_all d1 (findFilesByPrefix d1 "resp_")).
  exists d2.
  assert (findFilesByPrefix d0 "req_" = findFilesByPrefix dir "req_") as Hreq0.
  { apply scan_other_files. intros j.
    apply lookup_delete_ne. simpl. by intros [=]. }
  assert (findFilesByPrefix d1 "resp_" = findFilesByPrefix dir "resp_") as Hresp1.
  { subst d1. rewrite scan_resp_after_req_removal.
    apply scan_other_files. intros j.
    apply lookup_delete_ne. simpl. by intros [=]. }
  assert (forall names, "status.json" ∉ names ->
            remove_all d0 names !! "status.json" = None) as Hstatus.
  { intros names Hn. rewrite remove_all_lookup_notin by done.
    apply lookup_delete_eq. }
  split; [unfold stop; by rewrite Hrunning|].
  split.
  { subst d2.
    destruct (decide ("status.json" ∈ findFilesByPrefix d1 "resp_"))
      as [Hin|Hout]; [by apply remove_all_lookup_in|].
    rewrite remove_all_lookup_notin by done. subst d1.
    destruct (decide ("status.json" ∈ findFilesByPrefix d0 "req_"))
      as [Hin|Hout']; [by apply remove_all_lookup_in|].
    by apply Hstatus. }
  split.
  { subst d2. rewrite scan_req_after_resp_removal. apply scan_after_removal. }
  split; [apply scan_after_removal|].
  split; [done|].
  intros name Hreqs Hresps Hname.
  subst d2. rewrite remove_all_lookup_notin; [|rewrite Hresp1; exact Hresps].
  subst d1. rewrite remove_all_lookup_notin; [|rewrite Hreq0; exact Hreqs].
  by apply lookup_delete_ne.
Qed.

(** A directory in which the scan finds nothing holds none of the first
    101 files of the kind. *)
Lemma scan_empty_no_file (dir : directory) prefix (j : nat) :
  findFilesByPrefix dir prefix = [] ->
  1 <= j <= 101 ->
  dir !! (prefix +:+ pretty j +:+ ".json") = None.
Proof.
  intros Hscan Hj.
  destruct (dir !! (prefix +:+ pretty j +:+ ".json")) as [content|] eqn:Hd;
    [|done].
  assert (prefix +:+ pretty j +:+ ".json" ∈ findFilesByPrefix dir prefix)
    as Hin.
  { apply scan_finds.
    - change LAST_ID with (101 + 9899). lia.
    - by rewrite Hd.
    - intros b Hb. lia. }
  rewrite Hscan in Hin. by apply elem_of_nil in Hin.
Qed.

End results.
End lifecycle_results.

(** ** json.lua: the order of the keys of an object *)

Module json_order_facts.
Import json json_facts json_values.

Lemma ascii_compare_lt_trans a b c :
  Ascii.compare a b = Lt -> Ascii.compare b c = Lt -> Ascii.compare a c = Lt.
Proof.
  unfold Ascii.compare. rewrite !N.compare_lt_iff. lia.
Qed.

Lemma string_compare_lt_trans : forall a b c : string,
  String.compare a b = Lt -> String.compare b c = Lt ->
  String.compare a c = Lt.
Proof.
  induction a as [|x a IH]; intros [|y b] [|z c]; simpl; try done.
  destruct (Ascii.compare x y) eqn:Hxy; try done;
    destruct (Ascii.compare y z) eqn:Hyz; try done.
  - apply Ascii.compare_eq_iff in Hxy as ->.
    apply Ascii.compare_eq_iff in Hyz as ->.
    assert (Ascii.compare z z = Eq) as ->
      by (unfold Ascii.compare; apply N.compare_refl).
    apply IH.
  - apply Ascii.compare_eq_iff in Hxy as ->. by rewrite Hyz.
  - apply Ascii.compare_eq_iff in Hyz as <-. by rewrite Hxy.
  - by rewrite (ascii_compare_lt_trans x y z).
Qed.

Lemma ltb_trans (a b c : string) :
  String.ltb a b = true -> String.ltb b c = true -> String.ltb a c = true.
Proof.
  unfold String.ltb. intros Hab Hbc.
  destruct (String.compare a b) eqn:H1; try done.
  destruct (String.compare b c) eqn:H2; try done.
  by rewrite (string_compare_lt_trans a b c).
Qed.

Lemma ltb_asym (a b : string) :
  String.ltb a b = true -> String.ltb b a = false.
Proof.
  unfold String.ltb. rewrite (String.compare_antisym b a).
  by destruct (String.compare a b).
Qed.

Lemma ltb_connected (a b : string) :
  a <> b -> String.ltb a b = false -> String.ltb b a = true.
Proof.
  unfold String.ltb. intros Hne. rewrite (String.compare_antisym b a).
  destruct (String.compare a b) eqn:Hc; try done.
  by apply String.compare_eq_iff in Hc.
Qed.

Section sorting.
Context {A : Type}.
Implicit Types (kv : string * A) (l : list (string * A)).

Lemma ltb_above (a b c : string) :
  String.ltb c a = false -> String.ltb c b = true -> String.ltb a b = true.
Proof.
  intros Hca Hcb. destruct (decide (a = c)) as [->|Hne]; [done|].
  apply (ltb_trans _ c); [|done]. by apply ltb_connected.
Qed.

(** Two insertions into a list can be made in either order. *)
Lemma insert_by_key_swap a b l :
  fst a <> fst b ->
  insert_by_key a (insert_by_key b l) = insert_by_key b (insert_by_key a l).
Proof.
  intros Hne.
  induction l as [|c l IH]; cbn [insert_by_key].
  - destruct (String.ltb (fst b) (fst a)) eqn:Hba.
    + by rewrite (ltb_asym _ _ Hba).
    + by rewrite (ltb_connected (fst b) (fst a)) by done.
  - destruct (String.ltb (fst c) (fst b)) eqn:Hcb;
      destruct (String.ltb (fst c) (fst a)) eqn:Hca; cbn [insert_by_key];
      rewrite ?Hcb, ?Hca.
    + by rewrite IH.
    + by rewrite (ltb_above _ _ _ Hca Hcb), ?Hcb.
    + by rewrite (ltb_above _ _ _ Hcb Hca), ?Hca.
    + destruct (String.ltb (fst b) (fst a)) eqn:Hba.
      * rewrite (ltb_asym _ _ Hba). cbn [insert_by_key]. by rewrite ?Hca.
      * rewrite (ltb_connected (fst b) (fst a)) by done.
        cbn [insert_by_key]. by rewrite ?Hcb.
Qed.

Lemma sort_by_key_permutation l l' :
  l ≡ₚ l' -> NoDup (map fst l) -> sort_by_key l = sort_by_key l'.
Proof.
  unfold sort_by_key.
  induction 1 as [|x l l' Hperm IH|x y l|l l' l'' H1 IH1 H2 IH2];
    intros Hdup; simpl.
  - done.
  - apply NoDup_cons in Hdup as [_ Hdup]. by rewrite IH.
  - apply NoDup_cons in Hdup as [Hy Hdup].
    apply NoDup_cons in Hdup as [_ Hdup].
    cbn [map fst] in Hy. apply not_elem_of_cons in Hy as [Hne _].
    by apply insert_by_key_swap.
  - rewrite IH1 by done. apply IH2. by rewrite <- H1.
Qed.

End sorting.
End json_order_facts.
(** ** The envelopes as texts *)

Module envelope_facts.
Import json json_values protocol server server_facts.

Section facts.
Context {World : Type} `{CRuntime}.
Implicit Types (st : @state World).

Lemma plain_number (z : Z) :
  (Z.abs z < two_53)%Z -> plain (VInt z) = true.
Proof. intros Hz. simpl. by apply Z.ltb_lt. Qed.

Lemma error_table_plain id code message :
  plain id = true -> plain message = true -> (Z.abs code < two_53)%Z ->
  plain (error_table id code message VNil) = true.
Proof.
  intros Hid Hmessage Hcode. apply Z.ltb_lt in Hcode.
  destruct id as [| | | |arr fields| |],
    message as [| | | |arr' fields'| |];
    simpl in *; by rewrite ?Hcode, ?Hid, ?Hmessage.
Qed.

Lemma response_table_plain id result :
  plain id = true -> plain result = true ->
  plain (response_table id result) = true.
Proof.
  intros Hid Hresult.
  destruct id as [| | | |arr fields| |], result as [| | | |arr' fields'| |];
    simpl in *; by rewrite ?Hid, ?Hresult.
Qed.




(** An error response with a text as its message, as a reader finds it. *)
Lemma error_response_read id code message :
  plain id = true ->
  (Z.abs code < two_53)%Z ->
  exists text envelope,
    createError id code (VStr message) VNil = Ok text
    /\ decode text = Ok envelope
    /\ field envelope "jsonrpc" = VStr "2.0"
    /\ field envelope "error"
       = VTable [] [("code", VInt code); ("message", VStr message)]
    /\ field envelope "result" = VNil
    /\ field envelope "id" = (if is_nil id then VNil else normal id).
Proof.
  intros Hid Hcode.
  destruct (plain_decode (error_table id code (VStr message) VNil))
    as (text & Henc & Hdec); [by apply error_table_plain|].
  exists text, (normal (error_table id code (VStr message) VNil)).
  split; [exact Henc|]. split; [exact Hdec|].
  destruct id as [| | | |arr fields| |]; by repeat split.
Qed.


End facts.
End envelope_facts.

(** ** The validator *)

Module validator_claims.
Import validator.

Lemma check_fields_first_violation pre f post params :
  (forall g, g ∈ pre ->
     is_nil (field params (name g)) = false
     /\ type (field params (name g)) = ftype g) ->
  check_fields (pre ++ f :: post) params = check_fields (f :: post) params.
Proof.
  induction pre as [|g pre IH]; intros Hpre; [done|].
  destruct (Hpre g ltac:(by left)) as [Hnil Htype].
  simpl. rewrite Hnil, Htype, String.eqb_refl. simpl.
  apply IH. intros g' Hg'. apply Hpre. by right.
Qed.

Lemma check_fields_all_good schema params :
  (forall g, g ∈ schema ->
     is_nil (field params (name g)) = false
     /\ type (field params (name g)) = ftype g) ->
  check_fields schema params = Valid.
Proof.
  induction schema as [|g schema IH]; intros Hall; [done|].
  destruct (Hall g ltac:(by left)) as [Hnil Htype].
  simpl. rewrite Hnil, Htype, String.eqb_refl. simpl.
  apply IH. intros g' Hg'. apply Hall. by right.
Qed.

(** C5: a method with an empty schema is valid with any parameters.  For
    a method with a schema that is not empty the parameters must be a
    table; the fields are then checked in the order of the schema, presence
    before type, and the first field that is missing or has the wrong type
    decides the message, which names that field and says which of the two
    it was.  With the schema of [layer.getProperties], a single [layerId]
    of type number: [{}] fails naming [layerId] as missing, a [layerId]
    that is a string fails naming the type mismatch, a [layerId] that is a
    number passes. *)
Theorem C5_validation_reports_the_first_violation :
  (forall method schema params,
     schema_of method paramSchemas = Some schema ->
     (schema = [] -> validateParams method params = Valid)
     /\ (schema <> [] -> type params <> "table" ->
         validateParams method params
         = Invalid "Missing params: expected a table of parameters")
     /\ (forall pre f post,
           schema = pre ++ f :: post ->
           type params = "table" ->
           (forall g, g ∈ pre ->
              is_nil (field params (name g)) = false
              /\ type (field params (name g)) = ftype g) ->
           (is_nil (field params (name f)) = true ->
              validateParams method params
              = Invalid ("Missing required parameter: " +:+ name f))
           /\ (is_nil (field params (name f)) = false ->
               type (field params (name f)) <> ftype f ->
               validateParams method params
               = Invalid ("Invalid parameter type for '" +:+ name f
                          +:+ "': expected " +:+ ftype f
                          +:+ ", got " +:+ type (field params (name f)))))
     /\ (type params = "table" ->
         (forall g, g ∈ schema ->
            is_nil (field params (name g)) = false
            /\ type (field params (name g)) = ftype g) ->
         validateParams method params = Valid))
  /\ schema_of "layer.getProperties" paramSchemas
     = Some [{| name := "layerId"; ftype := "number" |}]
  /\ validateParams "layer.getProperties" (VTable [] [])
     = Invalid "Missing required parameter: layerId"
  /\ validateParams "layer.getProperties" (record [("layerId", VStr "x")])
     = Invalid "Invalid parameter type for 'layerId': expected number, got string"
  /\ validateParams "layer.getProperties" (record [("layerId", VInt 1)])
     = Valid.
Proof.
  split; [|by repeat split].
  intros method schema params Hschema. unfold validateParams.
  rewrite Hschema. unfold validate_against.
  split; [by intros ->|]. split; [|split].
  - intros Hne Htype. destruct schema as [|g schema]; [done|].
    by destruct (String.eqb_spec (type params) "table").
  - intros pre f post -> Htype Hpre.
    assert (forall rest,
      match pre ++ f :: post with
      | [] => Valid
      | _ :: _ =>
          if negb (String.eqb (type params) "table")
          then Invalid "Missing params: expected a table of parameters"
          else rest
      end = rest) as Hskip.
    { intros rest. rewrite Htype. simpl. by destruct pre. }
    rewrite Hskip, (check_fields_first_violation pre f post params Hpre).
    simpl. split.
    + by intros ->.
    + intros -> Hwrong.
      by destruct (String.eqb_spec (type (field params (name f))) (ftype f)).
  - intros Htype Hall. rewrite Htype. simpl.
    destruct schema; [done|]. by apply check_fields_all_good.
Qed.

End validator_claims.

Module batch_claims.
Import batch batch_facts.
Section claims.
Context {World : Type}.
Implicit Types (handlers : gmap string (handler World)) (st : @loop_state World).

Lemma step_rejected handlers stopOnError st i op :
  stoppedEarly st = false ->
  rejected_before_dispatch handlers op ->
  exists code message,
    step handlers stopOnError st i op = reject stopOnError st i code message.
Proof.
  intros Hs Hrej. unfold step. rewrite Hs.
  destruct (precheck i op) as [[code message]|[method opParams]] eqn:Hp;
    [by eauto|].
  assert (type op = "table" /\ field op "method" = VStr method
          /\ opParams = lua_or (field op "params") (VTable [] [])
          /\ disallowedInBatch method = false
          /\ validator.isAllowed method = true
          /\ validator.validateParams method opParams = validator.Valid)
    as (Ht & Hm & -> & Hd & Ha & Hv).
  { unfold precheck in Hp.
    destruct (String.eqb (type op) "table") eqn:Ht; [|done].
    apply String.eqb_eq in Ht.
    destruct (field op "method") as [| | |m| | |]; try done.
    destruct (disallowedInBatch m) eqn:Hd; [done|].
    destruct (validator.isAllowed m) eqn:Ha; [|done]. simpl in Hp.
    destruct (validator.validateParams m _) eqn:Hv; [|done].
    by simplify_eq. }
  destruct Hrej as [Hrej|[Hrej|(m & Hm' & Hrej)]].
  - done.
  - by rewrite Hm in Hrej.
  - rewrite Hm in Hm'. injection Hm' as <-.
    destruct Hrej as [?|[?|[[e He]|Hnone]]]; try congruence.
    do 2 eexists. rewrite Hnone. reflexivity.
Qed.

(** C10: an operation of a batch that is rejected before a handler is
    called (bad structure, denylisted method, method not on the allow-list,
    invalid parameters, no registered handler) counts as executed and as
    failed although no handler ran; a skipped operation changes no counter;
    after every operation of every batch [executed = succeeded + failed];
    and the summary that [batch.execute] returns says so: its [executed],
    [succeeded] and [failed] are the counters of the loop, with a rejected
    last operation counted in [executed] and in [failed] and a skipped
    one in neither. *)
Theorem C10_rejected_counts_as_executed handlers stopOnError :
  (forall st i op,
      stoppedEarly st = false ->
      rejected_before_dispatch handlers op ->
      let st' := step handlers stopOnError st i op in
      executed st' = executed st + 1
      /\ failed st' = failed st + 1
      /\ succeeded st' = succeeded st
      /\ world st' = world st
      /\ exists e code message,
           results st' = results st ++ [e]
           /\ failed_with e code (VStr message))
  /\ (forall st i op,
        stoppedEarly st = true ->
        let st' := step handlers stopOnError st i op in
        executed st' = executed st
        /\ failed st' = failed st
        /\ succeeded st' = succeeded st
        /\ world st' = world st
        /\ exists e,
             results st' = results st ++ [e]
             /\ failed_with e (-32000) (VStr "Skipped (stopOnError)"))
  /\ (forall moho done rest,
        let st := run handlers stopOnError (initial moho) 1 done in
        executed st = succeeded st + failed st
        /\ run handlers stopOnError (initial moho) 1 (done ++ rest)
           = run handlers stopOnError st (1 + length done) rest)
  /\ (forall moho params ops flds flag,
        index params "operations" = Ok (VTable ops flds) ->
        index params "stopOnError" = Ok flag ->
        truthy flag = stopOnError ->
        0 < length ops <= MAX_OPERATIONS ->
        exists result moho' (e s f : nat),
          execute handlers moho params = (Returned result VNil, moho')
          /\ field (field result "summary") "total"
             = VInt (Z.of_nat (length ops))
          /\ field (field result "summary") "executed" = VInt (Z.of_nat e)
          /\ field (field result "summary") "succeeded" = VInt (Z.of_nat s)
          /\ field (field result "summary") "failed" = VInt (Z.of_nat f)
          /\ e = s + f
          /\ e <= length ops
          /\ forall pre op,
               ops = pre ++ [op] ->
               let before := run handlers stopOnError (initial moho) 1 pre in
               (stoppedEarly before = false ->
                rejected_before_dispatch handlers op ->
                e = executed before + 1
                /\ f = failed before + 1
                /\ s = succeeded before
                /\ moho' = world before)
               /\ (stoppedEarly before = true ->
                   e = executed before
                   /\ f = failed before
                   /\ s = succeeded before
                   /\ moho' = world before)).
Proof.
  split; [|split; [|split]].
  - intros st i op Hs Hrej.
    destruct (step_rejected handlers stopOnError st i op Hs Hrej)
      as (code & message & ->).
    simpl. repeat split; try done.
    eexists _, code, message. split; [reflexivity|].
    by apply failed_with_error_entry.
  - intros st i op Hs. rewrite step_skip by done. simpl.
    repeat split; try done.
    eexists. split; [reflexivity|]. by apply failed_with_error_entry.
  - intros moho done rest. split.
    + by apply (run_counters handlers stopOnError done (initial moho) 1).
    + apply run_app.
  - intros moho params ops flds flag Hops Hflag Hstop Hlen.
    pose proof (execute_runs handlers moho params ops flds flag Hops Hflag
                  Hlen) as Hexec.
    cbn zeta in Hexec. rewrite Hstop in Hexec.
    set (final := run handlers stopOnError (initial moho) 1 ops) in *.
    destruct (summary_fields (length ops) final)
      as (Htotal & Hexecuted & Hsucceeded & Hfailed & _).
    destruct (result_fields (results final) (summary (length ops) final)
                eq_refl) as (_ & Hsummary).
    destruct (run_counters handlers stopOnError ops (initial moho) 1 eq_refl)
      as (Hinv & Hbound).
    fold final in Hinv, Hbound. simpl in Hbound.
    eexists _, _, (executed final), (succeeded final), (failed final).
    split; [exact Hexec|]. rewrite Hsummary.
    split; [exact Htotal|]. split; [exact Hexecuted|].
    split; [exact Hsucceeded|]. split; [exact Hfailed|].
    split; [exact Hinv|]. split; [exact Hbound|].
    intros pre op Hsplit before.
    assert (final = step handlers stopOnError before (S (length pre)) op)
      as Hlast.
    { subst final. rewrite Hsplit, run_app. reflexivity. }
    split.
    + intros Hs Hrej.
      destruct (step_rejected handlers stopOnError before (S (length pre)) op
                  Hs Hrej) as (code & message & Hstep).
      rewrite Hstep in Hlast. rewrite Hlast. simpl. done.
    + intros Hs. rewrite step_skip in Hlast by done.
      rewrite Hlast. simpl. done.
Qed.

(** C1: in a batch run with [stopOnError] set in which the operation at
    position [k] fails and every operation before it succeeds, the result
    array that [batch.execute] returns has one entry per operation, in the
    order of the operations; every entry after position [k] is a failure
    with the code -32000, which no entry up to position [k] carries, and
    the message [Skipped (stopOnError)], made without calling a handler:
    the document is left as the first [k + 1] operations left it; these
    entries are not counted as executed: the summary returned has
    [executed = k + 1 = succeeded + failed], [succeeded = k], [failed = 1],
    [total] the number of operations, which is at least [executed], and
    [stoppedEarly] true. *)
Theorem C1_stop_on_error_skips_the_rest handlers moho params ops flds flag k :
  index params "operations" = Ok (VTable ops flds) ->
  index params "stopOnError" = Ok flag ->
  truthy flag = true ->
  0 < length ops <= MAX_OPERATIONS ->
  let st := run handlers true (initial moho) 1 ops in
  (exists e, results st !! k = Some e /\ field e "success" = VBool false) ->
  (forall j e, j < k -> results st !! j = Some e ->
               field e "success" = VBool true) ->
  exists result entries (e s f : nat),
    execute handlers moho params = (Returned result VNil, world st)
    /\ field result "results" = VTable entries []
    /\ entries = results st
    /\ length entries = length ops
    /\ (forall i entry, entries !! i = Some entry ->
                        field entry "index" = VInt (Z.of_nat (S i)))
    /\ (forall i, k < i < length ops ->
          exists entry,
            entries !! i = Some entry
            /\ failed_with entry (-32000) (VStr "Skipped (stopOnError)"))
    /\ (forall i entry, i <= k -> entries !! i = Some entry ->
                        field (field entry "error") "code" <> VInt (-32000))
    /\ world st = world (run handlers true (initial moho) 1 (take (S k) ops))
    /\ field (field result "summary") "total" = VInt (Z.of_nat (length ops))
    /\ field (field result "summary") "executed" = VInt (Z.of_nat e)
    /\ field (field result "summary") "succeeded" = VInt (Z.of_nat s)
    /\ field (field result "summary") "failed" = VInt (Z.of_nat f)
    /\ field (field result "summary") "stoppedEarly" = VBool true
    /\ e = S k /\ s = k /\ f = 1
    /\ e = s + f
    /\ e <= length ops.
Proof.
  intros Hops Hflag Htrue Hlen st Hfail Hbefore.
  pose proof (execute_runs handlers moho params ops flds flag Hops Hflag Hlen)
    as Hexec. rewrite Htrue in Hexec.
  pose proof (run_results handlers true ops (initial moho) 1)
    as (Hl & _ & Hidx). simpl in Hl, Hidx.
  pose proof (run_first_failure handlers ops (initial moho) 1 k eq_refl
                Hfail Hbefore)
    as (Hskip & Hcodes & Hw & Hex & Hsu & Hfa & Hst). simpl in *.
  assert (k < length ops) as Hk.
  { destruct Hfail as (e & He & _). apply lookup_lt_Some in He.
    fold st in Hl. lia. }
  fold st in Hl, Hidx, Hskip, Hcodes, Hw, Hex, Hsu, Hfa, Hst, Hexec.
  destruct (summary_fields (length ops) st)
    as (Htotal & Hexecuted & Hsucceeded & Hfailed & Hstopped).
  destruct (result_fields (results st) (summary (length ops) st) eq_refl)
    as (Hresults & Hsummary).
  eexists _, (results st), (executed st), (succeeded st), (failed st).
  split; [exact Hexec|]. rewrite Hsummary.
  split; [exact Hresults|]. split; [reflexivity|]. split; [exact Hl|].
  split; [exact Hidx|]. split.
  { intros i Hi. exists (skipped_entry (S i)).
    split; [by apply Hskip|]. by apply failed_with_error_entry. }
  split; [exact Hcodes|]. split; [exact Hw|]. split; [exact Htotal|].
  split; [exact Hexecuted|]. split; [exact Hsucceeded|].
  split; [exact Hfailed|]. split; [by rewrite Hstopped, Hst|].
  repeat split; lia.
Qed.

End claims.
End batch_claims.

Module server_claims.
Import server server_facts bridge.
Import json_values envelope_facts.
Section claims.
Context {World : Type} `{CRuntime} `{JsRuntime}.
Implicit Types (st : @state World) (dir : directory).

(** C6: the empty string, a text that does not parse as JSON, a parsed
    value that is not an object, and an object without the version tag
    "2.0" are all refused, by the request parser of the server (and the
    server then answers with a parse-error response and leaves the document
    alone) and by the response parser of the client; neither parser returns
    a value for them. *)
Theorem C6_malformed_input_is_refused :
  (forall content,
      content = ""
      \/ (exists m, json.decode content = Raise m)
      \/ (exists v, json.decode content = Ok v /\ is_object v = false)
      \/ (exists v, json.decode content = Ok v
                    /\ field v "jsonrpc" <> VStr "2.0") ->
      exists message,
        protocol.parseRequest content = inr message
        /\ forall st moho,
             processRequest st content moho =
               (protocol.createError VNil protocol.PARSE_ERROR
                  (VStr message) VNil, moho))
  /\ (forall data,
        data = ""
        \/ JSON_parse (trim data) = None
        \/ (exists v, JSON_parse (trim data) = Some v
                      /\ is_js_object v = false)
        \/ (exists v, JSON_parse (trim data) = Some v
                      /\ prop v "jsonrpc" <> Some (JString "2.0")) ->
        exists e, parseResponse data = inr e).
Proof.
  split.
  - intros content Hcases.
    destruct (parseRequest_refuses content Hcases) as [message Hp].
    exists message. split; [done|]. intros st moho.
    by apply processRequest_parse_error.
  - apply bridge_facts.parseResponse_refuses.
Qed.




(** C4: a call of [sendRequest] on a connected client that never finds
    its response file fails with a timeout (the timeout given with the
    call, or the configured default) at the first reading of the clock on
    which the elapsed time exceeds it and not before: after [k] looks
    within the timeout the call is still waiting, at look [k] it ends
    with the timeout error, and the directory it leaves is the directory
    as that look found it without the request file. *)
Theorem C4_request_times_out_and_cleans_up
    (clock : nat -> Z) (peer : nat -> directory -> directory)
    cfg cl method params timeoutOption dir :
  connected cl = true ->
  let id := nextId cl in
  let timeout := default (requestTimeout cfg) timeoutOption in
  let written :=
    writeRequest dir (request_name id)
      (JSON_stringify (request_object id method params)) in
  (forall n, seen_from peer 0 n written !! response_name id = None) ->
  (exists n, (clock (S n) - clock O > timeout)%Z) ->
  exists k,
    (clock (S k) - clock O > timeout)%Z
    /\ (forall m, m < k -> (clock (S m) - clock O <= timeout)%Z)
    /\ (forall fuel, fuel <= k ->
          sendRequest clock peer fuel cfg cl method params timeoutOption dir
          = None)
    /\ (forall fuel, k < fuel ->
          sendRequest clock peer fuel cfg cl method params timeoutOption dir
          = Some (TimedOut method id timeout,
                  {| nextId := S id; connected := true |},
                  delete (request_name id) (seen_from peer 0 k written)))
    /\ delete (request_name id) (seen_from peer 0 k written)
         !! request_name id = None.
Proof. apply bridge_facts.sendRequest_times_out_at. Qed.

Lemma gap_scan_empty dir :
  (forall id, 1 <= id <= 101 -> dir !! request_name id = None) ->
  findFilesByPrefix dir "req_" = [].
Proof.
  intros Hgap. rewrite findFilesByPrefix_eq.
  apply (probe_gap dir "req_" 100); [done| |].
  - change LAST_ID with (101 + 9899). lia.
  - intros j Hj. apply Hgap. lia.
Qed.

Lemma gap_poll st moho dir :
  (forall id, 1 <= id <= 101 -> dir !! request_name id = None) ->
  poll st moho dir = Ok (moho, dir).
Proof.
  intros Hgap. unfold poll. rewrite (gap_scan_empty dir Hgap).
  by destruct (isRunning st).
Qed.

Lemma gap_ticks st moho dir k :
  (forall id, 1 <= id <= 101 -> dir !! request_name id = None) ->
  server_ticks st moho k dir = dir.
Proof.
  intros Hgap. induction k as [|k IH]; simpl; [done|].
  by rewrite (gap_poll st moho dir Hgap).
Qed.

(** C9: the scan for request files probes the ids from 1 up to 10000 and
    finds nothing else.  In a directory that has no request file with an
    id from 1 to 101 the scan finds nothing, so a tick changes nothing,
    whatever other request files there are; a client whose request has an
    id beyond that gap, such as [req_150.json], is never answered while
    the gap lasts, and its call ends with a timeout. *)
Theorem C9_scan_stops_after_a_gap st moho dir :
  (forall id, 1 <= id <= 101 -> dir !! request_name id = None) ->
  LAST_ID = 10000
  /\ findFilesByPrefix dir "req_" = []
  /\ poll st moho dir = Ok (moho, dir)
  /\ (forall k, server_ticks st moho k dir = dir)
  /\ (forall (other : directory) fname,
        fname ∈ findFilesByPrefix other "req_" ->
        exists id, 1 <= id <= LAST_ID /\ fname = request_name id
                   /\ is_Some (other !! fname))
  /\ (forall (clock : nat -> Z) (ticks : nat -> nat)
             cfg cl method params timeoutOption,
        connected cl = true ->
        101 < nextId cl ->
        dir !! response_name (nextId cl) = None ->
        (exists n, (clock (S n) - clock O
                    > default (requestTimeout cfg) timeoutOption)%Z) ->
        let written :=
          writeRequest dir (request_name (nextId cl))
            (JSON_stringify (request_object (nextId cl) method params)) in
        findFilesByPrefix written "req_" = []
        /\ is_Some (written !! request_name (nextId cl))
        /\ exists k, forall fuel, k < fuel ->
             exists dir',
               sendRequest clock (fun n => server_ticks st moho (ticks n))
                 fuel cfg cl method params timeoutOption dir
               = Some (TimedOut method (nextId cl)
                         (default (requestTimeout cfg) timeoutOption),
                       {| nextId := S (nextId cl); connected := true |},
                       dir')).
Proof.
  intros Hgap. split; [reflexivity|]. split; [by apply gap_scan_empty|].
  split; [by apply gap_poll|]. split; [intros k; by apply gap_ticks|].
  split.
  { intros other fname Hin. rewrite findFilesByPrefix_eq in Hin.
    apply probe_elem in Hin as (j & Hj & -> & Hsome).
    exists j. repeat split; try done; lia. }
  intros clock ticks cfg cl method params timeoutOption Hconn Hid Hresp Hlate
    written.
  assert (forall id, 1 <= id <= 101 -> written !! request_name id = None)
    as Hgap'.
  { intros id Hrange. subst written. unfold writeRequest.
    rewrite lookup_insert_ne
      by (intros Heq; apply request_name_inj in Heq; lia).
    rewrite lookup_delete_ne
      by (intros Heq; symmetry in Heq; by apply request_not_request_tmp in Heq).
    rewrite lookup_insert_ne
      by (intros Heq; symmetry in Heq; by apply request_not_request_tmp in Heq).
    by apply Hgap. }
  split; [by apply gap_scan_empty|].
  split; [subst written; unfold writeRequest; by rewrite lookup_insert_eq|].
  assert (forall n,
    seen_from (fun n => server_ticks st moho (ticks n)) 0 n written = written)
    as Hseen.
  { induction n as [|n IHn]; simpl; [|rewrite IHn]; by apply gap_ticks. }
  destruct (bridge_facts.sendRequest_times_out clock
              (fun n => server_ticks st moho (ticks n))
              cfg cl method params timeoutOption dir Hconn)
    as (k & _ & _ & Hk); [|done|].
  { intros n. fold written. rewrite Hseen. subst written. unfold writeRequest.
    rewrite lookup_insert_ne
      by (intros Heq; by apply request_not_response in Heq).
    rewrite lookup_delete_ne
      by (intros Heq; symmetry in Heq; by apply response_not_request_tmp in Heq).
    rewrite lookup_insert_ne
      by (intros Heq; symmetry in Heq; by apply response_not_request_tmp in Heq).
    done. }
  exists k. intros fuel Hfuel. destruct (Hk fuel Hfuel) as (dir' & Hsend & _).
  by exists dir'.
Qed.


(** C8: a batch of more than 50 operations is turned down as a whole
    before any operation runs: [batch.execute] returns [nil] and one error
    message and no result array, and the document is untouched whatever
    the handlers are.  A request that carries such a batch is answered with
    one error response: with the message of [batch.execute] and the code
    -32603 where [batch.execute] is the registered handler (for a plain id
    a reader finds this error, the id, and no [result]), and with the code
    -32601 where no handler is registered for it. *)
Theorem C8_too_many_operations_rejected
    (registry : gmap string (handler World)) moho params ops flds flag :
  index params "operations" = Ok (VTable ops flds) ->
  index params "stopOnError" = Ok flag ->
  50 < length ops ->
  let message :=
    "Too many operations: " +:+ pretty (length ops) +:+ " (max 50)" in
  batch.execute_ops registry moho (VTable ops flds) (Lua.truthy flag)
  = inr message
  /\ batch.execute registry moho params = (Returned VNil (VStr message), moho)
  /\ (forall st content request,
        protocol.parseRequest content = inl request ->
        field request "method" = VStr "batch.execute" ->
        lua_or (field request "params") (VTable [] []) = params ->
        let id := field request "id" in
        (batch_registered st ->
           processRequest st content moho =
             (protocol.createError id protocol.INTERNAL_ERROR
                (VStr message) VNil, moho))
        /\ (batch_registered st -> plain id = true ->
            exists text envelope,
              processRequest st content moho = (Ok text, moho)
              /\ json.decode text = Ok envelope
              /\ field envelope "error"
                 = VTable [] [("code", VInt (-32603));
                              ("message", VStr message)]
              /\ field envelope "result" = VNil
              /\ field envelope "id" = normal id)
        /\ (getHandler st "batch.execute" = None ->
            processRequest st content moho =
              (protocol.createError id protocol.METHOD_NOT_FOUND
                 (VStr "No handler registered for: batch.execute") VNil,
               moho))).
Proof.
  intros Hops Hflag Hlen message.
  assert (batch.MAX_OPERATIONS < length ops) as Hmax by exact Hlen.
  assert (batch.execute_ops registry moho (VTable ops flds) (Lua.truthy flag)
          = inr message) as Hrej.
  { unfold batch.execute_ops. simpl.
    destruct (Nat.eqb_spec (length ops) 0) as [H0'|_]; [lia|].
    destruct (Nat.ltb_spec batch.MAX_OPERATIONS (length ops)) as [_|]; [|lia].
    reflexivity. }
  split; [exact Hrej|]. split.
  { by rewrite (batch_facts.execute_too_many registry moho params ops flds
                  flag). }
  intros st content request Hp Hm Hparams id.
  assert (validator.validateParams "batch.execute" params = validator.Valid)
    as Hv.
  { rewrite validate_batch.
    destruct params as [| | |s|parr pfields| |]; try done.
    cbn [index] in Hops. injection Hops as Hops. cbn [type]. simpl.
    by rewrite Hops. }
  assert (batch_registered st ->
          processRequest st content moho =
            (protocol.createError id protocol.INTERNAL_ERROR
               (VStr message) VNil, moho)) as Hanswer.
  { intros Hreg. subst params.
    by rewrite (processRequest_batch st content moho request _ _ Hreg Hp Hm
                  Hv
                  (batch_facts.execute_too_many (handlers st) moho _ ops flds
                     flag Hops Hflag Hmax)). }
  split; [exact Hanswer|]. split.
  - intros Hreg Hplain. rewrite (Hanswer Hreg).
    destruct (parseRequest_ok _ _ Hp) as (_ & _ & _ & _ & Hnil & _).
    destruct (error_response_read id protocol.INTERNAL_ERROR message Hplain)
      as (text & envelope & Henc & Hdec & _ & Herr & Hres & Hid);
      [reflexivity|].
    fold id in Hnil. rewrite Hnil in Hid.
    exists text, envelope. rewrite Henc. by repeat split.
  - intros Hnone. unfold processRequest. rewrite Hp, Hm.
    change (validator.isAllowed "batch.execute") with true. cbn [negb].
    rewrite Hparams, Hv. by rewrite Hnone.
Qed.

End claims.
End server_claims.

(** ** json.lua: what a user of the codec can rely on *)

Module json_properties.
Import json json_facts json_strings json_values.
Import json_shape_facts json_blank_facts json_order_facts.

Section properties.
Context `{CRuntime}.

(** X1.  Every string survives the codec, byte for byte: whatever text
    follows it, [decode_string] reads back from the text [encode_string]
    writes for [s] the string [s] and stops right behind the closing quote;
    and [json.decode] of the encoded string alone is the string. *)
Theorem strings_survive_the_codec (s : string) :
  (forall rest, decode_string (encode_string s +:+ rest) = Some (s, rest))
  /\ encode (VStr s) = Ok (encode_string s)
  /\ decode (encode_string s) = Ok (VStr s).
Proof.
  split; [intros rest; apply decode_encode_string|]. split; [done|].
  destruct (plain_decode (VStr s) eq_refl) as (text & Henc & Hdec).
  unfold encode in Henc. simpl in Henc. by injection Henc as <-.
Qed.

(** X2.  [json.decode] undoes [json.encode] on every plain value of Lua:
    the encoder accepts the value, and the decoder reads the text it wrote
    as the value again, with a nil read as [json.null], the keys of every
    object in the order the encoder sorts them into, and without the
    sequence part of a table that has string keys. *)
Theorem plain_values_survive_the_codec (v : value) :
  proper v = true ->
  plain v = true ->
  exists text, encode v = Ok text /\ decode text = Ok (normal v).
Proof. intros _. apply plain_decode. Qed.

(** X3.  What [json.decode] returns is JSON-shaped: no nil and no function
    anywhere in it (JSON [null] is the sentinel [json.null]), and every
    table in it is a sequence or a table of string keys, never both. *)
Theorem decoded_values_are_json_shaped (text : string) (v : value) :
  decode text = Ok v -> json_shaped v = true.
Proof. apply decode_is_shaped. Qed.

(** X4.  Of the values of the model (nil, booleans, numbers, strings,
    functions, [json.null], and tables with a sequence part and string
    keys) [json.encode] refuses exactly those with a NaN, an infinity or a
    function where the encoder looks: it returns a text for every other
    one, and for these it raises [json.encode: ] followed by one of the
    four refusals of the encoder, each with the position in [json.lua] of
    the line that raises it. *)
Theorem encoder_refuses_exactly_what_is_no_data (v : value) :
  (encoder_accepts v = true -> exists text, encode v = Ok text)
  /\ (encoder_accepts v = false ->
      exists m,
        encode v = Raise ("json.encode: " +:+ m)
        /\ (m = where_json 78 +:+ "cannot encode NaN as JSON"
            \/ m = where_json 80 +:+ "cannot encode Infinity as JSON"
            \/ m = where_json 82 +:+ "cannot encode -Infinity as JSON"
            \/ m = where_json 222
                    +:+ "cannot encode value of type function as JSON")).
Proof.
  pose proof (encode_value_decides v) as Hd. unfold encode.
  split; intros Hv; rewrite Hv in Hd; destruct Hd as [x Hx]; rewrite Hx;
    [by eexists|].
  exists x. split; [reflexivity|]. by apply (encode_value_refusal v).
Qed.

(** X5.  White space around a JSON text does not matter to [json.decode]:
    a text that decodes to a value still decodes to that value with
    spaces, tabs, newlines and carriage returns in front of it and behind
    it. *)
Theorem decode_ignores_white_space_around (text lead trail : string) v :
  decode text = Ok v ->
  blank lead = true -> blank trail = true ->
  decode (lead +:+ text +:+ trail) = Ok v.
Proof. apply decode_blank_around. Qed.

(** X6.  The text of an object does not depend on the order in which the
    table holds its members, nor on a sequence part beside them: two
    tables with the same members, each key once, are encoded alike. *)
Theorem object_text_ignores_the_order_of_the_members
    arr arr' (fields fields' : list (string * value)) :
  fields <> [] ->
  NoDup (map fst fields) ->
  fields ≡ₚ fields' ->
  encode (VTable arr fields) = encode (VTable arr' fields').
Proof.
  intros Hne Hdup Hperm. unfold encode.
  destruct fields as [|f fs]; [done|].
  destruct fields' as [|f' fs'].
  { by apply Permutation_nil_r in Hperm. }
  rewrite !encode_value_object, !sort_by_key_map.
  by rewrite (sort_by_key_permutation (f :: fs) (f' :: fs')).
Qed.

End properties.
End json_properties.

(** ** server.lua: what [start], [stop] and the scan guarantee *)

Module server_properties.
Import server server_facts scan_facts lifecycle_facts lifecycle_results.
Import json_values.

Section properties.
Context {World : Type} `{CRuntime}.

(** X7.  [server.start] on a stopped server.  When the write of the test
    file goes through, [start] returns [true], the server runs,
    [status.json] holds a text that decodes to the status table with
    [running = true], a scan finds neither a request nor a response (so the
    first tick has nothing to serve: no request of an earlier session is
    executed), and every file that is neither listed by the two scans of
    the old directory nor one of the files [start] writes is left as it
    was.  When the write of the test file fails, [start] returns [false]
    and a message that names the directory, the server stays stopped, and
    no file but the test file and its temporary file is touched: no status
    file is written and no request is removed. *)
Theorem start_clears_what_the_scan_sees
    ipcDir startedAt (st : state (World := World)) (dir : directory) :
  isRunning st = false ->
  (let st' := {| isRunning := true; handlers := handlers st |} in
   exists status dir',
     start ipcDir startedAt None st dir = Ok (None, st', dir')
     /\ dir' !! "status.json" = Some status
     /\ json.decode status
        = Ok (VTable [] [("pid", VStr "moho"); ("running", VBool true);
                         ("startedAt", VStr startedAt);
                         ("version", VStr "0.1.0")])
     /\ findFilesByPrefix dir' "req_" = []
     /\ findFilesByPrefix dir' "resp_" = []
     /\ (forall moho, poll st' moho dir' = Ok (moho, dir'))
     /\ (forall name,
           name ∉ findFilesByPrefix dir "req_" ->
           name ∉ findFilesByPrefix dir "resp_" ->
           name ∉ [".mcp_test"; ".mcp_test.tmp"; "status.json";
                   "status.json.tmp"] ->
           dir' !! name = dir !! name))
  /\ (forall failure,
        exists err dir',
          start ipcDir startedAt (Some failure) st dir
          = Ok (Some ("Cannot write to IPC directory " +:+ ipcDir
                      +:+ ": " +:+ err),
                st, dir')
          /\ (forall name, name ∉ [".mcp_test"; ".mcp_test.tmp"] ->
                           dir' !! name = dir !! name)).
Proof.
  intros Hstopped. split; [by apply start_result|].
  intros failure. by apply start_refused.
Qed.

(** X8.  [server.stop] on a running server: the server no longer runs, the
    status file is gone, a scan finds neither a request nor a response, a
    later tick does nothing, and every file that is neither listed by the
    two scans of the old directory nor the status file is left as it
    was. *)
Theorem stop_clears_what_the_scan_sees
    (st : state (World := World)) (dir : directory) :
  isRunning st = true ->
  let st' := {| isRunning := false; handlers := handlers st |} in
  exists dir',
    stop st dir = (st', dir')
    /\ dir' !! "status.json" = None
    /\ findFilesByPrefix dir' "req_" = []
    /\ findFilesByPrefix dir' "resp_" = []
    /\ (forall moho, poll st' moho dir' = Ok (moho, dir'))
    /\ (forall name,
          name ∉ findFilesByPrefix dir "req_" ->
          name ∉ findFilesByPrefix dir "resp_" ->
          name <> "status.json" ->
          dir' !! name = dir !! name).
Proof. apply stop_result. Qed.

(** X9.  The scan lists files in the order of their ids, each of them once
    and each of them in the directory; and it lists every file
    [<prefix><j>.json] with [j] up to 10000 that no run of 101 missing ids
    hides: a file is found when each 101 successive ids below it hold a
    file. *)
Theorem scan_is_ordered_and_complete_up_to_a_gap (dir : directory) prefix :
  (exists ids,
     findFilesByPrefix dir prefix
     = map (fun j => prefix +:+ pretty j +:+ ".json") ids
     /\ StronglySorted lt ids
     /\ Forall (fun j => 1 <= j <= LAST_ID
                         /\ is_Some (dir !! (prefix +:+ pretty j +:+ ".json")))
               ids)
  /\ (forall j : nat,
        1 <= j <= LAST_ID ->
        is_Some (dir !! (prefix +:+ pretty j +:+ ".json")) ->
        (forall b, 101 <= b < j ->
           exists k, b - 100 <= k <= b
                     /\ is_Some (dir !! (prefix +:+ pretty k +:+ ".json"))) ->
        prefix +:+ pretty j +:+ ".json" ∈ findFilesByPrefix dir prefix).
Proof.
  split.
  - rewrite findFilesByPrefix_eq.
    destruct (probe_sorted dir prefix LAST_ID 1 0) as (ids & Heq & Hs & Hall).
    exists ids. split; [done|]. split; [done|].
    eapply Forall_impl; [exact Hall|]. intros j [Hj Hsome].
    split; [lia|done].
  - intros j Hj Hsome Hw. by apply scan_finds.
Qed.

End properties.
End server_properties.

(** ** server.lua: a tick *)

Module tick_properties.
Import server server_facts scan_facts bridge.

Section properties.
Context {World : Type} `{CRuntime}.

(** X10.  A tick serves two requests at most, the two with the smallest ids
    the scan lists, one after the other: each gets its response file and
    loses its request file, the second is processed on the document as the
    first left it, every other request the scan listed still waits in its
    file, and no file but the two requests, their responses and the
    temporary files of the two responses is touched. *)
Theorem tick_serves_the_two_oldest
    (st : state (World := World)) moho (dir : directory) f1 f2 rest :
  isRunning st = true ->
  findFilesByPrefix dir "req_" = f1 :: f2 :: rest ->
  exists i j c1 c2 r1 r2 dir',
    f1 = request_name i /\ f2 = request_name j /\ i < j
    /\ dir !! f1 = Some c1 /\ dir !! f2 = Some c2
    /\ written_response st c1 moho r1
    /\ written_response st c2 (snd (processRequest st c1 moho)) r2
    /\ poll st moho dir
       = Ok (snd (processRequest st c2 (snd (processRequest st c1 moho))),
             dir')
    /\ dir' !! response_name i = Some r1
    /\ dir' !! response_name j = Some r2
    /\ dir' !! f1 = None
    /\ dir' !! f2 = None
    /\ (forall f, f ∈ rest -> is_Some (dir !! f) /\ dir' !! f = dir !! f)
    /\ (forall name,
          name ∉ [f1; f2; response_name i; response_name j;
                  response_name i +:+ ".tmp"; response_name j +:+ ".tmp"] ->
          dir' !! name = dir !! name).
Proof.
  intros Hrunning Hscan.
  destruct (found_first dir f1 (f2 :: rest) Hscan)
    as (i & -> & Hi & [c1 Hc1] & Hnext).
  destruct (Hnext f2 rest eq_refl) as (j & -> & Hij & [c2 Hc2]).
  destruct (serve_request st i c1 moho dir) as (r1 & Hr1 & Hserve1).
  set (moho1 := snd (processRequest st c1 moho)) in *.
  set (dir1 := delete (request_name i)
                 (writeFile dir (response_name i) r1)) in *.
  destruct (serve_request st j c2 moho1 dir1) as (r2 & Hr2 & Hserve2).
  set (dir2 := delete (request_name j)
                 (writeFile dir1 (response_name j) r2)) in *.
  assert (dir1 !! request_name j = Some c2) as Hc2'.
  { subst dir1. rewrite served_lookup_request by lia. done. }
  assert (forall name,
            name ∉ [request_name i; request_name j;
                    response_name i; response_name j;
                    response_name i +:+ ".tmp"; response_name j +:+ ".tmp"] ->
            dir2 !! name = dir !! name) as Hother.
  { intros name Hname.
    repeat (apply not_elem_of_cons in Hname as [? Hname]).
    subst dir2 dir1.
    rewrite lookup_delete_ne, writeFile_other by done.
    by rewrite lookup_delete_ne, writeFile_other by done. }
  exists i, j, c1, c2, r1, r2, dir2.
  split; [done|]. split; [done|]. split; [done|].
  split; [done|]. split; [done|]. split; [done|]. split; [done|].
  split.
  { rewrite (poll_unfold_first st moho dir _ _ c1 moho1 dir1 Hrunning Hscan
               Hc1 Hserve1).
    by apply (poll_loop_second st _ rest moho1 dir1 c2). }
  split.
  { subst dir2. rewrite served_lookup_response by lia.
    apply served_lookup_own. }
  split; [apply served_lookup_own|].
  split.
  { subst dir2. rewrite served_lookup_request by lia.
    apply served_lookup_own. }
  split; [apply served_lookup_own|].
  split; [|exact Hother].
  intros f Hf.
  rewrite findFilesByPrefix_eq in Hscan.
  destruct (probe_sorted dir "req_" LAST_ID 1 0) as (ids & Hids & Hsorted & Hall).
  rewrite Hscan in Hids.
  destruct ids as [|i' [|j' ids]]; try done.
  assert (request_name i = request_name i') as Hi'
    by (by apply (f_equal (fun l => l !! 0)), (inj Some) in Hids).
  assert (request_name j = request_name j') as Hj'
    by (by apply (f_equal (fun l => l !! 1)), (inj Some) in Hids).
  apply (f_equal (drop 2)) in Hids.
  change (rest = map (fun j => "req_" +:+ pretty j +:+ ".json") ids) in Hids.
  apply request_name_inj in Hi' as <-. apply request_name_inj in Hj' as <-.
  subst rest. apply list_elem_of_fmap in Hf as (k & -> & Hk).
  apply StronglySorted_inv in Hsorted as [Hsorted Hi_lt].
  apply StronglySorted_inv in Hsorted as [_ Hj_lt].
  rewrite Forall_forall in Hj_lt. rewrite Forall_forall in Hall.
  assert (j < k) as Hjk by (by apply Hj_lt).
  split.
  { apply (Hall k). do 2 (apply elem_of_cons; right). done. }
  apply Hother.
  repeat (apply not_elem_of_cons; split);
    [intros Heq; apply request_name_inj in Heq; lia
    |intros Heq; apply request_name_inj in Heq; lia
    |apply request_not_response|apply request_not_response
    |apply request_not_response_tmp|apply request_not_response_tmp
    |apply not_elem_of_nil].
Qed.

End properties.
End tick_properties.

(** ** protocol.ts: the response parser *)

Module response_properties.
Import bridge.

(** Every white space code point has a byte. *)
Lemma after_white_shorter (s r : string) :
  after_white white_space s = Some r -> String.length r < String.length s.
Proof.
  assert (forall ws,
    Forall (fun w => 0 < String.length w) ws ->
    after_white ws s = Some r -> String.length r < String.length s) as Hall.
  { induction ws as [|w ws IH]; intros Hws Ha; simpl in Ha; [done|].
    apply Forall_cons in Hws as [Hw Hws].
    destruct (json.literal w s) as [after|] eqn:Hl; [|by apply IH].
    injection Ha as ->. apply json_facts.literal_length in Hl. lia. }
  apply Hall. repeat constructor.
Qed.

Lemma after_white_app (ws : list string) (s u r : string) :
  after_white ws s = Some r -> is_Some (after_white ws (s +:+ u)).
Proof.
  induction ws as [|w ws IH]; intros Ha; simpl in *; [done|].
  destruct (json.literal w s) as [after|] eqn:Hl.
  - by rewrite (json_blank_facts.literal_app_r w s u after Hl).
  - destruct (json.literal w (s +:+ u)); [done|]. by apply IH.
Qed.

(** No white space code point starts another one: the code point in front
    of a text is the one [after_white] takes off. *)
Lemma after_white_code_point (w rest : string) :
  w ∈ white_space ->
  after_white white_space (w +:+ rest) = Some rest.
Proof.
  intros Hw. unfold white_space in Hw. cbn [map] in Hw.
  repeat (apply elem_of_cons in Hw as [->|Hw]; [reflexivity|]).
  by apply elem_of_nil in Hw.
Qed.

Lemma trim_start_loop_fixed (fuel : nat) (s : string) :
  after_white white_space s = None -> trim_start_loop fuel s = s.
Proof.
  intros Hs. destruct fuel; cbn [trim_start_loop]; [done|by rewrite Hs].
Qed.

Lemma trim_start_loop_enough : forall (fuel fuel' : nat) (s : string),
  String.length s <= fuel -> String.length s <= fuel' ->
  trim_start_loop fuel s = trim_start_loop fuel' s.
Proof.
  induction fuel as [|fuel IH]; intros fuel' s Hf Hf'.
  - destruct s; [|simpl in Hf; lia]. by destruct fuel'.
  - destruct fuel' as [|fuel'].
    { destruct s; [done|simpl in Hf'; lia]. }
    cbn [trim_start_loop].
    destruct (after_white white_space s) as [r|] eqn:Ha; [|done].
    apply after_white_shorter in Ha. apply IH; lia.
Qed.

(** [trim_start] stops where no white space is in front. *)
Lemma trim_start_stops (s : string) :
  after_white white_space (trim_start s) = None.
Proof.
  unfold trim_start.
  assert (forall fuel s, String.length s <= fuel ->
            after_white white_space (trim_start_loop fuel s) = None) as Hall.
  { induction fuel as [|fuel IH]; intros t Ht.
    - by destruct t; [|simpl in Ht; lia].
    - cbn [trim_start_loop].
      destruct (after_white white_space t) as [r|] eqn:Ha; [|done].
      apply after_white_shorter in Ha. apply IH. lia. }
  by apply Hall.
Qed.

Lemma trim_start_fixed (s : string) :
  after_white white_space s = None -> trim_start s = s.
Proof. apply trim_start_loop_fixed. Qed.

Lemma trim_start_code_point (w rest : string) :
  w ∈ white_space -> trim_start (w +:+ rest) = trim_start rest.
Proof.
  intros Hw. unfold trim_start.
  pose proof (after_white_code_point w rest Hw) as Ha.
  pose proof (after_white_shorter _ _ Ha) as Hlen.
  destruct (String.length (w +:+ rest)) as [|n] eqn:Hn; [lia|].
  cbn [trim_start_loop]. rewrite Ha. apply trim_start_loop_enough; lia.
Qed.

(** [trim_end] keeps a text that the text starts with. *)
Lemma trim_end_prefix (s : string) : exists u, s = trim_end s +:+ u.
Proof.
  induction s as [|c s [u IH]]; [by exists ""|]. cbn [trim_end].
  destruct (is_white (String c (trim_end s))).
  - by exists (String c s).
  - exists u. rewrite json_values.string_cons_app. by rewrite <- IH.
Qed.

Lemma trim_end_idem (s : string) : trim_end (trim_end s) = trim_end s.
Proof.
  induction s as [|c s IH]; [done|]. cbn [trim_end].
  destruct (is_white (String c (trim_end s))) eqn:Hw; [done|].
  cbn [trim_end]. by rewrite IH, Hw.
Qed.

Lemma trim_idem (s : string) : trim (trim s) = trim s.
Proof.
  unfold trim.
  destruct (trim_end_prefix (trim_start s)) as [u Hu].
  assert (after_white white_space (trim_end (trim_start s)) = None) as Hnone.
  { destruct (after_white white_space (trim_end (trim_start s)))
      as [r|] eqn:Ha; [|done].
    apply (after_white_app _ _ u) in Ha. rewrite <- Hu in Ha.
    rewrite trim_start_stops in Ha. by destruct Ha. }
  rewrite (trim_start_fixed _ Hnone). apply trim_end_idem.
Qed.

(** A text of white space only is trimmed to nothing. *)
Lemma trim_white_text (s : string) : white_text s -> trim s = "".
Proof.
  intros (ws & Hws & ->). unfold trim.
  assert (trim_start (String.concat "" ws) = "") as ->; [|done].
  induction Hws as [|w ws Hw _ IH]; [done|].
  destruct ws as [|w' ws].
  - simpl. rewrite <- (json_strings.string_app_nil_r w).
    by rewrite trim_start_code_point.
  - change (String.concat "" (w :: w' :: ws))
      with (w +:+ "" +:+ String.concat "" (w' :: ws)).
    by rewrite trim_start_code_point.
Qed.

Section properties.
Context `{JsRuntime}.

(** X11.  [parseResponse] reads the text without the white space around
    it, the white space of [String.prototype.trim], which includes the
    byte order mark and the no-break space: a text of white space only is
    reported as an empty response, the trimmed text is parsed as the text
    is, and a response it returns is what [JSON.parse] made of the
    trimmed text, an object (never an array or a primitive value) whose
    [jsonrpc] is ["2.0"]. *)
Theorem parseResponse_reads_the_trimmed_text (data : string) :
  parseResponse (trim data) = parseResponse data
  /\ (white_text data -> parseResponse data = inr EmptyResponse)
  /\ (forall response,
        parseResponse data = inl response ->
        JSON_parse (trim data) = Some response
        /\ prop response "jsonrpc" = Some (JString "2.0")
        /\ exists props, response = JObject props).
Proof.
  split; [unfold parseResponse; by rewrite trim_idem|]. split.
  - intros Hblank. unfold parseResponse. by rewrite trim_white_text.
  - intros response. unfold parseResponse.
    destruct (Nat.eqb (String.length (trim data)) 0); [done|].
    destruct (JSON_parse (trim data)) as [parsed|]; [|done].
    destruct parsed as [| | | |items|props]; try done.
    destruct (prop (JObject props) "jsonrpc") as [[| | |version| |]|] eqn:Hv;
      try done.
    destruct (String.eqb_spec version "2.0") as [->|]; [|done].
    intros [= <-]. split; [done|]. split; [done|by eexists].
Qed.

End properties.
End response_properties.

(** ** moho-client.ts: calls *)

Module client_properties.
Import server server_facts bridge bridge_facts.

Section properties.
Context {World : Type} `{CRuntime} `{JsRuntime}.

Lemma await_leaves_no_response clock peer method id startTime timeout :
  forall fuel n dir out dir',
    await clock peer fuel n method id startTime timeout dir = Some (out, dir') ->
    dir' !! response_name id = None /\ out <> NotConnected.
Proof.
  induction fuel as [|fuel IH]; intros n dir out dir' Ha; [done|].
  cbn [await] in Ha.
  destruct (peer n dir !! response_name id) as [content|] eqn:Hresp.
  - assert (delete (response_name id) (peer n dir) !! response_name id = None)
      as Hgone by apply lookup_delete_eq.
    destruct (parseResponse content) as [response|e].
    + destruct (prop response "error") as [error|].
      * destruct (truthy (Some error)); by injection Ha as <- <-.
      * by injection Ha as <- <-.
    + by injection Ha as <- <-.
  - destruct (clock (S n) - startTime >? timeout)%Z.
    + injection Ha as <- <-. split; [|done].
      rewrite lookup_delete_ne by apply request_not_response.
      done.
    + by apply IH in Ha.
Qed.

(** X12.  A call that ends, however it ends, has consumed its response
    file: the file [resp_<id>.json] of the call is not in the directory the
    call leaves, and the client has moved on to the next id.  A call on a
    client that is not connected writes nothing and keeps the id. *)
Theorem call_leaves_no_response_file
    clock peer fuel cfg cl method params timeoutOption (dir : directory)
    out cl' dir' :
  sendRequest clock peer fuel cfg cl method params timeoutOption dir
  = Some (out, cl', dir') ->
  (connected cl = true ->
     dir' !! response_name (nextId cl) = None
     /\ cl' = {| nextId := S (nextId cl); connected := true |}
     /\ out <> NotConnected)
  /\ (connected cl = false -> out = NotConnected /\ cl' = cl /\ dir' = dir).
Proof.
  unfold sendRequest. intros Hsend. split; intros Hconn; rewrite Hconn in Hsend.
  - simpl in Hsend.
    destruct (await _ _ _ _ _ _ _ _ _) as [[o d]|] eqn:Ha; [|done].
    simpl in Hsend. injection Hsend as <- <- <-.
    apply await_leaves_no_response in Ha as [Hgone Hout]. done.
  - simpl in Hsend. by injection Hsend as <- <- <-.
Qed.

(** X13.  Client and server together: when the request a call writes is the
    one request the scan lists and the server ticks before the first look
    of the client, the call ends at that look with what [parseResponse]
    makes of the response the server wrote for the request text; neither
    the request file nor the response file is left, and no other file has
    changed but the temporary files of the two. *)
Theorem call_answered_by_a_tick
    (st : state (World := World)) moho clock (ticks : nat -> nat)
    cfg cl method params timeoutOption (dir : directory) :
  connected cl = true ->
  isRunning st = true ->
  ticks O = 1 ->
  let id := nextId cl in
  let content := JSON_stringify (request_object id method params) in
  let written := writeRequest dir (request_name id) content in
  findFilesByPrefix written "req_" = [request_name id] ->
  exists response,
    written_response st content moho response
    /\ forall fuel, 0 < fuel ->
       exists out dir',
         sendRequest clock (fun n => server_ticks st moho (ticks n))
           fuel cfg cl method params timeoutOption dir
         = Some (out, {| nextId := S id; connected := true |}, dir')
         /\ (forall e, parseResponse response = inr e -> out = Protocol e)
         /\ (forall r, parseResponse response = inl r ->
               out = match prop r "error" with
                     | Some error =>
                         if truthy (Some error) then MohoError error
                         else Resolved (prop r "result")
                     | None => Resolved (prop r "result")
                     end)
         /\ dir' !! request_name id = None
         /\ dir' !! response_name id = None
         /\ (forall name,
               name ∉ [request_name id; request_name id +:+ ".tmp";
                       response_name id; response_name id +:+ ".tmp"] ->
               dir' !! name = dir !! name).
Proof.
  intros Hconn Hrunning Hticks id content written Hscan.
  assert (written !! request_name id = Some content) as Hreq.
  { subst written. unfold writeRequest. apply lookup_insert_eq. }
  destruct (serve_request st id content moho written)
    as (response & Hresponse & Hserve).
  set (served := delete (request_name id)
                   (writeFile written (response_name id) response)) in *.
  assert (server_ticks st moho 1 written = served) as Htick.
  { simpl.
    rewrite (poll_unfold_first st moho written _ _ content _ served Hrunning
               Hscan Hreq Hserve).
    done. }
  exists response. split; [done|]. intros [|fuel] Hfuel; [lia|].
  assert (served !! response_name id = Some response) as Hresp
    by apply served_lookup_own.
  assert (forall name,
            name ∉ [request_name id; request_name id +:+ ".tmp";
                    response_name id; response_name id +:+ ".tmp"] ->
            delete (response_name id) served !! name = dir !! name) as Hother.
  { intros name Hname.
    repeat (apply not_elem_of_cons in Hname as [? Hname]).
    subst served written. unfold writeRequest.
    rewrite !lookup_delete_ne, writeFile_other by done.
    by rewrite lookup_insert_ne, lookup_delete_ne, lookup_insert_ne by done. }
  assert (delete (response_name id) served !! request_name id = None) as Hnoreq.
  { rewrite lookup_delete_ne
      by (intros Heq; symmetry in Heq; by apply request_not_response in Heq).
    apply served_lookup_own. }
  unfold sendRequest. rewrite Hconn. cbn [negb].
  fold id. fold content. fold written.
  cbn [await]. rewrite Hticks, Htick, Hresp.
  destruct (parseResponse response) as [r|e] eqn:Hparse.
  - destruct (prop r "error") as [error|] eqn:Herror.
    + destruct (truthy (Some error)) eqn:Htruthy.
      * eexists _, _. split; [reflexivity|].
        split; [by intros ? [=]|]. split.
        { intros ? [= <-]. by rewrite Herror, Htruthy. }
        split; [done|]. split; [apply lookup_delete_eq|done].
      * eexists _, _. split; [reflexivity|].
        split; [by intros ? [=]|]. split.
        { intros ? [= <-]. by rewrite Herror, Htruthy. }
        split; [done|]. split; [apply lookup_delete_eq|done].
    + eexists _, _. split; [reflexivity|].
      split; [by intros ? [=]|]. split.
      { intros ? [= <-]. by rewrite Herror. }
      split; [done|]. split; [apply lookup_delete_eq|done].
  - eexists _, _. split; [reflexivity|].
    split; [by intros ? [= <-]|]. split; [by intros ? [=]|].
    split; [done|]. split; [apply lookup_delete_eq|done].
Qed.

End properties.
End client_properties.

(** ** validator.lua, server.lua and batch.lua: what is checked before a
    handler runs *)

Module dispatch_properties.
Import validator server server_facts batch batch_facts.

Lemma schema_of_some method (tbl : list (string * list field_schema)) :
  is_Some (schema_of method tbl)
  <-> existsb (String.eqb method) (map fst tbl) = true.
Proof.
  induction tbl as [|[m s] tbl IH]; simpl.
  - split; [by intros [? ?]|done].
  - destruct (String.eqb method m); simpl; [|exact IH].
    split; [done|by eexists].
Qed.

(** X14.  The allow-list and the table of schemas name the same methods:
    [validateParams] knows the schema of every method [isAllowed] lets
    through, and answers [Unknown method] for exactly the others. *)
Theorem allowed_methods_are_the_methods_with_a_schema :
  (forall method,
     isAllowed method = true <-> is_Some (schema_of method paramSchemas))
  /\ (forall method params,
        isAllowed method = false ->
        validateParams method params = Invalid ("Unknown method: " +:+ method))
  /\ (forall method params,
        isAllowed method = true ->
        validateParams method params <> Invalid ("Unknown method: " +:+ method)).
Proof.
  assert (forall method,
            isAllowed method = true <-> is_Some (schema_of method paramSchemas))
    as Hsame.
  { intros method. rewrite schema_of_some. reflexivity. }
  split; [exact Hsame|]. split.
  - intros method params Hno. unfold validateParams.
    destruct (schema_of method paramSchemas) as [schema|] eqn:Hs; [|done].
    assert (isAllowed method = true) by (apply Hsame; by eexists). congruence.
  - intros method params Hyes. apply Hsame in Hyes as [schema Hs].
    unfold validateParams. rewrite Hs. unfold validate_against.
    destruct schema as [|f schema]; [done|].
    destruct (negb (String.eqb (type params) "table")); [done|].
    generalize (f :: schema). intros fs.
    induction fs as [|g fs IH]; simpl; [done|].
    destruct (is_nil (field params (name g))); [done|].
    destruct (negb (String.eqb (type (field params (name g))) (ftype g)));
      [done|exact IH].
Qed.

Section properties.
Context {World : Type} `{CRuntime}.

(** X15.  [processRequest] changes the document through one call of a
    registered handler, and through nothing else.  When the request text
    decodes to a request, the method is on the allow-list, the parameters
    fit its schema and the registry holds a handler for the method, the
    handler is called on the document and the parameters, and the document
    afterwards is the one this call left.  In every other case the
    document is as it was. *)
Theorem document_changes_only_through_a_checked_handler
    (st : state (World := World)) content moho :
  (forall request method handler,
     protocol.parseRequest content = inl request ->
     field request "method" = VStr method ->
     isAllowed method = true ->
     validateParams method
       (lua_or (field request "params") (VTable [] [])) = Valid ->
     handlers st !! method = Some handler ->
     snd (processRequest st content moho)
     = snd (handler moho (lua_or (field request "params") (VTable [] []))))
  /\ (forall response moho',
        processRequest st content moho = (response, moho') ->
        moho' = moho
        \/ exists request method handler outcome,
             protocol.parseRequest content = inl request
             /\ field request "method" = VStr method
             /\ isAllowed method = true
             /\ validateParams method
                  (lua_or (field request "params") (VTable [] [])) = Valid
             /\ handlers st !! method = Some handler
             /\ handler moho
                  (lua_or (field request "params") (VTable [] []))
                = (outcome, moho')).
Proof.
  split.
  - intros request method handler Hparse Hmethod Hallowed Hvalid Hhandler.
    unfold processRequest, getHandler.
    rewrite Hparse, Hmethod, Hallowed. cbn [negb].
    rewrite Hvalid, Hhandler.
    destruct (handler moho _) as [[err|result handlerErr] moho1]; [done|].
    by destruct (is_nil result && truthy handlerErr).
  - unfold processRequest, getHandler. intros response moho' Hp.
    destruct (protocol.parseRequest content) as [request|parseErr] eqn:Hparse;
      [|left; by injection Hp as _ <-].
    destruct (field request "method") as [| | |method| | |] eqn:Hmethod;
      try (left; by injection Hp as _ <-).
    destruct (isAllowed method) eqn:Hallowed; cbn [negb] in Hp;
      [|left; by injection Hp as _ <-].
    destruct (validateParams method _) as [|validErr] eqn:Hvalid;
      [|left; by injection Hp as _ <-].
    destruct (handlers st !! method) as [handler|] eqn:Hhandler;
      [|left; by injection Hp as _ <-].
    destruct (handler moho _) as [outcome moho1] eqn:Hcall.
    right. exists request, method, handler, outcome.
    repeat split; try done.
    destruct outcome as [err|result handlerErr].
    + by injection Hp as _ <-.
    + destruct (is_nil result && truthy handlerErr); by injection Hp as _ <-.
Qed.

End properties.

Section batch_properties.
Context {World : Type}.

Lemma step_without_stop (handlers : gmap string (handler World)) st i op :
  stoppedEarly st = false ->
  let st' := step handlers false st i op in
  stoppedEarly st' = false
  /\ executed st' = executed st + 1
  /\ succeeded st' + failed st' = succeeded st + failed st + 1
  /\ exists e, results st' = results st ++ [e]
               /\ field e "index" = VInt (Z.of_nat i)
               /\ field (field e "error") "code" <> VInt (-32000).
Proof.
  intros Hgo st'.
  destruct (step_turn handlers false st i op Hgo)
    as [result Hr Hs Hf He Hstop|code message Hr Hcode Hs Hf He Hstop];
    fold st' in Hr, Hs, Hf, He, Hstop.
  - repeat split; try done; try lia.
    eexists. split; [exact Hr|]. split; [apply success_entry_index|].
    by rewrite success_entry_no_error.
  - repeat split; try done; try lia.
    eexists. split; [exact Hr|]. split; [apply error_entry_index|].
    rewrite error_entry_code. intros [= ->]. lia.
Qed.

Lemma run_without_stop (handlers : gmap string (handler World)) ops :
  forall st i,
    stoppedEarly st = false ->
    let st' := run handlers false st i ops in
    stoppedEarly st' = false
    /\ executed st' = executed st + length ops
    /\ succeeded st' + failed st' = succeeded st + failed st + length ops
    /\ (forall j e, results st' !! (length (results st) + j) = Some e ->
          field e "index" = VInt (Z.of_nat (i + j))
          /\ field (field e "error") "code" <> VInt (-32000)).
Proof.
  induction ops as [|op ops IH]; intros st i Hgo; simpl.
  { split; [done|]. split; [lia|]. split; [lia|].
    intros j e Hj. apply lookup_lt_Some in Hj. lia. }
  destruct (step_without_stop handlers st i op Hgo)
    as (Hgo' & He & Hsf & e0 & Hr & Hidx & Hcode).
  destruct (IH (step handlers false st i op) (S i) Hgo')
    as (Hstop & He' & Hsf' & Hentries).
  split; [done|]. split; [lia|]. split; [lia|].
  intros j e Hj. destruct j as [|j].
  - rewrite Nat.add_0_r in *.
    destruct (run_results handlers false ops (step handlers false st i op) (S i))
      as (_ & Hkeep & _).
    rewrite (Hkeep (length (results st)) e0) in Hj
      by (rewrite Hr; apply list_lookup_middle; done).
    by injection Hj as <-.
  - replace (length (results st) + S j)
      with (length (results (step handlers false st i op)) + j) in Hj
      by (rewrite Hr, length_app; simpl; lia).
    apply Hentries in Hj as [Hi Hc].
    by replace (i + S j) with (S i + j) by lia.
Qed.

(** X16.  Without [stopOnError] a batch runs to its end: every operation
    is counted as executed, each as succeeded or as failed, nothing is
    skipped (no entry carries the code of a skipped operation), the batch
    does not stop early, and entry [i] of the results is the entry of
    operation [i]. *)
Theorem batch_without_stop_runs_every_operation
    (handlers : gmap string (handler World)) moho params ops flds flag :
  index params "operations" = Ok (VTable ops flds) ->
  index params "stopOnError" = Ok flag ->
  Lua.truthy flag = false ->
  0 < length ops <= MAX_OPERATIONS ->
  let st := run handlers false (initial moho) 1 ops in
  execute handlers moho params
  = (Returned (record [("results", VTable (results st) []);
                       ("summary", summary (length ops) st)]) VNil,
     world st)
  /\ length (results st) = length ops
  /\ executed st = length ops
  /\ succeeded st + failed st = length ops
  /\ stoppedEarly st = false
  /\ (forall i e, results st !! i = Some e ->
        field e "index" = VInt (Z.of_nat (S i))
        /\ field (field e "error") "code" <> VInt (-32000)).
Proof.
  intros Hops Hflag Hfalse Hlen st.
  destruct (run_without_stop handlers ops (initial moho) 1 eq_refl)
    as (Hstop & He & Hsf & Hentries).
  destruct (run_results handlers false ops (initial moho) 1) as (Hl & _ & _).
  fold st in Hstop, He, Hsf, Hentries, Hl. simpl in He, Hsf, Hl.
  split.
  { pose proof (execute_runs handlers moho params ops flds flag Hops Hflag Hlen)
      as Hexec.
    rewrite Hfalse in Hexec. exact Hexec. }
  split; [done|]. split; [done|]. split; [done|]. split; [done|].
  intros i e Hi. by apply (Hentries i e) in Hi.
Qed.

End batch_properties.
End dispatch_properties.

(** ** protocol.lua: the envelopes as texts *)

Module envelope_properties.
Import json json_values protocol server server_facts envelope_facts.

Section properties.
Context {World : Type} `{CRuntime}.

(** X17.  An error response is JSON-RPC on the wire: for a plain id and a
    code below 2^53, the text [createError] returns decodes to an object
    whose [jsonrpc] is ["2.0"], whose [error] holds the code and the
    message, that has no [result], and whose [id] is the id (no [id]
    member at all when the id is nil). *)
Theorem error_responses_decode_back id code message :
  plain id = true ->
  (Z.abs code < two_53)%Z ->
  exists text envelope,
    createError id code (VStr message) VNil = Ok text
    /\ decode text = Ok envelope
    /\ field envelope "jsonrpc" = VStr "2.0"
    /\ field envelope "error"
       = VTable [] [("code", VInt code); ("message", VStr message)]
    /\ field envelope "result" = VNil
    /\ field envelope "id" = (if is_nil id then VNil else normal id).
Proof. apply error_response_read. Qed.

(** X18.  A success response is JSON-RPC on the wire: for a plain id and a
    plain result, the text [createResponse] returns decodes to an object
    whose [jsonrpc] is ["2.0"], that has no [error], and whose [id] and
    [result] are the id and the result; a nil result (a handler that
    returned nothing) leaves the object without a [result] member. *)
Theorem success_responses_decode_back id result :
  plain id = true ->
  plain result = true ->
  exists text envelope,
    createResponse id result = Ok text
    /\ decode text = Ok envelope
    /\ field envelope "jsonrpc" = VStr "2.0"
    /\ field envelope "error" = VNil
    /\ field envelope "id" = (if is_nil id then VNil else normal id)
    /\ field envelope "result"
       = (if is_nil result then VNil else normal result).
Proof.
  intros Hid Hresult.
  destruct (plain_decode (response_table id result))
    as (text & Henc & Hdec); [by apply response_table_plain|].
  exists text, (normal (response_table id result)).
  split; [exact Henc|]. split; [exact Hdec|].
  destruct id as [| | | |arr fields| |], result as [| | | |arr' fields'| |];
    by repeat split.
Qed.

(** X19.  A request text that [parseRequest] refuses is answered with a
    well-formed error: [processRequest] returns a text, leaves the document
    alone, and the text decodes to the object with [jsonrpc = "2.0"] and
    the error of code -32700 that carries the message of the parser, and
    with no [id] member. *)
Theorem refused_request_texts_get_a_parse_error
    (st : state (World := World)) content moho message :
  parseRequest content = inr message ->
  exists text,
    processRequest st content moho = (Ok text, moho)
    /\ decode text
       = Ok (VTable []
               [("error", VTable [] [("code", VInt (-32700));
                                     ("message", VStr message)]);
                ("jsonrpc", VStr "2.0")]).
Proof.
  intros Hparse. rewrite (processRequest_parse_error st content message moho)
    by done.
  destruct (plain_decode (error_table VNil PARSE_ERROR (VStr message) VNil))
    as (text & Henc & Hdec); [done|].
  exists text. split; [|exact Hdec].
  unfold createError. by rewrite Henc.
Qed.

(** X20.  A request the codec writes is a request [parseRequest] accepts:
    for a plain id that is not nil, a method that is not empty and plain
    parameters, the text [json.encode] writes for the request table is
    accepted, and the request [parseRequest] returns carries the method,
    the id and the parameters. *)
Theorem encoded_requests_are_accepted id method params :
  plain id = true -> is_nil id = false ->
  method <> "" ->
  plain params = true ->
  let request :=
    record [("jsonrpc", VStr "2.0"); ("id", id);
            ("method", VStr method); ("params", params)] in
  exists text decoded,
    encode request = Ok text
    /\ parseRequest text = inl decoded
    /\ field decoded "jsonrpc" = VStr "2.0"
    /\ field decoded "id" = normal id
    /\ field decoded "method" = VStr method
    /\ field decoded "params"
       = (if is_nil params then VNil else normal params).
Proof.
  intros Hid Hsome Hmethod Hparams request.
  assert (plain request = true) as Hplain.
  { subst request.
    destruct id as [| | | |arr fields| |], params as [| | | |arr' fields'| |];
      simpl in *; try done; by rewrite ?Hid, ?Hparams. }
  destruct (plain_decode request Hplain) as (text & Henc & Hdec).
  exists text, (normal request). split; [exact Henc|].
  assert (field (normal request) "jsonrpc" = VStr "2.0"
          /\ field (normal request) "id" = normal id
          /\ field (normal request) "method" = VStr method
          /\ field (normal request) "params"
             = (if is_nil params then VNil else normal params)
          /\ type (normal request) = "table")
    as (Hv & Hi & Hm & Hp & Ht).
  { subst request.
    destruct id as [| | | |arr fields| |], params as [| | | |arr' fields'| |];
      try done; by repeat split. }
  split; [|done].
  unfold parseRequest. rewrite Hdec, Ht, Hv, Hi, Hm.
  assert (is_empty text = false) as ->.
  { destruct text; [|done]. unfold decode in Hdec. done. }
  cbn [String.eqb negb is_string]. rewrite normal_not_nil.
  destruct method; [done|done].
Qed.

End properties.
End envelope_properties.

(** ** MohoMCP_Server.lua: the registry and the menu command *)

Module script_facts.
Import validator server MohoMCP_Server.

Section facts.
Context {World : Type}.

Lemma existsb_elem_of (m : string) (l : list string) :
  existsb (String.eqb m) l = true <-> m ∈ l.
Proof.
  rewrite existsb_exists. split.
  - intros (x & Hx & Heq). apply String.eqb_eq in Heq as ->.
    by apply list_elem_of_In.
  - intros Hin. exists m. split; [by apply list_elem_of_In|].
    apply String.eqb_refl.
Qed.

Lemma register_lookup (toolMod : gmap string (handler World)) methods :
  forall registry method,
    fold_left (register toolMod) methods registry !! method
    = match (if decide (method ∈ methods) then after_dot method else None)
            ≫= (toolMod !!.) with
      | Some h => Some h
      | None => registry !! method
      end.
Proof.
  induction methods as [|m methods IH]; intros registry method.
  { cbn [fold_left]. by rewrite decide_False by apply not_elem_of_nil. }
  cbn [fold_left]. rewrite IH.
  destruct (decide (method ∈ methods)) as [Hin|Hout].
  - rewrite decide_True by (apply elem_of_cons; by right).
    destruct (after_dot method ≫= (toolMod !!.)) as [h|] eqn:Hbind; [done|].
    unfold register.
    destruct (after_dot m) as [f|] eqn:Hf; [|done].
    destruct (toolMod !! f) as [h|] eqn:Hh; [|done].
    destruct (decide (m = method)) as [->|Hne].
    + rewrite Hf in Hbind. cbn in Hbind. by rewrite Hh in Hbind.
    + by rewrite lookup_insert_ne.
  - cbn [mbind option_bind].
    destruct (decide (m = method)) as [->|Hne].
    + rewrite decide_True by (apply elem_of_cons; by left).
      unfold register.
      destruct (after_dot method) as [f|] eqn:Hf; [|done].
      cbn. destruct (toolMod !! f) as [h|] eqn:Hh; [|done].
      by rewrite lookup_insert_eq.
    + rewrite decide_False
        by (intros [->|?]%elem_of_cons; [done|done]).
      cbn. unfold register.
      destruct (after_dot m) as [f|]; [|done].
      destruct (toolMod !! f) as [h|]; [|done].
      by rewrite lookup_insert_ne.
Qed.

(** The registry after the loop over a list of tool modules. *)
Lemma modules_lookup_other
    (modules : string -> option (gmap string (handler World))) defs :
  forall registry method,
    method ∉ concat (map snd defs) ->
    fold_left
      (fun registry (toolDef : string * list string) =>
         match modules (fst toolDef) with
         | Some toolMod => fold_left (register toolMod) (snd toolDef) registry
         | None => registry
         end) defs registry !! method
    = registry !! method.
Proof.
  induction defs as [|[name methods] defs IH]; intros registry method Hout;
    [done|].
  cbn [fold_left fst snd]. cbn [map concat snd] in Hout.
  apply not_elem_of_app in Hout as [Hhere Hlater].
  rewrite IH by done.
  destruct (modules name) as [toolMod|]; [|done].
  rewrite register_lookup. by rewrite decide_False.
Qed.

Lemma modules_lookup_registered
    (modules : string -> option (gmap string (handler World))) defs :
  NoDup (concat (map snd defs)) ->
  forall registry name methods method funcName toolMod h,
    (name, methods) ∈ defs ->
    method ∈ methods ->
    modules name = Some toolMod ->
    after_dot method = Some funcName ->
    toolMod !! funcName = Some h ->
    fold_left
      (fun registry (toolDef : string * list string) =>
         match modules (fst toolDef) with
         | Some toolMod => fold_left (register toolMod) (snd toolDef) registry
         | None => registry
         end) defs registry !! method
    = Some h.
Proof.
  induction defs as [|[name' methods'] defs IH];
    intros Hdup registry name methods method funcName toolMod h
      Hdef Hmethod Hmod Hdot Hfun.
  { by apply elem_of_nil in Hdef. }
  cbn [map concat snd] in Hdup. apply NoDup_app in Hdup as (_ & Hsep & Hdup).
  cbn [fold_left fst snd].
  apply elem_of_cons in Hdef as [[= <- <-]|Hdef].
  - rewrite modules_lookup_other by (by apply Hsep).
    rewrite Hmod, register_lookup, decide_True by done.
    rewrite Hdot. cbn. by rewrite Hfun.
  - by apply (IH Hdup _ name methods method funcName toolMod h).
Qed.

Lemma modules_lookup_some
    (modules : string -> option (gmap string (handler World))) defs :
  forall registry method,
    is_Some (fold_left
      (fun registry (toolDef : string * list string) =>
         match modules (fst toolDef) with
         | Some toolMod => fold_left (register toolMod) (snd toolDef) registry
         | None => registry
         end) defs registry !! method) ->
    is_Some (registry !! method) \/ method ∈ concat (map snd defs).
Proof.
  induction defs as [|[name methods] defs IH]; intros registry method Hsome;
    [by left|].
  cbn [fold_left fst snd] in Hsome. cbn [map concat snd].
  apply IH in Hsome as [Hsome|Hin]; [|right; apply elem_of_app; by right].
  destruct (modules name) as [toolMod|]; [|by left].
  rewrite register_lookup in Hsome.
  destruct (decide (method ∈ methods)) as [Hin|Hout];
    [right; apply elem_of_app; by left|].
  by left.
Qed.

End facts.
End script_facts.

Module script_properties.
Import validator server server_facts MohoMCP_Server script_facts.
Import lifecycle_results bridge bridge_facts.

Section properties.
Context {World : Type} `{CRuntime} `{JsRuntime}.

(** X21.  The registry [loadModules] builds and the allow-list fit: the
    methods the tool modules are asked for are the methods of the
    allow-list, each in one module; only a method of the allow-list ever
    gets a handler; and a method of the allow-list gets the function of
    its module that is named behind the dot, when the module loads and has
    the function. *)
Theorem registry_and_allow_list_fit
    (modules : string -> option (gmap string (handler World))) :
  (forall method,
     isAllowed method = true <-> method ∈ concat (map snd toolModules))
  /\ NoDup (concat (map snd toolModules))
  /\ (forall method,
        is_Some (loadModules modules !! method) -> isAllowed method = true)
  /\ (forall name methods method funcName toolMod h,
        (name, methods) ∈ toolModules ->
        method ∈ methods ->
        modules name = Some toolMod ->
        after_dot method = Some funcName ->
        toolMod !! funcName = Some h ->
        loadModules modules !! method = Some h).
Proof.
  assert (forall method,
            isAllowed method = true <-> method ∈ concat (map snd toolModules))
    as Hsame.
  { intros method. unfold isAllowed. rewrite existsb_elem_of.
    assert (allowedMethods ⊆ concat (map snd toolModules)) as H1
      by (apply (bool_decide_unpack _); by vm_compute).
    assert (concat (map snd toolModules) ⊆ allowedMethods) as H2
      by (apply (bool_decide_unpack _); by vm_compute).
    split; [apply H1|apply H2]. }
  assert (NoDup (concat (map snd toolModules))) as Hdup
    by (apply (bool_decide_unpack _); by vm_compute).
  split; [exact Hsame|]. split; [exact Hdup|]. split.
  - intros method Hsome. apply Hsame.
    apply modules_lookup_some in Hsome as [[h Hh]|Hin]; [|done].
    by rewrite lookup_empty in Hh.
  - intros name methods method funcName toolMod h.
    by apply modules_lookup_registered.
Qed.

Lemma res_bind_ok {A B} (a : A) (k : A -> res B) : (Ok a ≫= k) = k a.
Proof. reflexivity. Qed.

(** X22.  The menu command toggles the server and leaves the document
    alone.  When the core modules do not load it does nothing.  Otherwise,
    with the server the script holds or the one it has just loaded: a
    running server is stopped, the status file is gone, polling is off and
    the menu update no longer polls; a stopped server is started when the
    write of the test file goes through, the status file is there and
    polling is on; and when that write fails the server stays stopped, the
    alert carries the message of [server.start], polling is as it was and
    the status file is as it was.  After a start and after a stop the scan
    finds neither a request nor a response. *)
Theorem menu_command_toggles_the_server
    (env : environment (World := World)) (sc : script) moho (dir : directory) :
  (isLoaded sc = false -> coreLoads env = false ->
   Run env sc moho dir = Ok (LoadFailed, sc, moho, dir))
  /\ forall srv,
       (isLoaded sc = true /\ MohoMCP_Server.server sc = Some srv)
       \/ (isLoaded sc = false /\ coreLoads env = true
           /\ srv = {| isRunning := false;
                       handlers := loadModules (toolModule env) |}) ->
       (isRunning srv = true ->
        exists dir',
          let sc' :=
            {| isLoaded := true; pollActive := false;
               hooksInstalled := hooksInstalled sc;
               MohoMCP_Server.server :=
                 Some {| isRunning := false; handlers := handlers srv |} |} in
          Run env sc moho dir = Ok (Stopped, sc', moho, dir')
          /\ dir' !! "status.json" = None
          /\ findFilesByPrefix dir' "req_" = []
          /\ findFilesByPrefix dir' "resp_" = []
          /\ forall moho1 d, IsEnabled sc' moho1 d = (moho1, d))
       /\ (isRunning srv = false -> testWrite env = None ->
           exists dir',
             Run env sc moho dir
             = Ok (Started (ipcDir env),
                   {| isLoaded := true; pollActive := true;
                      hooksInstalled := true;
                      MohoMCP_Server.server :=
                        Some {| isRunning := true;
                                handlers := handlers srv |} |},
                   moho, dir')
             /\ is_Some (dir' !! "status.json")
             /\ findFilesByPrefix dir' "req_" = []
             /\ findFilesByPrefix dir' "resp_" = [])
       /\ (isRunning srv = false ->
           forall failure, testWrite env = Some failure ->
           exists err dir',
             Run env sc moho dir
             = Ok (StartFailed ("Cannot write to IPC directory "
                                +:+ ipcDir env +:+ ": " +:+ err),
                   {| isLoaded := true; pollActive := pollActive sc;
                      hooksInstalled := hooksInstalled sc;
                      MohoMCP_Server.server := Some srv |},
                   moho, dir')
             /\ dir' !! "status.json" = dir !! "status.json").
Proof.
  split.
  { intros Hl Hc. unfold Run, load. by rewrite Hl, Hc. }
  intros srv Hsrv.
  assert (load env sc
          = (true, {| isLoaded := true; pollActive := pollActive sc;
                      hooksInstalled := hooksInstalled sc;
                      MohoMCP_Server.server := Some srv |})) as Hload.
  { unfold load. destruct Hsrv as [[Hl Hs]|(Hl & Hc & ->)].
    - rewrite Hl. destruct sc; simpl in *. by subst.
    - by rewrite Hl, Hc. }
  unfold Run. rewrite Hload. cbn [negb MohoMCP_Server.server isLoaded
                                  pollActive hooksInstalled].
  split; [|split].
  - intros Hrun. rewrite Hrun.
    destruct (stop_result srv dir Hrun)
      as (dir' & -> & Hstatus & Hreq & Hresp & _).
    exists dir'. split; [reflexivity|]. split; [exact Hstatus|].
    split; [exact Hreq|]. split; [exact Hresp|]. by intros moho1 d.
  - intros Hrun Hwrite. rewrite Hrun, Hwrite.
    destruct (start_result (ipcDir env) (startedAt env) srv dir Hrun)
      as (status & dir' & -> & Hstatus & _ & Hreq & Hresp & Hpoll & _).
    exists dir'. rewrite res_bind_ok. cbv beta iota. rewrite Hpoll.
    rewrite res_bind_ok.
    split; [reflexivity|]. split; [by eexists|].
    split; [exact Hreq|exact Hresp].
  - intros Hrun failure Hwrite. rewrite Hrun, Hwrite.
    destruct (start_refused (ipcDir env) (startedAt env) failure srv dir Hrun)
      as (err & dir' & -> & Hother).
    exists err, dir'. rewrite res_bind_ok. cbv beta iota.
    split; [reflexivity|]. apply Hother.
    repeat (apply not_elem_of_cons; split; [done|]). apply not_elem_of_nil.
Qed.

(** X23.  Once the server is stopped, a client that connects is told that
    there is no status file; the ticks of the stopped server change
    nothing; and the call of a client that was connected before, with an
    id up to 101, finds no response and ends with a timeout once the clock
    has passed it. *)
Theorem after_stop_nobody_answers
    (st : state (World := World)) (dir : directory) :
  isRunning st = true ->
  exists st' dir',
    stop st dir = (st', dir')
    /\ (forall cl, connected cl = false -> connect cl dir' = inr NoStatusFile)
    /\ (forall moho k d, server_ticks st' moho k d = d)
    /\ (forall (clock : nat -> Z) (ticks : nat -> nat) moho
               cfg cl method params timeoutOption,
          connected cl = true ->
          1 <= nextId cl <= 101 ->
          (exists n, (clock (S n) - clock O
                      > default (requestTimeout cfg) timeoutOption)%Z) ->
          exists k, forall fuel, k < fuel ->
            exists dir'',
              sendRequest clock (fun n => server_ticks st' moho (ticks n))
                fuel cfg cl method params timeoutOption dir'
              = Some (TimedOut method (nextId cl)
                        (default (requestTimeout cfg) timeoutOption),
                      {| nextId := S (nextId cl); connected := true |},
                      dir'')).
Proof.
  intros Hrun.
  destruct (stop_result st dir Hrun)
    as (dir' & Hstop & Hstatus & Hreq & Hresp & Hpoll & _).
  eexists _, dir'. split; [exact Hstop|].
  assert (forall moho k d,
            server_ticks {| isRunning := false; handlers := handlers st |}
              moho k d = d) as Hidle.
  { intros moho k d. induction k as [|k IH]; [done|]. simpl. exact IH. }
  split.
  { intros cl Hcl. unfold connect. by rewrite Hcl, Hstatus. }
  split; [exact Hidle|].
  intros clock ticks moho cfg cl method params timeoutOption Hconn Hid Hlate.
  destruct (sendRequest_times_out clock
              (fun n => server_ticks
                          {| isRunning := false; handlers := handlers st |}
                          moho (ticks n))
              cfg cl method params timeoutOption dir' Hconn)
    as (k & _ & _ & Hk); [|done|].
  { intros n.
    assert (forall d m,
              seen_from (fun n => server_ticks
                           {| isRunning := false; handlers := handlers st |}
                           moho (ticks n)) 0 m d = d) as Hseen.
    { intros d m. induction m as [|m IH]; simpl; [|rewrite IH]; apply Hidle. }
    rewrite Hseen. unfold writeRequest.
    rewrite lookup_insert_ne
      by (intros Heq; by apply request_not_response in Heq).
    rewrite lookup_delete_ne
      by (intros Heq; symmetry in Heq; by apply response_not_request_tmp in Heq).
    rewrite lookup_insert_ne
      by (intros Heq; symmetry in Heq; by apply response_not_request_tmp in Heq).
    by apply (scan_empty_no_file dir' "resp_"). }
  exists k. intros fuel Hfuel. destruct (Hk fuel Hfuel) as (dir'' & Hsend & _).
  by exists dir''.
Qed.

End properties.
End script_properties.
(** * The properties at work on examples *)

Module examples.
Import server bridge.
#[local] Existing Instance example_runtime.
#[local] Existing Instance example_js.

Example decode_request :
  json.decode getInfo_request
  = Ok (VTable [] [("jsonrpc", VStr "2.0"); ("id", VInt 1);
                   ("method", VStr "document.getInfo")]).
Proof. vm_compute. reflexivity. Qed.

Example encode_error :
  protocol.createError VNil protocol.PARSE_ERROR (VStr "Parse error") VNil
  = Ok (jtext "{'error':{'code':-32700,'message':'Parse error'},'jsonrpc':'2.0'}").
Proof. vm_compute. reflexivity. Qed.

Example batch_without_stop :
  let st := batch.run (handlers example_server) false (batch.initial []) 1
              example_ops in
  (batch.executed st, batch.succeeded st, batch.failed st,
   batch.stoppedEarly st, batch.world st)
  = (3, 2, 1, false, ["getInfo"; "getLayers"; "getInfo"]).
Proof. vm_compute. reflexivity. Qed.

(** The smallest integer of Lua: [math.abs] gives it back, which is below
    2^53, so it is written with [%.0f]. *)
Example encode_mininteger :
  json.math_abs (-9223372036854775808) = (-9223372036854775808)%Z
  /\ json.encode (VInt (-9223372036854775808))
     = Ok "-9223372036854775808".
Proof. split; vm_compute; reflexivity. Qed.

(** The request a client writes for its call number 7 is a request for the
    server, with the id 7. *)
Example client_request_is_accepted :
  exists request,
    protocol.parseRequest
      (JSON_stringify (request_object 7 "document.getInfo" (JObject [])))
    = inl request
    /\ field request "jsonrpc" = VStr "2.0"
    /\ field request "id" = VInt 7
    /\ field request "method" = VStr "document.getInfo".
Proof.
  eexists. split; [vm_compute; reflexivity|].
  split; [reflexivity|]. split; reflexivity.
Qed.

(** The registries of the examples hold [batch.execute] as [loadModules]
    registers it. *)
Lemma registered_with_tools (tools : gmap string (handler (list string))) :
  batch_registered
    {| isRunning := true;
       handlers := <["batch.execute" := batch.execute tools]> tools |}.
Proof.
  exists (batch.execute tools). split; [apply lookup_insert_eq|].
  intros moho params. apply batch_facts.execute_ext.
  intros method Hallowed. cbn [handlers]. symmetry.
  apply lookup_insert_ne. intros <-. done.
Qed.



(** The batch [A, B, C] with [stopOnError]: [A] succeeded, [B] failed, [C]
    skipped, two operations executed, stopped early. *)
Lemma C1_witness :
  let params := example_batch true in
  let st := batch.run (handlers example_server) true (batch.initial []) 1
              example_ops in
  index params "operations" = Ok (VTable example_ops [])
  /\ index params "stopOnError" = Ok (VBool true)
  /\ 0 < length example_ops <= batch.MAX_OPERATIONS
  /\ (exists e, batch.results st !! 1 = Some e
                /\ field e "success" = VBool false)
  /\ (forall j e, j < 1 -> batch.results st !! j = Some e ->
                  field e "success" = VBool true)
  /\ exists result entries,
       batch.execute (handlers example_server) [] params
       = (Returned result VNil, batch.world st)
       /\ field result "results" = VTable entries []
       /\ length entries = 3
       /\ (exists entry,
             entries !! 2 = Some entry
             /\ failed_with entry (-32000) (VStr "Skipped (stopOnError)"))
       /\ batch.world st = ["getLayers"; "getInfo"]
       /\ field (field result "summary") "total" = VInt 3
       /\ field (field result "summary") "executed" = VInt 2
       /\ field (field result "summary") "succeeded" = VInt 1
       /\ field (field result "summary") "failed" = VInt 1
       /\ field (field result "summary") "stoppedEarly" = VBool true.
Proof.
  intros params st.
  assert (index params "operations" = Ok (VTable example_ops [])) as H1
    by reflexivity.
  assert (index params "stopOnError" = Ok (VBool true)) as H2 by reflexivity.
  assert (0 < length example_ops <= batch.MAX_OPERATIONS) as H3
    by (vm_compute; lia).
  assert (exists e, batch.results st !! 1 = Some e
                    /\ field e "success" = VBool false) as H4.
  { eexists. split; vm_compute; reflexivity. }
  assert (forall j e, j < 1 -> batch.results st !! j = Some e ->
                      field e "success" = VBool true) as H5.
  { intros j e Hj He. assert (j = 0) as -> by lia.
    vm_compute in He. injection He as <-. reflexivity. }
  destruct (batch_claims.C1_stop_on_error_skips_the_rest
              (handlers example_server) [] params example_ops [] (VBool true)
              1 H1 H2 eq_refl H3 H4 H5)
    as (result & entries & e & s & f & Hexec & Hresults & _ & Hlen & _
        & Hskip & _ & _ & Htotal & Hexecuted & Hsucceeded & Hfailed
        & Hstopped & -> & -> & -> & _).
  split; [exact H1|]. split; [exact H2|]. split; [exact H3|].
  split; [exact H4|]. split; [exact H5|].
  exists result, entries.
  split; [exact Hexec|]. split; [exact Hresults|]. split; [exact Hlen|].
  split; [apply (Hskip 2); vm_compute; lia|].
  split; [vm_compute; reflexivity|].
  split; [exact Htotal|]. split; [exact Hexecuted|].
  split; [exact Hsucceeded|]. split; [exact Hfailed|exact Hstopped].
Defined.

(** A batch that ends with a denylisted method: the summary counts it as
    executed and as failed, and the document is as the first operation
    left it. *)
Lemma C10_witness :
  let handlers := handlers example_server in
  let ops := [op "document.getInfo"; op "document.screenshot"] in
  let params := record [("operations", VTable ops [])] in
  rejected_before_dispatch handlers (op "document.screenshot")
  /\ index params "operations" = Ok (VTable ops [])
  /\ index params "stopOnError" = Ok VNil
  /\ 0 < length ops <= batch.MAX_OPERATIONS
  /\ exists result,
       batch.execute handlers [] params = (Returned result VNil, ["getInfo"])
       /\ field (field result "summary") "total" = VInt 2
       /\ field (field result "summary") "executed" = VInt 2
       /\ field (field result "summary") "succeeded" = VInt 1
       /\ field (field result "summary") "failed" = VInt 1.
Proof.
  intros handlers ops params.
  assert (rejected_before_dispatch handlers (op "document.screenshot")) as Hrej.
  { right. right. exists "document.screenshot".
    split; [reflexivity|]. left. reflexivity. }
  assert (index params "operations" = Ok (VTable ops [])) as H1 by reflexivity.
  assert (index params "stopOnError" = Ok VNil) as H2 by reflexivity.
  assert (0 < length ops <= batch.MAX_OPERATIONS) as H3 by (vm_compute; lia).
  destruct (batch_claims.C10_rejected_counts_as_executed handlers false)
    as (_ & _ & _ & Hsummary).
  destruct (Hsummary [] params ops [] VNil H1 H2 eq_refl H3)
    as (result & moho' & e & s & f & Hexec & Htotal & Hexecuted & Hsucceeded
        & Hfailed & _ & _ & Hlast).
  destruct (Hlast [op "document.getInfo"] (op "document.screenshot") eq_refl)
    as (Hcounted & _).
  destruct (Hcounted eq_refl Hrej) as (-> & -> & -> & ->).
  split; [exact Hrej|]. split; [exact H1|]. split; [exact H2|].
  split; [exact H3|]. exists result.
  split; [exact Hexec|]. split; [exact Htotal|]. split; [exact Hexecuted|].
  split; [exact Hsucceeded|exact Hfailed].
Defined.

(** A batch of 51 operations, and the request that carries it. *)
Lemma C8_witness :
  let ops := repeat (op "document.getInfo") 51 in
  let message := "Too many operations: 51 (max 50)" in
  index example_long_batch "operations" = Ok (VTable ops [])
  /\ index example_long_batch "stopOnError" = Ok VNil
  /\ 50 < length ops
  /\ batch.execute (handlers example_server) ([] : list string)
       example_long_batch
     = (Returned VNil (VStr message), [])
  /\ exists text envelope,
       processRequest example_server long_batch_request [] = (Ok text, [])
       /\ json.decode text = Ok envelope
       /\ field envelope "error"
          = VTable [] [("code", VInt (-32603)); ("message", VStr message)]
       /\ field envelope "result" = VNil
       /\ field envelope "id" = VInt 8.
Proof.
  intros ops message.
  assert (index example_long_batch "operations" = Ok (VTable ops [])) as H1
    by reflexivity.
  assert (index example_long_batch "stopOnError" = Ok VNil) as H2
    by reflexivity.
  assert (50 < length ops) as H3 by (vm_compute; lia).
  destruct (server_claims.C8_too_many_operations_rejected
              (handlers example_server) [] example_long_batch ops [] VNil
              H1 H2 H3) as (_ & Hexec & Hrequest).
  assert (protocol.parseRequest long_batch_request
          = inl (VTable [] [("jsonrpc", VStr "2.0"); ("id", VInt 8);
                            ("method", VStr "batch.execute");
                            ("params", example_long_batch)])) as Hp
    by (vm_compute; reflexivity).
  destruct (Hrequest example_server long_batch_request _ Hp eq_refl eq_refl)
    as (_ & Hread & _).
  destruct (Hread (registered_with_tools example_tools) eq_refl)
    as (text & envelope & Hanswer & Hdec & Herror & Hresult & Hid).
  split; [exact H1|]. split; [exact H2|]. split; [exact H3|].
  split; [exact Hexec|]. exists text, envelope.
  split; [exact Hanswer|]. split; [exact Hdec|]. split; [exact Herror|].
  split; [exact Hresult|exact Hid].
Defined.

(** [bone.getProperties] with a [layerId] and no [boneId]. *)
Lemma C5_witness :
  let schema := [validator.req "layerId" "number";
                 validator.req "boneId" "number"] in
  let params := record [("layerId", VInt 1)] in
  validator.schema_of "bone.getProperties" validator.paramSchemas = Some schema
  /\ type params = "table"
  /\ is_nil (field params "boneId") = true
  /\ validator.validateParams "bone.getProperties" params
     = validator.Invalid "Missing required parameter: boneId".
Proof.
  intros schema params.
  assert (validator.schema_of "bone.getProperties" validator.paramSchemas
          = Some schema) as H1 by reflexivity.
  destruct validator_claims.C5_validation_reports_the_first_violation
    as (Hgeneral & _).
  destruct (Hgeneral "bone.getProperties" schema params H1)
    as (_ & _ & Hfirst & _).
  destruct (Hfirst [validator.req "layerId" "number"]
              (validator.req "boneId" "number") [] eq_refl eq_refl)
    as (Hmissing & _).
  { intros g Hg. apply list_elem_of_singleton in Hg as ->.
    split; reflexivity. }
  split; [exact H1|]. split; [reflexivity|]. split; [reflexivity|].
  exact (Hmissing eq_refl).
Defined.

(** Texts the parsers refuse: for the server a text that is no JSON, an
    array, and an object without the version tag; for the client the same
    kinds of text, with white space around them. *)
Lemma C6_witness :
  let no_json := "{oops" in
  let array := "[1,2]" in
  let untagged := jtext "{'id':1,'method':'document.getInfo'}" in
  ((exists m, json.decode no_json = Raise m)
   /\ exists message,
        protocol.parseRequest no_json = inr message
        /\ processRequest example_server no_json []
           = (protocol.createError VNil protocol.PARSE_ERROR (VStr message)
                VNil, []))
  /\ ((exists v, json.decode array = Ok v /\ is_object v = false)
      /\ exists message, protocol.parseRequest array = inr message)
  /\ ((exists v, json.decode untagged = Ok v
                 /\ field v "jsonrpc" <> VStr "2.0")
      /\ exists message, protocol.parseRequest untagged = inr message)
  /\ (JSON_parse (trim (" " +:+ no_json)) = None
      /\ exists e, parseResponse (" " +:+ no_json) = inr e)
  /\ ((exists v, JSON_parse (trim (array +:+ " ")) = Some v
                 /\ is_js_object v = false)
      /\ exists e, parseResponse (array +:+ " ") = inr e)
  /\ ((exists v, JSON_parse (trim untagged) = Some v
                 /\ prop v "jsonrpc" <> Some (JString "2.0"))
      /\ exists e, parseResponse untagged = inr e).
Proof.
  intros no_json array untagged.
  destruct (server_claims.C6_malformed_input_is_refused
              (World := list string)) as (Hserver & Hclient).
  assert (exists m, json.decode no_json = Raise m) as H1
    by (eexists; vm_compute; reflexivity).
  assert (exists v, json.decode array = Ok v /\ is_object v = false) as H2
    by (eexists; split; vm_compute; reflexivity).
  assert (exists v, json.decode untagged = Ok v
                    /\ field v "jsonrpc" <> VStr "2.0") as H3
    by (eexists; split; [vm_compute; reflexivity|vm_compute; discriminate]).
  assert (JSON_parse (trim (" " +:+ no_json)) = None) as H4
    by (vm_compute; reflexivity).
  assert (exists v, JSON_parse (trim (array +:+ " ")) = Some v
                    /\ is_js_object v = false) as H5
    by (eexists; split; vm_compute; reflexivity).
  assert (exists v, JSON_parse (trim untagged) = Some v
                    /\ prop v "jsonrpc" <> Some (JString "2.0")) as H6
    by (eexists; split; [vm_compute; reflexivity|vm_compute; discriminate]).
  split.
  { split; [exact H1|].
    destruct (Hserver no_json (or_intror (or_introl H1)))
      as (message & Hp & Hanswer).
    exists message. split; [exact Hp|apply Hanswer]. }
  split.
  { split; [exact H2|].
    destruct (Hserver array (or_intror (or_intror (or_introl H2))))
      as (message & Hp & _).
    by exists message. }
  split.
  { split; [exact H3|].
    destruct (Hserver untagged (or_intror (or_intror (or_intror H3))))
      as (message & Hp & _).
    by exists message. }
  split.
  { split; [exact H4|].
    exact (Hclient (" " +:+ no_json) (or_intror (or_introl H4))). }
  split.
  { split; [exact H5|].
    exact (Hclient (array +:+ " ")
             (or_intror (or_intror (or_introl H5)))). }
  split; [exact H6|].
  exact (Hclient untagged (or_intror (or_intror (or_intror H6)))).
Defined.






(** A call with a timeout of 2.5 seconds on a clock that reads a second
    more at every look: it is still waiting after two looks and fails at
    the third. *)
Lemma C4_witness :
  let written :=
    writeRequest ∅ (request_name 150)
      (JSON_stringify (request_object 150 "document.getInfo" (JObject []))) in
  connected example_client = true
  /\ (forall n, seen_from nobody 0 n written !! response_name 150 = None)
  /\ (exists n, (example_clock (S n) - example_clock O > 2500)%Z)
  /\ sendRequest example_clock nobody 2 default_config
       example_client "document.getInfo" (JObject []) (Some 2500%Z) ∅
     = None
  /\ exists dir',
       sendRequest example_clock nobody 3 default_config
         example_client "document.getInfo" (JObject []) (Some 2500%Z) ∅
       = Some (TimedOut "document.getInfo" 150 2500,
               {| nextId := 151; connected := true |}, dir')
       /\ dir' !! request_name 150 = None.
Proof.
  intros written.
  assert (forall n, seen_from nobody 0 n written !! response_name 150 = None)
    as Hnone.
  { intros n.
    assert (seen_from nobody 0 n written = written) as ->
      by (induction n as [|n IH]; simpl; [reflexivity|exact IH]).
    vm_compute. reflexivity. }
  assert (exists n, (example_clock (S n) - example_clock O > 2500)%Z) as Hlate
    by (exists 2; vm_compute; reflexivity).
  destruct (server_claims.C4_request_times_out_and_cleans_up
              example_clock nobody default_config example_client
              "document.getInfo" (JObject []) (Some 2500%Z) ∅ eq_refl
              Hnone Hlate) as (k & Hk & Hearly & Hwaiting & Hsend & Hgone).
  assert (k = 2) as ->.
  { destruct (Nat.lt_trichotomy k 2) as [Hlt|[->|Hgt]]; [|reflexivity|].
    - exfalso. destruct k as [|[|k]]; [| |lia]; vm_compute in Hk; done.
    - exfalso. specialize (Hearly 2 Hgt). vm_compute in Hearly. by apply Hearly. }
  split; [reflexivity|]. split; [exact Hnone|]. split; [exact Hlate|].
  split; [apply Hwaiting; lia|].
  eexists. split; [apply Hsend; lia|exact Hgone].
Defined.

(** A lone [req_150.json]: the scan does not reach it. *)
Lemma C9_witness :
  let dir : directory := {[ request_name 150 := getInfo_request ]} in
  request_name 150 = "req_150.json"
  /\ (forall id, 1 <= id <= 101 -> dir !! request_name id = None)
  /\ findFilesByPrefix dir "req_" = []
  /\ poll example_server [] dir = Ok ([], dir)
  /\ dir !! request_name 150 = Some getInfo_request.
Proof.
  intros dir.
  assert (forall id, 1 <= id <= 101 -> dir !! request_name id = None) as Hgap.
  { intros id Hid. apply lookup_singleton_ne.
    intros Heq. apply request_name_inj in Heq. lia. }
  destruct (server_claims.C9_scan_stops_after_a_gap example_server [] dir Hgap)
    as (_ & Hscan & Hpoll & _).
  split; [vm_compute; reflexivity|]. split; [exact Hgap|].
  split; [exact Hscan|]. split; [exact Hpoll|].
  apply lookup_singleton_eq.
Defined.

End examples.

(** * The further properties at work on examples *)

Module more_examples.
Import server bridge.
#[local] Existing Instance example_runtime.
#[local] Existing Instance example_js.

(** A string with quotes in it. *)
Lemma strings_survive_witness :
  json.decode (json.encode_string (jtext "say 'hi'"))
  = Ok (VStr (jtext "say 'hi'")).
Proof.
  exact (proj2 (proj2 (json_properties.strings_survive_the_codec
                         (jtext "say 'hi'")))).
Defined.

(** A table with a number, a string, a boolean and a nested sequence. *)
Lemma plain_values_witness :
  let v :=
    VTable [] [("tags", VTable [VStr "a"; VStr "b"] []); ("id", VInt 7);
               ("name", VStr "arm"); ("visible", VBool true)] in
  proper v = true
  /\ plain v = true
  /\ normal v
     = VTable [] [("id", VInt 7); ("name", VStr "arm");
                  ("tags", VTable [VStr "a"; VStr "b"] []);
                  ("visible", VBool true)]
  /\ exists text, json.encode v = Ok text /\ json.decode text = Ok (normal v).
Proof.
  intros v. split; [reflexivity|]. split; [reflexivity|].
  split; [vm_compute; reflexivity|].
  exact (json_properties.plain_values_survive_the_codec v eq_refl eq_refl).
Defined.

(** The request text of the examples decodes to a table of string keys. *)
Lemma decoded_values_witness :
  let v := VTable [] [("jsonrpc", VStr "2.0"); ("id", VInt 1);
                      ("method", VStr "document.getInfo")] in
  json.decode getInfo_request = Ok v /\ json_shaped v = true.
Proof.
  intros v.
  assert (json.decode getInfo_request = Ok v) as Hd by (vm_compute; reflexivity).
  split; [exact Hd|].
  exact (json_properties.decoded_values_are_json_shaped getInfo_request v Hd).
Defined.

(** A sequence with a NaN in it. *)
Lemma encoder_refuses_witness :
  encoder_accepts (VTable [VInt 1; VNum NNaN] []) = false
  /\ json.encode (VTable [VInt 1; VNum NNaN] [])
     = Raise "json.encode: json.lua:78: cannot encode NaN as JSON"
  /\ exists m,
       json.encode (VTable [VInt 1; VNum NNaN] [])
       = Raise ("json.encode: " +:+ m)
       /\ (m = where_json 78 +:+ "cannot encode NaN as JSON"
           \/ m = where_json 80 +:+ "cannot encode Infinity as JSON"
           \/ m = where_json 82 +:+ "cannot encode -Infinity as JSON"
           \/ m = where_json 222
                   +:+ "cannot encode value of type function as JSON").
Proof.
  split; [reflexivity|]. split; [vm_compute; reflexivity|].
  apply (proj2 (json_properties.encoder_refuses_exactly_what_is_no_data
                  (VTable [VInt 1; VNum NNaN] []))).
  reflexivity.
Defined.

(** A text between a space and a newline. *)
Lemma white_space_witness :
  json.decode "[1]" = Ok (VTable [VInt 1] [])
  /\ blank " " = true
  /\ blank (String "010"%char "") = true
  /\ json.decode (" " +:+ "[1]" +:+ String "010"%char "")
     = Ok (VTable [VInt 1] []).
Proof.
  assert (json.decode "[1]" = Ok (VTable [VInt 1] [])) as Hd
    by (vm_compute; reflexivity).
  split; [exact Hd|]. split; [reflexivity|]. split; [reflexivity|].
  apply (json_properties.decode_ignores_white_space_around
           "[1]" " " (String "010"%char "") _ Hd); reflexivity.
Defined.

(** The same two members in either order. *)
Lemma member_order_witness :
  let fields := [("b", VInt 1); ("a", VInt 2)] in
  let fields' := [("a", VInt 2); ("b", VInt 1)] in
  fields <> []
  /\ NoDup (map fst fields)
  /\ fields ≡ₚ fields'
  /\ json.encode (VTable [] fields) = json.encode (VTable [VInt 9] fields').
Proof.
  intros fields fields'.
  assert (fields <> []) as H1 by (intros Heq; discriminate Heq).
  assert (NoDup (map fst fields)) as H2
    by (apply (bool_decide_unpack _); vm_compute; exact I).
  assert (fields ≡ₚ fields') as H3 by apply Permutation_swap.
  split; [exact H1|]. split; [exact H2|]. split; [exact H3|].
  exact (json_properties.object_text_ignores_the_order_of_the_members
           [] [VInt 9] fields fields' H1 H2 H3).
Defined.

(** An error response for the id 1. *)
Lemma error_response_witness :
  plain (VInt 1) = true
  /\ (Z.abs (-32601) < json.two_53)%Z
  /\ exists text envelope,
       protocol.createError (VInt 1) (-32601) (VStr "Method not found: x") VNil
       = Ok text
       /\ json.decode text = Ok envelope
       /\ field envelope "id" = VInt 1
       /\ field (field envelope "error") "code" = VInt (-32601).
Proof.
  split; [reflexivity|]. split; [reflexivity|].
  destruct (envelope_properties.error_responses_decode_back
              (VInt 1) (-32601)%Z "Method not found: x" eq_refl eq_refl)
    as (text & envelope & Henc & Hdec & _ & Herror & _ & Hid).
  exists text, envelope. split; [exact Henc|]. split; [exact Hdec|].
  split; [exact Hid|]. rewrite Herror. reflexivity.
Defined.

(** A success response for the id 1. *)
Lemma success_response_witness :
  plain (VInt 1) = true
  /\ plain (VStr "info") = true
  /\ exists text envelope,
       protocol.createResponse (VInt 1) (VStr "info") = Ok text
       /\ json.decode text = Ok envelope
       /\ field envelope "id" = VInt 1
       /\ field envelope "result" = VStr "info"
       /\ field envelope "error" = VNil.
Proof.
  split; [reflexivity|]. split; [reflexivity|].
  destruct (envelope_properties.success_responses_decode_back
              (VInt 1) (VStr "info") eq_refl eq_refl)
    as (text & envelope & Henc & Hdec & _ & Herror & Hid & Hresult).
  exists text, envelope. split; [exact Henc|]. split; [exact Hdec|].
  split; [exact Hid|]. split; [exact Hresult|exact Herror].
Defined.

(** An empty request file. *)
Lemma refused_request_witness :
  protocol.parseRequest ""
  = inr "Invalid input: expected non-empty JSON string"
  /\ exists text,
       processRequest example_server "" ([] : list string) = (Ok text, [])
       /\ json.decode text
          = Ok (VTable []
                  [("error",
                    VTable []
                      [("code", VInt (-32700));
                       ("message",
                        VStr "Invalid input: expected non-empty JSON string")]);
                   ("jsonrpc", VStr "2.0")]).
Proof.
  split; [reflexivity|].
  exact (envelope_properties.refused_request_texts_get_a_parse_error
           example_server "" ([] : list string)
           "Invalid input: expected non-empty JSON string" eq_refl).
Defined.

(** A request for [document.getInfo] with the id 3. *)
Lemma encoded_request_witness :
  let request :=
    record [("jsonrpc", VStr "2.0"); ("id", VInt 3);
            ("method", VStr "document.getInfo"); ("params", VTable [] [])] in
  plain (VInt 3) = true
  /\ is_nil (VInt 3) = false
  /\ "document.getInfo" <> ""
  /\ plain (VTable [] []) = true
  /\ exists text decoded,
       json.encode request = Ok text
       /\ protocol.parseRequest text = inl decoded
       /\ field decoded "id" = VInt 3
       /\ field decoded "method" = VStr "document.getInfo".
Proof.
  intros request.
  assert ("document.getInfo" <> "") as Hm by (intros Heq; discriminate Heq).
  split; [reflexivity|]. split; [reflexivity|]. split; [exact Hm|].
  split; [reflexivity|].
  destruct (envelope_properties.encoded_requests_are_accepted
              (VInt 3) "document.getInfo" (VTable [] []) eq_refl eq_refl Hm
              eq_refl)
    as (text & decoded & Henc & Hparse & _ & Hid & Hmethod & _).
  exists text, decoded. split; [exact Henc|]. split; [exact Hparse|].
  split; [exact Hid|exact Hmethod].
Defined.

(** A method nobody knows. *)
Lemma unknown_method_witness :
  validator.isAllowed "nope" = false
  /\ validator.validateParams "nope" VNil
     = validator.Invalid "Unknown method: nope".
Proof.
  split; [reflexivity|].
  apply (proj1 (proj2
           dispatch_properties.allowed_methods_are_the_methods_with_a_schema)).
  reflexivity.
Defined.

(** The request for [document.getInfo]: its handler is called, and the
    document afterwards is the one the handler left. *)
Lemma checked_handler_witness :
  let request :=
    VTable [] [("jsonrpc", VStr "2.0"); ("id", VInt 1);
               ("method", VStr "document.getInfo")] in
  protocol.parseRequest getInfo_request = inl request
  /\ field request "method" = VStr "document.getInfo"
  /\ validator.isAllowed "document.getInfo" = true
  /\ validator.validateParams "document.getInfo"
       (lua_or (field request "params") (VTable [] []))
     = validator.Valid
  /\ handlers example_server !! "document.getInfo"
     = Some (logging "getInfo" (VStr "info"))
  /\ snd (processRequest example_server getInfo_request ["before"])
     = ["getInfo"; "before"].
Proof.
  intros request.
  assert (protocol.parseRequest getInfo_request = inl request) as H1
    by (vm_compute; reflexivity).
  assert (handlers example_server !! "document.getInfo"
          = Some (logging "getInfo" (VStr "info"))) as H5
    by (vm_compute; reflexivity).
  split; [exact H1|]. split; [reflexivity|]. split; [reflexivity|].
  split; [reflexivity|]. split; [exact H5|].
  exact (proj1 (dispatch_properties.document_changes_only_through_a_checked_handler
                  example_server getInfo_request ["before"])
           request "document.getInfo" (logging "getInfo" (VStr "info"))
           H1 eq_refl eq_refl eq_refl H5).
Defined.

(** The batch [A, B, C] without [stopOnError]. *)
Lemma batch_without_stop_witness :
  let params := example_batch false in
  let st := batch.run (handlers example_server) false (batch.initial []) 1
              example_ops in
  index params "operations" = Ok (VTable example_ops [])
  /\ index params "stopOnError" = Ok (VBool false)
  /\ Lua.truthy (VBool false) = false
  /\ 0 < length example_ops <= batch.MAX_OPERATIONS
  /\ batch.executed st = 3
  /\ batch.succeeded st + batch.failed st = 3
  /\ batch.stoppedEarly st = false.
Proof.
  intros params st.
  assert (index params "operations" = Ok (VTable example_ops [])) as H1
    by reflexivity.
  assert (index params "stopOnError" = Ok (VBool false)) as H2 by reflexivity.
  assert (0 < length example_ops <= batch.MAX_OPERATIONS) as H3
    by (vm_compute; lia).
  destruct (dispatch_properties.batch_without_stop_runs_every_operation
              (handlers example_server) [] params example_ops [] (VBool false)
              H1 H2 eq_refl H3)
    as (_ & _ & Hexec & Hsum & Hstop & _).
  split; [exact H1|]. split; [exact H2|]. split; [reflexivity|].
  split; [exact H3|]. split; [exact Hexec|]. split; [exact Hsum|exact Hstop].
Defined.

(** The files [req_50.json] and [req_140.json]: the second is more than
    101 ids from the start of the scan, and is found because the first
    breaks the run of missing ids. *)
Lemma scan_witness :
  let dir : directory :=
    {[ request_name 50 := getInfo_request;
       request_name 140 := getInfo_request ]} in
  1 <= 140 <= LAST_ID
  /\ is_Some (dir !! ("req_" +:+ pretty 140 +:+ ".json"))
  /\ (forall b, 101 <= b < 140 ->
        exists k, b - 100 <= k <= b
                  /\ is_Some (dir !! ("req_" +:+ pretty k +:+ ".json")))
  /\ "req_" +:+ pretty 140 +:+ ".json" ∈ findFilesByPrefix dir "req_"
  /\ findFilesByPrefix dir "req_" = ["req_50.json"; "req_140.json"].
Proof.
  intros dir.
  assert (1 <= 140 <= LAST_ID) as H1
    by (change LAST_ID with (140 + 9860); lia).
  assert (is_Some (dir !! ("req_" +:+ pretty 140 +:+ ".json"))) as H2
    by (exists getInfo_request; vm_compute; reflexivity).
  assert (forall b, 101 <= b < 140 ->
            exists k, b - 100 <= k <= b
                      /\ is_Some (dir !! ("req_" +:+ pretty k +:+ ".json")))
    as H3.
  { intros b Hb. exists 50. split; [lia|].
    exists getInfo_request. vm_compute. reflexivity. }
  split; [exact H1|]. split; [exact H2|]. split; [exact H3|].
  split; [|vm_compute; reflexivity].
  exact (proj2 (server_properties.scan_is_ordered_and_complete_up_to_a_gap
                  dir "req_") 140 H1 H2 H3).
Defined.

(** Three requests wait: a tick serves the first two. *)
Lemma tick_witness :
  let dir : directory :=
    {[ request_name 1 := getInfo_request;
       request_name 2 := getLayers_request "2";
       request_name 3 := getInfo_request ]} in
  isRunning example_server = true
  /\ findFilesByPrefix dir "req_"
     = [request_name 1; request_name 2; request_name 3]
  /\ exists moho' dir',
       poll example_server [] dir = Ok (moho', dir')
       /\ dir' !! request_name 1 = None
       /\ dir' !! request_name 2 = None
       /\ dir' !! request_name 3 = Some getInfo_request.
Proof.
  intros dir.
  assert (findFilesByPrefix dir "req_"
          = [request_name 1; request_name 2; request_name 3]) as Hscan
    by (vm_compute; reflexivity).
  destruct (tick_properties.tick_serves_the_two_oldest example_server [] dir
              (request_name 1) (request_name 2) [request_name 3] eq_refl Hscan)
    as (i & j & c1 & c2 & r1 & r2 & dir' & _ & _ & _ & _ & _ & _ & _ & Hpoll
        & _ & _ & Hgone1 & Hgone2 & Hrest & _).
  split; [reflexivity|]. split; [exact Hscan|].
  eexists _, dir'. split; [exact Hpoll|]. split; [exact Hgone1|].
  split; [exact Hgone2|].
  destruct (Hrest (request_name 3)) as [_ Hkept].
  { apply elem_of_cons. left. reflexivity. }
  rewrite Hkept. vm_compute. reflexivity.
Defined.

(** A stopped server and a request left by an earlier session: a start
    whose test write goes through, and one whose test file cannot be
    opened. *)
Lemma start_witness :
  let st : state (World := list string) :=
    {| isRunning := false; handlers := handlers example_server |} in
  let dir : directory := {[ request_name 1 := getInfo_request ]} in
  let ipcDir := "/tmp/moho-mcp/" in
  isRunning st = false
  /\ (exists status dir',
        start ipcDir "2026-01-01T00:00:00Z" None st dir
        = Ok (None, example_server, dir')
        /\ dir' !! "status.json" = Some status
        /\ findFilesByPrefix dir' "req_" = []
        /\ poll example_server [] dir' = Ok ([], dir'))
  /\ start ipcDir "2026-01-01T00:00:00Z"
       (Some (OpenFails "Permission denied")) st dir
     = Ok (Some ("Cannot write to IPC directory /tmp/moho-mcp/: "
                 +:+ "Failed to open /tmp/moho-mcp/.mcp_test.tmp: "
                 +:+ "Permission denied"),
           st, dir)
  /\ exists err dir',
       start ipcDir "2026-01-01T00:00:00Z"
         (Some (RenameFails "Permission denied")) st dir
       = Ok (Some ("Cannot write to IPC directory " +:+ ipcDir +:+ ": "
                   +:+ err), st, dir')
       /\ dir' !! request_name 1 = Some getInfo_request
       /\ dir' !! "status.json" = None.
Proof.
  intros st dir ipcDir. split; [reflexivity|].
  destruct (server_properties.start_clears_what_the_scan_sees
              ipcDir "2026-01-01T00:00:00Z" st dir eq_refl)
    as ((status & dir' & Hstart & Hstatus & _ & Hreq & _ & Hpoll & _)
        & Hfailure).
  split.
  { exists status, dir'. split; [exact Hstart|]. split; [exact Hstatus|].
    split; [exact Hreq|exact (Hpoll [])]. }
  split; [vm_compute; reflexivity|].
  destruct (Hfailure (RenameFails "Permission denied"))
    as (err & dir1 & Hfailed & Hkept).
  exists err, dir1. split; [exact Hfailed|].
  split; (rewrite Hkept; [vm_compute; reflexivity|]);
    apply (bool_decide_unpack _); vm_compute; exact I.
Defined.

(** A running server with its status file and a request. *)
Lemma stop_witness :
  let dir : directory :=
    {[ "status.json" := "{}"; request_name 1 := getInfo_request ]} in
  isRunning example_server = true
  /\ exists dir',
       stop example_server dir
       = ({| isRunning := false; handlers := handlers example_server |}, dir')
       /\ dir' !! "status.json" = None
       /\ findFilesByPrefix dir' "req_" = [].
Proof.
  intros dir. split; [reflexivity|].
  destruct (server_properties.stop_clears_what_the_scan_sees
              example_server dir eq_refl)
    as (dir' & Hstop & Hstatus & Hreq & _).
  exists dir'. split; [exact Hstop|]. split; [exact Hstatus|exact Hreq].
Defined.

(** Only the document module loads, and it has [getInfo]. *)
Lemma registry_witness :
  let toolMod : gmap string (handler (list string)) :=
    {[ "getInfo" := logging "getInfo" (VStr "info") ]} in
  let modules name :=
    if String.eqb name "moho_mcp.tools.document" then Some toolMod else None in
  let methods :=
    ["document.getInfo"; "document.getLayers"; "document.setFrame";
     "document.screenshot"] in
  ("moho_mcp.tools.document", methods) ∈ MohoMCP_Server.toolModules
  /\ "document.getInfo" ∈ methods
  /\ modules "moho_mcp.tools.document" = Some toolMod
  /\ MohoMCP_Server.after_dot "document.getInfo" = Some "getInfo"
  /\ toolMod !! "getInfo" = Some (logging "getInfo" (VStr "info"))
  /\ MohoMCP_Server.loadModules modules !! "document.getInfo"
     = Some (logging "getInfo" (VStr "info")).
Proof.
  intros toolMod modules methods.
  assert (("moho_mcp.tools.document", methods) ∈ MohoMCP_Server.toolModules)
    as H1 by (apply elem_of_cons; left; reflexivity).
  assert ("document.getInfo" ∈ methods) as H2
    by (apply elem_of_cons; left; reflexivity).
  assert (toolMod !! "getInfo" = Some (logging "getInfo" (VStr "info"))) as H5
    by apply lookup_singleton_eq.
  split; [exact H1|]. split; [exact H2|]. split; [reflexivity|].
  split; [reflexivity|]. split; [exact H5|].
  exact (proj2 (proj2 (proj2
           (script_properties.registry_and_allow_list_fit modules)))
           "moho_mcp.tools.document" methods "document.getInfo" "getInfo"
           toolMod (logging "getInfo" (VStr "info")) H1 H2 eq_refl eq_refl H5).
Defined.

(** The menu command: on a script that has not loaded its modules and
    cannot; on the first run, where the modules load and the server
    starts; on the first run in a directory that cannot be written; and on
    the running server of the examples. *)
Lemma menu_command_witness :
  let fresh : MohoMCP_Server.script (World := list string) :=
    {| MohoMCP_Server.isLoaded := false;
       MohoMCP_Server.pollActive := false;
       MohoMCP_Server.hooksInstalled := false;
       MohoMCP_Server.server := None |} in
  let loaded : MohoMCP_Server.script (World := list string) :=
    {| MohoMCP_Server.isLoaded := true;
       MohoMCP_Server.pollActive := true;
       MohoMCP_Server.hooksInstalled := true;
       MohoMCP_Server.server := Some example_server |} in
  let env loads write : MohoMCP_Server.environment (World := list string) :=
    {| MohoMCP_Server.coreLoads := loads;
       MohoMCP_Server.toolModule := fun _ => None;
       MohoMCP_Server.ipcDir := "/tmp/moho-mcp/";
       MohoMCP_Server.startedAt := "2026-01-01T00:00:00Z";
       MohoMCP_Server.testWrite := write |} in
  let dir : directory := {[ request_name 1 := getInfo_request ]} in
  MohoMCP_Server.Run (env false None) fresh [] dir
  = Ok (MohoMCP_Server.LoadFailed, fresh, [], dir)
  /\ (exists sc' dir',
        MohoMCP_Server.Run (env true None) fresh [] dir
        = Ok (MohoMCP_Server.Started "/tmp/moho-mcp/", sc', [], dir')
        /\ MohoMCP_Server.pollActive sc' = true
        /\ is_Some (dir' !! "status.json")
        /\ findFilesByPrefix dir' "req_" = [])
  /\ (exists err sc' dir',
        MohoMCP_Server.Run (env true (Some (OpenFails "Permission denied")))
          fresh [] dir
        = Ok (MohoMCP_Server.StartFailed
                ("Cannot write to IPC directory /tmp/moho-mcp/: " +:+ err),
              sc', [], dir')
        /\ MohoMCP_Server.pollActive sc' = false
        /\ dir' !! "status.json" = None)
  /\ (exists sc' dir',
        MohoMCP_Server.Run (env true None) loaded [] dir
        = Ok (MohoMCP_Server.Stopped, sc', [], dir')
        /\ MohoMCP_Server.pollActive sc' = false
        /\ dir' !! "status.json" = None
        /\ findFilesByPrefix dir' "req_" = []).
Proof.
  intros fresh loaded env dir.
  split.
  { exact (proj1 (script_properties.menu_command_toggles_the_server
                    (env false None) fresh [] dir) eq_refl eq_refl). }
  split.
  { destruct (proj2 (script_properties.menu_command_toggles_the_server
                       (env true None) fresh [] dir)
                {| isRunning := false;
                   handlers := MohoMCP_Server.loadModules (fun _ => None) |}
                (or_intror (conj eq_refl (conj eq_refl eq_refl))))
      as (_ & Hstart & _).
    destruct (Hstart eq_refl eq_refl) as (dir' & Hrun & Hstatus & Hreq & _).
    eexists _, dir'. split; [exact Hrun|]. split; [reflexivity|].
    split; [exact Hstatus|exact Hreq]. }
  split.
  { destruct (proj2 (script_properties.menu_command_toggles_the_server
                       (env true (Some (OpenFails "Permission denied")))
                       fresh [] dir)
                {| isRunning := false;
                   handlers := MohoMCP_Server.loadModules (fun _ => None) |}
                (or_intror (conj eq_refl (conj eq_refl eq_refl))))
      as (_ & _ & Hfail).
    destruct (Hfail eq_refl (OpenFails "Permission denied") eq_refl)
      as (err & dir' & Hrun & Hstatus).
    eexists err, _, dir'. split; [exact Hrun|]. split; [reflexivity|].
    rewrite Hstatus. vm_compute. reflexivity. }
  destruct (proj2 (script_properties.menu_command_toggles_the_server
                     (env true None) loaded [] dir)
              example_server (or_introl (conj eq_refl eq_refl)))
    as (Hstop & _).
  destruct (Hstop eq_refl) as (dir' & Hrun & Hstatus & Hreq & _).
  eexists _, dir'. split; [exact Hrun|]. split; [reflexivity|].
  split; [exact Hstatus|exact Hreq].
Defined.

(** The server of the examples is stopped: a client cannot connect. *)
Lemma after_stop_witness :
  isRunning example_server = true
  /\ exists st' dir',
       stop example_server ({[ "status.json" := "{}" ]} : directory)
       = (st', dir')
       /\ connect {| nextId := 1; connected := false |} dir'
          = inr NoStatusFile.
Proof.
  split; [reflexivity|].
  destruct (script_properties.after_stop_nobody_answers example_server
              ({[ "status.json" := "{}" ]} : directory) eq_refl)
    as (st' & dir' & Hstop & Hconnect & _).
  exists st', dir'. split; [exact Hstop|].
  apply Hconnect. reflexivity.
Defined.

(** A call that times out: no response file is left. *)
Lemma call_witness :
  exists out cl' dir',
    sendRequest example_clock nobody 5 default_config example_client
      "document.getInfo" (JObject []) (Some 2500%Z) ∅
    = Some (out, cl', dir')
    /\ connected example_client = true
    /\ dir' !! response_name 150 = None
    /\ cl' = {| nextId := 151; connected := true |}.
Proof.
  destruct (sendRequest example_clock nobody 5 default_config example_client
              "document.getInfo" (JObject []) (Some 2500%Z) ∅)
    as [[[out cl'] dir']|] eqn:Hsend;
    [|vm_compute in Hsend; discriminate Hsend].
  exists out, cl', dir'. split; [reflexivity|]. split; [reflexivity|].
  destruct (proj1 (client_properties.call_leaves_no_response_file
                     example_clock nobody 5 default_config example_client
                     "document.getInfo" (JObject []) (Some 2500%Z) ∅
                     out cl' dir' Hsend) eq_refl)
    as (Hgone & Hclient & _).
  split; [exact Hgone|exact Hclient].
Defined.

(** The first call of a client, answered by the tick before its first
    look. *)
Lemma answered_call_witness :
  let cl := {| nextId := 1; connected := true |} in
  let content :=
    JSON_stringify (request_object 1 "document.getInfo" (JObject [])) in
  let written := writeRequest ∅ (request_name 1) content in
  connected cl = true
  /\ isRunning example_server = true
  /\ findFilesByPrefix written "req_" = [request_name 1]
  /\ exists response,
       written_response example_server content ([] : list string) response
       /\ forall fuel, 0 < fuel ->
          exists out dir',
            sendRequest example_clock
              (fun n => server_ticks example_server [] 1)
              fuel default_config cl "document.getInfo" (JObject []) None ∅
            = Some (out, {| nextId := 2; connected := true |}, dir')
            /\ dir' !! request_name 1 = None
            /\ dir' !! response_name 1 = None.
Proof.
  intros cl content written.
  assert (findFilesByPrefix written "req_" = [request_name 1]) as Hscan
    by (vm_compute; reflexivity).
  destruct (client_properties.call_answered_by_a_tick example_server
              ([] : list string) example_clock (fun _ => 1) default_config cl
              "document.getInfo" (JObject []) None ∅ eq_refl eq_refl eq_refl
              Hscan)
    as (response & Hresponse & Hcall).
  split; [reflexivity|]. split; [reflexivity|]. split; [exact Hscan|].
  exists response. split; [exact Hresponse|].
  intros fuel Hfuel.
  destruct (Hcall fuel Hfuel)
    as (out & dir' & Hsend & _ & _ & Hreq & Hresp & _).
  exists out, dir'. split; [exact Hsend|]. split; [exact Hreq|exact Hresp].
Defined.

(** A response file that holds a byte order mark, a space and a no-break
    space only; and a response behind a byte order mark and in front of a
    line separator. *)
Lemma blank_response_witness :
  let bom := code_point [239; 187; 191] in
  let nbsp := code_point [194; 160] in
  let line_separator := code_point [226; 128; 168] in
  let text := jtext "{'jsonrpc':'2.0','id':1,'result':'info'}" in
  let response :=
    JObject [("jsonrpc", JString "2.0"); ("id", JNumber (NInt 1));
             ("result", JString "info")] in
  white_text (bom +:+ " " +:+ nbsp)
  /\ parseResponse (bom +:+ " " +:+ nbsp) = inr EmptyResponse
  /\ parseResponse (bom +:+ text +:+ line_separator) = inl response
  /\ trim (bom +:+ text +:+ line_separator) = text
  /\ JSON_parse (trim (bom +:+ text +:+ line_separator)) = Some response.
Proof.
  intros bom nbsp line_separator text response.
  assert (white_text (bom +:+ " " +:+ nbsp)) as Hwhite.
  { exists [bom; " "; nbsp].
    split; [|reflexivity].
    apply (bool_decide_unpack _). vm_compute. exact I. }
  assert (parseResponse (bom +:+ text +:+ line_separator) = inl response)
    as Hparsed by (vm_compute; reflexivity).
  split; [exact Hwhite|].
  split.
  { exact (proj1 (proj2
             (response_properties.parseResponse_reads_the_trimmed_text
                (bom +:+ " " +:+ nbsp))) Hwhite). }
  split; [exact Hparsed|]. split; [vm_compute; reflexivity|].
  exact (proj1 (proj2 (proj2
           (response_properties.parseResponse_reads_the_trimmed_text
              (bom +:+ text +:+ line_separator))) response Hparsed)).
Defined.

End more_examples.
